(** * NoteGenius: the offline NLP core, embedded and verified

    A shallow embedding of the algorithmic core of NoteGenius
    (sentence splitting, TextRank, lexicon sentiment, rule-based
    extraction, flashcard synthesis, SM-2 scheduling, text chunking).

    Conventions of the embedding.
    - A JavaScript string is a [string] whose characters are the code
      units of the source string; the model covers code units below 256
      (Latin-1), which is where [\s], [\w], [toLowerCase] and [trim] are
      defined below.
    - A JavaScript number that the code uses as a count, an index or a
      length is a [nat] or a [Z]; a number that the code divides or
      multiplies by a fraction is a [Q], read exactly.
    - [Math.sqrt], [Math.random], [Date.now] and [generateId] are
      parameters of the functions that call them.
    - [Set<string>] is [gset string]; a [Map] whose insertion order
      is observable is an association list in insertion order. *)

From Stdlib Require Import ZArith QArith Qround Qabs Qminmax String Ascii List Bool Lia Sorted.
From stdpp Require Import base gmap strings list.

Local Open Scope string_scope.
Local Open Scope list_scope.
Local Open Scope nat_scope.

(* ================================================================== *)
(** * JavaScript string primitives *)
(* ================================================================== *)

Module Js.

(** [\s] of a regular expression, which is also what [trim] strips. *)
Definition isSpace (c : ascii) : bool :=
  let n := nat_of_ascii c in
  ((9 <=? n) && (n <=? 13)) || (n =? 32) || (n =? 160).

Definition isDigit (c : ascii) : bool :=
  let n := nat_of_ascii c in (48 <=? n) && (n <=? 57).

Definition isUpperAZ (c : ascii) : bool :=
  let n := nat_of_ascii c in (65 <=? n) && (n <=? 90).

Definition isLowerAZ (c : ascii) : bool :=
  let n := nat_of_ascii c in (97 <=? n) && (n <=? 122).

(** [\w] is [[A-Za-z0-9_]]. *)
Definition isWord (c : ascii) : bool :=
  isUpperAZ c || isLowerAZ c || isDigit c || (nat_of_ascii c =? 95).

(** [.] matches everything but a line terminator. *)
Definition isLineTerminator (c : ascii) : bool :=
  let n := nat_of_ascii c in (n =? 10) || (n =? 13).

Definition toLowerChar (c : ascii) : ascii :=
  let n := nat_of_ascii c in
  if isUpperAZ c || ((192 <=? n) && (n <=? 222) && negb (n =? 215))
  then ascii_of_nat (n + 32) else c.

(** Upper-casing of the characters that have a Latin-1 image. *)
Definition toUpperChar (c : ascii) : ascii :=
  let n := nat_of_ascii c in
  if isLowerAZ c || ((224 <=? n) && (n <=? 254) && negb (n =? 247))
  then ascii_of_nat (n - 32) else c.

Fixpoint mapChars (f : ascii -> ascii) (s : string) : string :=
  match s with
  | EmptyString => EmptyString
  | String c s' => String (f c) (mapChars f s')
  end.

Definition toLowerCase (s : string) : string := mapChars toLowerChar s.
Definition toUpperCase (s : string) : string := mapChars toUpperChar s.

Definition isEmpty (s : string) : bool :=
  match s with EmptyString => true | _ => false end.

Fixpoint trimStart (s : string) : string :=
  match s with
  | EmptyString => EmptyString
  | String c s' => if isSpace c then trimStart s' else s
  end.

Fixpoint trimEnd (s : string) : string :=
  match s with
  | EmptyString => EmptyString
  | String c s' =>
      let t := trimEnd s' in
      if isSpace c && isEmpty t then EmptyString else String c t
  end.

Definition trim (s : string) : string := trimEnd (trimStart s).

(** [s.slice(n)] and [s.slice(0, n)] for [0 <= n]. *)
Fixpoint sliceFrom (n : nat) (s : string) : string :=
  match n, s with
  | O, _ => s
  | S n', EmptyString => EmptyString
  | S n', String _ s' => sliceFrom n' s'
  end.

Fixpoint sliceTo (n : nat) (s : string) : string :=
  match n, s with
  | O, _ => EmptyString
  | S n', EmptyString => EmptyString
  | S n', String c s' => String c (sliceTo n' s')
  end.

Fixpoint startsWith (p s : string) : bool :=
  match p, s with
  | EmptyString, _ => true
  | String a p', String b s' => Ascii.eqb a b && startsWith p' s'
  | String _ _, EmptyString => false
  end.

(** [s.includes(p)] *)
Fixpoint includes (p s : string) : bool :=
  startsWith p s ||
  match s with
  | EmptyString => false
  | String _ s' => includes p s'
  end.

(** [s.endsWith(p)] *)
Definition endsWith (p s : string) : bool :=
  (String.length p <=? String.length s) &&
  String.eqb (sliceFrom (String.length s - String.length p) s) p.

(** [l.join(sep)] *)
Fixpoint join (sep : string) (l : list string) : string :=
  match l with
  | [] => EmptyString
  | [x] => x
  | x :: l' => x +:+ sep +:+ join sep l'
  end.

(** [s.charAt(0).toUpperCase() + s.slice(1)] *)
Definition capitalize (s : string) : string :=
  match s with
  | EmptyString => EmptyString
  | String c s' => String (toUpperChar c) s'
  end.

(** The double quote character, as a string. *)
Definition dquote : string := String (ascii_of_nat 34) EmptyString.

(** Stable sort, as [Array.prototype.sort] is: [cmp a b = true] stands
    for a comparator result [<= 0], so that [a] stays before [b]. *)
Section Sort.
Context {A : Type} (cmp : A -> A -> bool).

Fixpoint insertSorted (x : A) (l : list A) : list A :=
  match l with
  | [] => [x]
  | y :: l' => if cmp x y then x :: y :: l' else y :: insertSorted x l'
  end.

Fixpoint sort (l : list A) : list A :=
  match l with
  | [] => []
  | x :: l' => insertSorted x (sort l')
  end.
End Sort.

(** The filter that both flashcard generators end with:
    [const seen = new Set(); return cards.filter(c => { const key = ...;
    if (seen.has(key)) return false; seen.add(key); return true; })]. *)
Fixpoint filterUnseen {A : Type} (key : A -> string) (cards : list A)
    (seen : gset string) : list A :=
  match cards with
  | [] => []
  | c :: cards' =>
      if bool_decide (key c ∈ seen) then filterUnseen key cards' seen
      else c :: filterUnseen key cards' ({[ key c ]} ∪ seen)
  end.

End Js.

(* ================================================================== *)
(** * Regular expressions *)
(* ================================================================== *)

(** A backtracking matcher with the priorities of the JavaScript one:
    the left alternative first, a greedy quantifier tries one more
    iteration first, an iteration that consumes nothing is refused.
    One capture group is enough for the patterns of this program. *)

Module Regex.

Inductive regex : Type :=
| Eps
| Chr (c : ascii)                 (* a literal character *)
| Cls (p : ascii -> bool)         (* a class or an escape such as \s *)
| Dot                             (* . *)
| Bol                             (* ^ *)
| WordB                           (* \b *)
| Behind (p : ascii -> bool)      (* (?<=[...]) *)
| Seq (r1 r2 : regex)
| Alt (r1 r2 : regex)
| Star (r : regex)
| Group (r : regex).              (* the capture group 1 *)

Definition Plus (r : regex) : regex := Seq r (Star r).
Definition Opt (r : regex) : regex := Alt r Eps.

Fixpoint lit (s : string) : regex :=
  match s with
  | EmptyString => Eps
  | String c EmptyString => Chr c
  | String c s' => Seq (Chr c) (lit s')
  end.

Fixpoint seqs (l : list regex) : regex :=
  match l with
  | [] => Eps
  | [r] => r
  | r :: l' => Seq r (seqs l')
  end.

Fixpoint alts (l : list regex) : regex :=
  match l with
  | [] => Cls (fun _ => false)
  | [r] => r
  | r :: l' => Alt r (alts l')
  end.

(** [r{lo,hi}] with [lo <= hi], greedy. *)
Fixpoint upTo (n : nat) (r : regex) : regex :=
  match n with
  | O => Eps
  | S n' => Opt (Seq r (upTo n' r))
  end.

Fixpoint exactly (n : nat) (r : regex) : regex :=
  match n with
  | O => Eps
  | S n' => Seq r (exactly n' r)
  end.

Definition Rep (lo hi : nat) (r : regex) : regex :=
  Seq (exactly lo r) (upTo (hi - lo) r).

(** A position in the subject: the character before it and the rest. *)
Record cursor : Type := Cursor { before : option ascii; rest : string }.

Definition atStart (s : string) : cursor := Cursor None s.

Definition advance (cur : cursor) : option cursor :=
  match rest cur with
  | EmptyString => None
  | String c s' => Some (Cursor (Some c) s')
  end.

Definition remaining (cur : cursor) : nat := String.length (rest cur).

(** The text between two positions of the same subject. *)
Definition between (from to : cursor) : string :=
  Js.sliceTo (remaining from - remaining to) (rest from).

Definition wordBefore (cur : cursor) : bool :=
  match before cur with Some c => Js.isWord c | None => false end.

Definition wordAfter (cur : cursor) : bool :=
  match rest cur with String c _ => Js.isWord c | EmptyString => false end.

Definition outcome : Type := (cursor * option string)%type.

Section Matcher.
Variable icase : bool.   (* the i flag *)

Definition sameChar (c x : ascii) : bool :=
  if icase then Ascii.eqb (Js.toLowerChar c) (Js.toLowerChar x)
  else Ascii.eqb c x.

Definition step (p : ascii -> bool) (cur : cursor) (cap : option string)
    (k : cursor -> option string -> option outcome) : option outcome :=
  match rest cur with
  | String x s' => if p x then k (Cursor (Some x) s') cap else None
  | EmptyString => None
  end.

(** The greedy loop of [r*]: [body] runs [r] once; an iteration has to
    consume something.  No iteration can follow once [fuel], the number
    of characters left at the start, is used up. *)
Fixpoint starLoop
    (body : cursor -> option string ->
            (cursor -> option string -> option outcome) -> option outcome)
    (k : cursor -> option string -> option outcome)
    (fuel : nat) (cur : cursor) (cap : option string) {struct fuel}
    : option outcome :=
  match fuel with
  | O => k cur cap
  | S fuel' =>
      match body cur cap (fun cur' cap' =>
              if remaining cur' <? remaining cur
              then starLoop body k fuel' cur' cap' else None) with
      | Some o => Some o
      | None => k cur cap
      end
  end.

Fixpoint run (r : regex) (cur : cursor) (cap : option string)
    (k : cursor -> option string -> option outcome) {struct r}
    : option outcome :=
  match r with
  | Eps => k cur cap
  | Chr c => step (sameChar c) cur cap k
  | Cls p => step p cur cap k
  | Dot => step (fun x => negb (Js.isLineTerminator x)) cur cap k
  | Bol => match before cur with None => k cur cap | Some _ => None end
  | WordB => if xorb (wordBefore cur) (wordAfter cur) then k cur cap else None
  | Behind p =>
      match before cur with
      | Some c => if p c then k cur cap else None
      | None => None
      end
  | Seq r1 r2 => run r1 cur cap (fun cur' cap' => run r2 cur' cap' k)
  | Alt r1 r2 =>
      match run r1 cur cap k with
      | Some o => Some o
      | None => run r2 cur cap k
      end
  | Star r' => starLoop (run r') k (remaining cur) cur cap
  | Group r' =>
      run r' cur cap (fun cur' _ => k cur' (Some (between cur cur')))
  end.

(** The match that starts exactly at [cur], if there is one. *)
Definition matchAt (r : regex) (cur : cursor) : option outcome :=
  run r cur None (fun cur' cap' => Some (cur', cap')).

(** The leftmost match at or after [cur]: where it starts and its outcome. *)
Fixpoint searchFrom (fuel : nat) (r : regex) (cur : cursor)
    : option (cursor * outcome) :=
  match matchAt r cur with
  | Some o => Some (cur, o)
  | None =>
      match fuel, advance cur with
      | S fuel', Some cur' => searchFrom fuel' r cur'
      | _, _ => None
      end
  end.

Definition search (r : regex) (s : string) : option (cursor * outcome) :=
  searchFrom (String.length s) r (atStart s).

(** [r.test(s)] *)
Definition test (r : regex) (s : string) : bool :=
  match search r s with Some _ => true | None => false end.

(** [s.match(r)] for a regex without the g flag: the whole match and
    the capture group 1. *)
Definition exec (r : regex) (s : string) : option (string * option string) :=
  match search r s with
  | Some (from, (to, cap)) => Some (between from to, cap)
  | None => None
  end.

(** [s.replace(r, by)] for a regex with the g flag and a replacement
    without [$]. *)
Fixpoint replaceFrom (fuel : nat) (r : regex) (by_ : string) (cur : cursor)
    : string :=
  match fuel with
  | O => rest cur
  | S fuel' =>
      match matchAt r cur with
      | Some (cur', _) =>
          if remaining cur' <? remaining cur
          then by_ +:+ replaceFrom fuel' r by_ cur'
          else
            match rest cur with
            | EmptyString => by_
            | String c s' =>
                by_ +:+ String c (replaceFrom fuel' r by_ (Cursor (Some c) s'))
            end
      | None =>
          match rest cur with
          | EmptyString => EmptyString
          | String c s' =>
              String c (replaceFrom fuel' r by_ (Cursor (Some c) s'))
          end
      end
  end.

Definition replaceAll (r : regex) (by_ : string) (s : string) : string :=
  replaceFrom (S (String.length s)) r by_ (atStart s).

(** [s.split(r)] for a regex without capture groups.  [piece] holds, in
    reverse, the characters since the end of the last separator. *)
Definition unrev (piece : list ascii) : string :=
  string_of_list_ascii (rev piece).

Fixpoint splitFrom (fuel : nat) (r : regex) (cur : cursor)
    (piece : list ascii) : list string :=
  match fuel with
  | O => [unrev piece +:+ rest cur]
  | S fuel' =>
      match rest cur with
      | EmptyString => [unrev piece]
      | String c s' =>
          match matchAt r cur with
          | Some (cur', _) =>
              if remaining cur' <? remaining cur
              then unrev piece :: splitFrom fuel' r cur' []
              else
                match piece with
                | [] => splitFrom fuel' r (Cursor (Some c) s') [c]
                | _ :: _ =>
                    unrev piece ::
                    splitFrom fuel' r (Cursor (Some c) s') [c]
                end
          | None => splitFrom fuel' r (Cursor (Some c) s') (c :: piece)
          end
      end
  end.

Definition split (r : regex) (s : string) : list string :=
  match s with
  | EmptyString =>
      match matchAt r (atStart s) with Some _ => [] | None => [s] end
  | _ => splitFrom (String.length s) r (atStart s) []
  end.

End Matcher.

End Regex.

(* ================================================================== *)
(** * services/nlp/textrank.ts *)
(* ================================================================== *)

Module Textrank.
Import Regex.

Definition STOP_WORDS : gset string := list_to_set
  [ "the"; "a"; "an"; "and"; "or"; "but"; "in"; "on"; "at"; "to"; "for";
    "of"; "with"; "by"; "from"; "is"; "it"; "its"; "this"; "that"; "was";
    "are"; "were"; "be"; "been"; "being"; "have"; "has"; "had"; "do";
    "does"; "did"; "will"; "would"; "could"; "should"; "may"; "might";
    "shall"; "can"; "not"; "no"; "nor"; "so"; "if"; "then"; "than"; "too";
    "very"; "just"; "about"; "above"; "after"; "again"; "all"; "also";
    "am"; "any"; "because"; "before"; "between"; "both"; "each"; "few";
    "get"; "got"; "here"; "how"; "into"; "more"; "most"; "much"; "must";
    "my"; "new"; "now"; "only"; "other"; "our"; "out"; "own"; "same";
    "she"; "some"; "such"; "there"; "these"; "they"; "those"; "through";
    "under"; "until"; "what"; "when"; "where"; "which"; "while"; "who";
    "whom"; "why"; "you"; "your"; "we"; "he"; "her"; "him"; "his"; "me";
    "them"; "us" ].

Definition isSentenceEnd (c : ascii) : bool :=
  Ascii.eqb c "." || Ascii.eqb c "!" || Ascii.eqb c "?".

(** [/(?<=[.!?])\s+/] *)
Definition sentenceBreak : regex :=
  Seq (Behind isSentenceEnd) (Plus (Cls Js.isSpace)).

(** [/\s+/] *)
Definition spaces : regex := Plus (Cls Js.isSpace).

(** [/[^\w\s]/g] *)
Definition notWordNotSpace : regex :=
  Cls (fun c => negb (Js.isWord c || Js.isSpace c)).

Definition splitSentences (text : string) : list string :=
  List.filter (fun s => 10 <? String.length s)
    (List.map Js.trim (split false sentenceBreak text)).

Definition tokenize (text : string) : list string :=
  List.filter
    (fun w => (2 <? String.length w) && negb (bool_decide (w ∈ STOP_WORDS)))
    (split false spaces
       (replaceAll false notWordNotSpace "" (Js.toLowerCase text))).

(** A [Map<string, number>] in insertion order. *)
Definition freqMap : Type := list (string * nat).

Fixpoint mapGet (k : string) (m : freqMap) : option nat :=
  match m with
  | [] => None
  | (k', v) :: m' => if String.eqb k' k then Some v else mapGet k m'
  end.

Fixpoint mapSet (k : string) (v : nat) (m : freqMap) : freqMap :=
  match m with
  | [] => [(k, v)]
  | (k', v') :: m' =>
      if String.eqb k' k then (k', v) :: m' else (k', v') :: mapSet k v m'
  end.

Definition wordFrequency (tokens : list string) : freqMap :=
  fold_left (fun freq t => mapSet t (default 0 (mapGet t freq) + 1) freq)
    tokens [].

Section Ranking.
Variable sqrt : Q -> Q.   (* Math.sqrt *)

Definition allKeys (a b : freqMap) : list string :=
  List.map fst a ++
  List.filter (fun k => negb (bool_decide (is_Some (mapGet k a)))) (List.map fst b).

Definition cosineSimilarity (a b : freqMap) : Q :=
  let '(dotProduct, magA, magB) :=
    fold_left
      (fun '(d, ma, mb) key =>
         let va := default 0 (mapGet key a) in
         let vb := default 0 (mapGet key b) in
         (d + va * vb, ma + va * va, mb + vb * vb))
      (allKeys a b) (0, 0, 0) in
  if (magA =? 0) || (magB =? 0) then 0%Q
  else (inject_Z (Z.of_nat dotProduct) /
        (sqrt (inject_Z (Z.of_nat magA)) * sqrt (inject_Z (Z.of_nat magB))))%Q.

(** The adjacency matrix: [matrix[i][j] = matrix[j][i]] is the
    similarity computed for the pair with the smaller index first. *)
Definition adjacency (freqs : list freqMap) : list (list Q) :=
  let n := length freqs in
  List.map
    (fun i =>
       List.map
         (fun j =>
            if i =? j then 0%Q
            else cosineSimilarity (nth (Nat.min i j) freqs [])
                                  (nth (Nat.max i j) freqs []))
         (seq 0 n))
    (seq 0 n).

Definition sumQ (l : list Q) : Q := fold_left Qplus l 0%Q.

Definition damping : Q := 85 # 100.
Definition maxIter : nat := 50.
Definition threshold : Q := 1 # 10000.

Definition entry (matrix : list (list Q)) (i j : nat) : Q :=
  nth j (nth i matrix []) 0%Q.

(** One round of the PageRank loop: the new scores and the total change.
    [Qred] keeps a fraction in lowest terms and leaves its value as it is. *)
Definition pageRankRound (n : nat) (matrix : list (list Q)) (scores : list Q)
    : list Q * Q :=
  let newScores :=
    List.map
      (fun i =>
         let sum :=
           fold_left
             (fun sum j =>
                if i =? j then sum
                else
                  let outSum := sumQ (nth j matrix []) in
                  if Qlt_le_dec 0 outSum
                  then (sum + (entry matrix j i / outSum) * nth j scores 0)%Q
                  else sum)
             (seq 0 n) 0%Q in
         Qred ((1 - damping) / inject_Z (Z.of_nat n) + damping * sum)%Q)
      (seq 0 n) in
  let delta :=
    fold_left
      (fun delta i =>
         (delta + Qabs (nth i newScores 0 - nth i scores 0))%Q)
      (seq 0 n) 0%Q in
  (newScores, delta).

Fixpoint pageRank (iters n : nat) (matrix : list (list Q)) (scores : list Q)
    : list Q :=
  match iters with
  | O => scores
  | S iters' =>
      let '(newScores, delta) := pageRankRound n matrix scores in
      if Qlt_le_dec delta threshold then newScores
      else pageRank iters' n matrix newScores
  end.

(** [(a, b) => b.score - a.score] is [<= 0] when [b.score <= a.score]. *)
Definition byScoreDesc (a b : Q * nat) : bool := Qle_bool (fst b) (fst a).

Definition textRank (sentences : list string) (topN : nat) : list nat :=
  let n := length sentences in
  if n =? 0 then []
  else if n <=? topN then seq 0 n
  else
    let tokenized := List.map tokenize sentences in
    let freqs := List.map wordFrequency tokenized in
    let matrix := adjacency freqs in
    let scores :=
      pageRank maxIter n matrix (repeat (1 / inject_Z (Z.of_nat n))%Q n) in
    let indexed := combine scores (seq 0 n) in
    List.map snd (take topN (Js.sort byScoreDesc indexed)).

End Ranking.

(** [(a, b) => b[1] - a[1]] *)
Definition byCountDesc (a b : string * nat) : bool := snd b <=? snd a.

Definition extractKeywords (text : string) (topN : nat) : list string :=
  let tokens := tokenize text in
  let freq := wordFrequency tokens in
  let sorted := Js.sort byCountDesc freq in
  List.map fst (take topN sorted).

End Textrank.

(* ================================================================== *)
(** * services/nlp/sentiment.ts *)
(* ================================================================== *)

Module Sentiment.
Import Regex.

Definition POSITIVE_WORDS : gset string := list_to_set
  [ "good"; "great"; "excellent"; "amazing"; "wonderful"; "fantastic";
    "awesome"; "love"; "happy"; "glad"; "pleased"; "delighted"; "perfect";
    "beautiful"; "brilliant"; "outstanding"; "superb"; "terrific";
    "positive"; "success"; "successful"; "agree"; "agreed"; "approval";
    "approve"; "best"; "better"; "celebrate"; "accomplished"; "achieve";
    "benefit"; "comfortable"; "confident"; "creative"; "efficient";
    "enjoy"; "excited"; "exciting"; "favorable"; "fine"; "fortunate";
    "helpful"; "impressive"; "improved"; "incredible"; "inspired";
    "interesting"; "joyful"; "nice"; "optimistic"; "promising";
    "remarkable"; "satisfied"; "smooth"; "strong"; "valuable"; "welcome";
    "win"; "won"; "worth"; "worthy"; "ready"; "progress"; "resolved" ].

Definition NEGATIVE_WORDS : gset string := list_to_set
  [ "bad"; "terrible"; "awful"; "horrible"; "poor"; "worst"; "hate";
    "angry"; "sad"; "disappointed"; "frustrated"; "annoyed"; "upset";
    "fail"; "failed"; "failure"; "wrong"; "problem"; "issue"; "concern";
    "worried"; "worry"; "difficult"; "hard"; "painful"; "unfortunately";
    "sadly"; "regret"; "unhappy"; "disagree"; "rejected"; "reject";
    "block"; "blocked"; "blocker"; "broken"; "bug"; "confusing";
    "complicated"; "critical"; "danger"; "dangerous"; "delay"; "delayed";
    "deny"; "deprecated"; "destroy"; "disaster"; "error"; "expensive";
    "impossible"; "inadequate"; "incomplete"; "insecure"; "invalid";
    "lacking"; "lost"; "missing"; "negative"; "never"; "nightmare";
    "obsolete"; "overdue"; "overwhelm"; "risk"; "risky"; "severe"; "slow";
    "stuck"; "threat"; "trouble"; "unable"; "unclear"; "unfair";
    "unfortunate"; "unstable"; "urgent"; "vulnerable"; "weak" ].

Definition NEGATION_WORDS : gset string := list_to_set
  [ "not"; "n't"; "no"; "never"; "neither"; "nor"; "hardly"; "barely";
    "scarcely"; "rarely"; "don't"; "doesn't"; "didn't"; "won't";
    "wouldn't"; "couldn't"; "shouldn't"; "isn't"; "aren't"; "wasn't" ].

Definition has (set : gset string) (w : string) : bool :=
  bool_decide (w ∈ set).

(** [/[^\w\s']/g] *)
Definition notWordSpaceQuote : regex :=
  Cls (fun c => negb (Js.isWord c || Js.isSpace c || Ascii.eqb c "'")).

Definition words (text : string) : list string :=
  split false Textrank.spaces
    (replaceAll false notWordSpaceQuote "" (Js.toLowerCase text)).

(** The variables of the scanning loop. *)
Record scan : Type := Scan { score : Z; wordCount : Z; negated : bool }.

Definition scanStart : scan := Scan 0 0 false.

(** The body of [for (const word of words)]. *)
Definition scanWord (st : scan) (word : string) : scan :=
  if has NEGATION_WORDS word then
    Scan (score st) (wordCount st) true
  else if has POSITIVE_WORDS word then
    Scan (score st + (if negated st then -1 else 1)) (wordCount st + 1) false
  else if has NEGATIVE_WORDS word then
    Scan (score st + (if negated st then 1 else -1)) (wordCount st + 1) false
  else
    Scan (score st) (wordCount st) false.

Definition scanWords (ws : list string) : scan := fold_left scanWord ws scanStart.

Definition normalize (st : scan) : Q :=
  if (wordCount st =? 0)%Z then 0%Q
  else Qmax (-1) (Qmin 1 (inject_Z (score st) /
                          inject_Z (Z.max (wordCount st) 1)))%Q.

Definition analyzeSentiment (text : string) : Q :=
  normalize (scanWords (words text)).

Definition analyzeSentimentBatch (segments : list string) : list Q :=
  List.map analyzeSentiment segments.

End Sentiment.

(* ================================================================== *)
(** * types/models.ts *)
(* ================================================================== *)

Module Models.

Inductive SegmentSource : Type := voice | typed.

Record NoteSegment : Type := {
  seg_id : string;
  seg_noteId : string;
  source : SegmentSource;
  text : string;
  startMs : Z;
  endMs : Z
}.

Record ActionItem : Type := {
  owner : string;
  task : string;
  due : option string
}.

Inductive FlashcardType : Type := qa | cloze | term_def | def_term.

Record Flashcard : Type := {
  id : string;
  noteId : string;
  type : FlashcardType;
  front : string;
  back : string;
  tags : list string;
  difficulty : Z;
  interval : Z;
  repetitions : Z;
  easiness : Q;
  nextReviewAt : Z;
  createdAt : Z;
  updatedAt : Z
}.

Inductive AIProvider : Type := offline | gemini.

Record Summary : Type := {
  s_id : string;
  s_noteId : string;
  tldr : list string;
  keyPoints : list string;
  decisions : list string;
  actionItems : list ActionItem;
  openQuestions : list string;
  topics : list string;
  highlights : list string;
  followUps : list string;
  sentimentBySegment : option (list Q);    (* sentimentBySegment?: number[] *)
  s_createdAt : Z;
  provider : AIProvider
}.

End Models.

(* ================================================================== *)
(** * services/nlp/srs.ts *)
(* ================================================================== *)

Module Srs.
Import Models.
Local Open Scope Q_scope.

Definition MS_PER_DAY : Z := 86400000.
Definition MIN_EASINESS : Q := 13 # 10.

Record SRSUpdate : Type := {
  u_id : string;
  u_difficulty : Z;
  u_interval : Z;
  u_repetitions : Z;
  u_easiness : Q;
  u_nextReviewAt : Z;
  u_updatedAt : Z
}.

(** [Math.round]: the integer nearest to [x], a half going up. *)
Definition round (x : Q) : Z := Qfloor (x + (1 # 2)).

(** The change of the easiness factor for a rating. *)
Definition easinessDelta (rating : Z) : Q :=
  (1 # 10) - inject_Z (5 - rating) *
             ((8 # 100) + inject_Z (5 - rating) * (2 # 100)).

(** [now] is the value of [Date.now()]. *)
Definition computeSRS (now : Z) (card : Flashcard) (rating : Z) : SRSUpdate :=
  let easiness0 := easiness card + easinessDelta rating in
  let easiness1 :=
    if Qlt_le_dec easiness0 MIN_EASINESS then MIN_EASINESS else easiness0 in
  let '(repetitions1, interval1) :=
    if (rating <? 3)%Z then (0, 0)%Z
    else
      let reps := (repetitions card + 1)%Z in
      (reps,
       if (reps =? 1)%Z then 1%Z
       else if (reps =? 2)%Z then 6%Z
       else round (inject_Z (interval card) * easiness1)) in
  let difficulty1 := Z.max 1 (Z.min 5 (5 - rating + 1)) in
  let nextReviewAt1 := (now + interval1 * MS_PER_DAY)%Z in
  {| u_id := id card;
     u_difficulty := difficulty1;
     u_interval := interval1;
     u_repetitions := repetitions1;
     u_easiness := inject_Z (round (easiness1 * 100)) / 100;
     u_nextReviewAt := nextReviewAt1;
     u_updatedAt := now |}.

Definition filterDueCards (cards : list Flashcard) (now : Z) : list Flashcard :=
  List.filter (fun c => (nextReviewAt c <=? now)%Z) cards.

End Srs.

(* ================================================================== *)
(** * utils/text.ts *)
(* ================================================================== *)

Module Text.
Import Regex.

Definition len (s : string) : Z := Z.of_nat (String.length s).

(** The [for (const sentence of sentences)] loop of [chunkText] and the
    final push; [chunks] and [current] are the loop's variables. *)
Fixpoint chunkLoop (maxChars : Z) (sentences : list string)
    (chunks : list string) (current : string) : list string :=
  match sentences with
  | [] =>
      if Js.isEmpty (Js.trim current) then chunks
      else chunks ++ [Js.trim current]
  | sentence :: sentences' =>
      let '(chunks1, current1) :=
        if (len current + len sentence + 1 >? maxChars)%Z
           && (len current >? 0)%Z
        then (chunks ++ [Js.trim current], EmptyString)
        else (chunks, current) in
      chunkLoop maxChars sentences' chunks1
        (current1 +:+ (if Js.isEmpty current1 then "" else " ") +:+ sentence)
  end.

Definition chunkText (text : string) (maxChars : Z) : list string :=
  if (len text <=? maxChars)%Z then [text]
  else chunkLoop maxChars (split false Textrank.sentenceBreak text) [] "".

End Text.

(* ================================================================== *)
(** * services/ai/AiProvider.ts *)
(* ================================================================== *)

Module AiProvider.

Record AiSummaryResult : Type := {
  tldr : list string;
  keyPoints : list string;
  decisions : list string;
  actionItems : list Models.ActionItem;
  openQuestions : list string;
  topics : list string;
  highlights : list string;
  followUps : list string;
  sentimentBySegment : option (list Q)     (* sentimentBySegment?: number[] *)
}.

(** [Flashcard] without its identity and scheduling fields. *)
Record AiFlashcardResult : Type := {
  type : Models.FlashcardType;
  front : string;
  back : string;
  tags : list string
}.

End AiProvider.

(* ================================================================== *)
(** * services/nlp/localSummarizer.ts *)
(* ================================================================== *)

Module LocalSummarizer.
Import Regex Models.

Definition ws1 : regex := Plus (Cls Js.isSpace).                 (* \s+ *)
Definition ws0 : regex := Star (Cls Js.isSpace).                 (* \s* *)
Definition colonOrSpace : regex :=                               (* [:\s]+ *)
  Plus (Cls (fun c => Ascii.eqb c ":" || Js.isSpace c)).
Definition rest1 : regex := Group (Plus Dot).                    (* (.+) *)
Definition digit : regex := Cls Js.isDigit.                      (* \d *)
(** [(?:i|we|he|she|they|you)] *)
Definition pronoun : regex :=
  alts [lit "i"; lit "we"; lit "he"; lit "she"; lit "they"; lit "you"].

(** The patterns carry the i flag: they are run with [icase = true]. *)
Definition DECISION_CUES : list regex :=
  [ lit "we decided";
    lit "it was decided";
    lit "the decision is";
    lit "we agreed";
    lit "agreed to";
    lit "will go with";
    lit "final decision";
    lit "conclusion is";
    lit "we'll proceed";
    lit "approved";
    lit "let's go ahead" ].

Definition ACTION_CUES : list regex :=
  [ seqs [pronoun; ws1; lit "will"; ws1; rest1];
    seqs [pronoun; ws1; lit "need"; ws1; lit "to"; ws1; rest1];
    seqs [lit "please"; ws1; rest1];
    seqs [lit "action"; ws0; lit "item"; colonOrSpace; rest1];
    seqs [lit "todo"; colonOrSpace; rest1];
    seqs [pronoun; ws1; lit "should"; ws1; rest1];
    seqs [lit "make sure"; ws1; rest1];
    seqs [lit "follow"; ws1; lit "up"; ws1; alts [lit "on"; lit "with"];
          ws1; rest1] ].

Definition QUESTION_STARTERS : list string :=
  [ "Who is responsible for";
    "When will";
    "What is the timeline for";
    "Why was";
    "How will we handle";
    "What are the next steps for";
    "Who will follow up on";
    "What is the status of" ].

(** [/^([\w]+)\s+(?:will|need|should)/i] *)
Definition subjectPattern : regex :=
  seqs [Bol; Group (Plus (Cls Js.isWord)); ws1;
        alts [lit "will"; lit "need"; lit "should"]].

(** [/by\s+(monday|...|sunday|tomorrow|next\s+week|end\s+of\s+(?:day|week|month)|\d{1,2}\/\d{1,2}(?:\/\d{2,4})?)/i] *)
Definition datePattern : regex :=
  seqs [lit "by"; ws1;
        Group (alts
          [ lit "monday"; lit "tuesday"; lit "wednesday"; lit "thursday";
            lit "friday"; lit "saturday"; lit "sunday"; lit "tomorrow";
            seqs [lit "next"; ws1; lit "week"];
            seqs [lit "end"; ws1; lit "of"; ws1;
                  alts [lit "day"; lit "week"; lit "month"]];
            seqs [Rep 1 2 digit; Chr "/"; Rep 1 2 digit;
                  Opt (seqs [Chr "/"; Rep 2 4 digit])] ])].

(** The owner and the due date that [extractActionItems] reads off a
    sentence once a cue has given a task. *)
Definition ownerOf (sentence userName : string) : string :=
  match exec true subjectPattern sentence with
  | Some (_, Some subject) =>
      let lower := Js.toLowerCase subject in
      if String.eqb lower "i" || String.eqb lower "we" then userName
      else subject
  | _ => userName
  end.

Definition dueOf (sentence : string) : option string :=
  match exec true datePattern sentence with
  | Some (_, group1) => group1
  | None => None
  end.

(** [for (const cue of ACTION_CUES)]: a cue whose task is too short or
    already seen is passed over ([continue]); the first other match
    makes the item and ends the loop ([break]). *)
Fixpoint tryCues (cues : list regex) (sentence userName : string)
    (seen : gset string) : option (ActionItem * gset string) :=
  match cues with
  | [] => None
  | cue :: cues' =>
      match exec true cue sentence with
      | Some (_, group1) =>
          let trimmed := Js.trim (default "" group1) in
          let task := if Js.isEmpty trimmed then Js.trim sentence else trimmed in
          if (String.length task <? 5)
             || bool_decide (Js.toLowerCase task ∈ seen)
          then tryCues cues' sentence userName seen
          else
            Some ({| owner := ownerOf sentence userName;
                     task := task;
                     due := dueOf sentence |},
                  {[ Js.toLowerCase task ]} ∪ seen)
      | None => tryCues cues' sentence userName seen
      end
  end.

(** [for (const sentence of sentences)] *)
Fixpoint actionLoop (sentences : list string) (userName : string)
    (items : list ActionItem) (seen : gset string) : list ActionItem :=
  match sentences with
  | [] => items
  | sentence :: sentences' =>
      match tryCues ACTION_CUES sentence userName seen with
      | Some (item, seen') =>
          actionLoop sentences' userName (items ++ [item]) seen'
      | None => actionLoop sentences' userName items seen
      end
  end.

Definition extractActionItems (sentences : list string) (userName : string)
    : list ActionItem :=
  actionLoop sentences userName [] ∅.

Definition matchesDecisionCue (s : string) : bool :=
  existsb (fun cue => test true cue s) DECISION_CUES.

Definition extractDecisions (sentences : list string) : list string :=
  take 10 (List.map Js.trim (List.filter matchesDecisionCue sentences)).

Definition extractOpenQuestions (sentences : list string) : list string :=
  take 10 (List.filter (fun s => Js.endsWith "?" (Js.trim s)) sentences).

(** [Math.floor(Math.random() * QUESTION_STARTERS.length)] at the [k]-th
    topic is [random k mod 8].  The [while] loop moves on from a used
    starter; it leaves after at most 7 moves, so 8 is fuel enough. *)
Fixpoint probe (fuel idx : nat) (usedStarters : gset nat) : nat :=
  match fuel with
  | O => idx
  | S fuel' =>
      if bool_decide (idx ∈ usedStarters)
         && (size usedStarters <? length QUESTION_STARTERS)
      then probe fuel' ((idx + 1) mod length QUESTION_STARTERS) usedStarters
      else idx
  end.

Fixpoint followUpLoop (random : nat -> nat) (k : nat) (topics : list string)
    (followUps : list string) (usedStarters : gset nat) : list string :=
  match topics with
  | [] => followUps
  | topic :: topics' =>
      let idx :=
        probe (length QUESTION_STARTERS)
          (random k mod length QUESTION_STARTERS) usedStarters in
      followUpLoop random (S k) topics'
        (followUps ++ [nth idx QUESTION_STARTERS "" +:+ " " +:+ topic +:+ "?"])
        ({[ idx ]} ∪ usedStarters)
  end.

Definition generateFollowUps (random : nat -> nat) (topics : list string)
    : list string :=
  take 5 (followUpLoop random 0 (take 5 topics) [] ∅).

(** [(a, b) => a - b] *)
Definition ascending (a b : nat) : bool := a <=? b.

Definition at_ (sentences : list string) (i : nat) : string :=
  nth i sentences "".

Section WithSqrt.
Variable sqrt : Q -> Q.

Definition extractHighlights (sentences : list string) : list string :=
  if length sentences =? 0 then []
  else
    let topIndices :=
      Textrank.textRank sqrt sentences (Nat.min 10 (length sentences)) in
    List.filter (fun s => 20 <? String.length s)
      (List.map (at_ sentences) (Js.sort ascending topIndices)).

Definition extractTopics (text : string) : list string :=
  let keywords := Textrank.extractKeywords text 20 in
  let topics := take 10 (List.filter (fun kw => 3 <? String.length kw) keywords) in
  List.map Js.capitalize topics.

(** [newId] is what [generateId()] returns and [now] what [Date.now()]
    returns. *)
Definition summarize (random : nat -> nat) (newId : string) (now : Z)
    (noteId : string) (segments : list NoteSegment) (userName : string)
    : Summary :=
  let fullText := Js.join ". " (List.map text segments) in
  let sentences := Textrank.splitSentences fullText in
  let topIndices :=
    Textrank.textRank sqrt sentences (Nat.min 5 (length sentences)) in
  let tldr := List.map (at_ sentences) (Js.sort ascending topIndices) in
  let keyPointIndices :=
    Textrank.textRank sqrt sentences (Nat.min 10 (length sentences)) in
  let keyPoints := List.map (at_ sentences) (Js.sort ascending keyPointIndices) in
  let decisions := extractDecisions sentences in
  let actionItems := extractActionItems sentences userName in
  let openQuestions := extractOpenQuestions sentences in
  let topics := extractTopics fullText in
  let highlights := extractHighlights sentences in
  let followUps := generateFollowUps random topics in
  let segmentTexts := List.map text segments in
  let sentimentBySegment := Sentiment.analyzeSentimentBatch segmentTexts in
  {| s_id := newId;
     s_noteId := noteId;
     tldr := tldr;
     keyPoints := keyPoints;
     decisions := decisions;
     actionItems := actionItems;
     openQuestions := openQuestions;
     topics := topics;
     highlights := highlights;
     followUps := followUps;
     sentimentBySegment := Some sentimentBySegment;
     s_createdAt := now;
     provider := offline |}.

End WithSqrt.

End LocalSummarizer.

(* ================================================================== *)
(** * services/ai/offline/OfflineProvider.ts *)
(* ================================================================== *)

Module OfflineProvider.
Import Regex Models.

(** The cue tables are mirrored from localSummarizer, pattern by
    pattern, and [extractActionItems], [extractTopics] and
    [generateFollowUps] are the same functions as there. *)
Definition DECISION_CUES : list regex := LocalSummarizer.DECISION_CUES.
Definition ACTION_CUES : list regex := LocalSummarizer.ACTION_CUES.
Definition QUESTION_STARTERS : list string := LocalSummarizer.QUESTION_STARTERS.

Definition extractDecisions (sentences : list string) : list string :=
  take 10
    (List.filter (fun s => existsb (fun cue => test true cue s) DECISION_CUES)
       sentences).

Definition extractActionItems (sentences : list string) (userName : string)
    : list ActionItem :=
  LocalSummarizer.actionLoop sentences userName [] ∅.

Definition extractTopics (text : string) : list string :=
  List.map Js.capitalize
    (take 10
       (List.filter (fun kw => 3 <? String.length kw)
          (Textrank.extractKeywords text 20))).

Definition generateFollowUps (random : nat -> nat) (topics : list string)
    : list string :=
  take 5 (LocalSummarizer.followUpLoop random 0 (take 5 topics) [] ∅).

(** [/\.\s+/] *)
Definition dotSpaces : regex := Seq (Chr ".") (Plus (Cls Js.isSpace)).

(** [new RegExp(`\\b${escapeRegex(keyword)}\\b`, "gi")]: [escapeRegex]
    makes every character of the keyword stand for itself. *)
Definition wholeWord (keyword : string) : regex :=
  seqs [WordB; lit keyword; WordB].

Definition ascending : nat -> nat -> bool := LocalSummarizer.ascending.
Definition at_ : list string -> nat -> string := LocalSummarizer.at_.

Section WithSqrt.
Variable sqrt : Q -> Q.

Definition summarize (random : nat -> nat) (transcript userName : string)
    : AiProvider.AiSummaryResult :=
  let sentences := Textrank.splitSentences transcript in
  let topIndices :=
    Textrank.textRank sqrt sentences (Nat.min 5 (length sentences)) in
  let tldr := List.map (at_ sentences) (Js.sort ascending topIndices) in
  let keyPointIndices :=
    Textrank.textRank sqrt sentences (Nat.min 10 (length sentences)) in
  let keyPoints := List.map (at_ sentences) (Js.sort ascending keyPointIndices) in
  let decisions := extractDecisions sentences in
  let actionItems := extractActionItems sentences userName in
  let openQuestions :=
    take 10 (List.filter (fun s => Js.endsWith "?" (Js.trim s)) sentences) in
  let topics := extractTopics transcript in
  let highlightIndices :=
    Textrank.textRank sqrt sentences (Nat.min 10 (length sentences)) in
  let highlights :=
    List.filter (fun s => 20 <? String.length s)
      (List.map (at_ sentences) (Js.sort ascending highlightIndices)) in
  let followUps := generateFollowUps random topics in
  let segmentTexts :=
    List.filter (fun s => negb (Js.isEmpty s)) (split false dotSpaces transcript) in
  let sentimentBySegment := Sentiment.analyzeSentimentBatch segmentTexts in
  {| AiProvider.tldr := tldr;
     AiProvider.keyPoints := keyPoints;
     AiProvider.decisions := decisions;
     AiProvider.actionItems := actionItems;
     AiProvider.openQuestions := openQuestions;
     AiProvider.topics := topics;
     AiProvider.highlights := highlights;
     AiProvider.followUps := followUps;
     AiProvider.sentimentBySegment := Some sentimentBySegment |}.

End WithSqrt.

(** [generateTitle]: nothing in its [try] block can throw on a string,
    so the [catch] branch is never taken. *)
Definition generateTitle (transcript : string) : string :=
  let keywords := Textrank.extractKeywords (Js.sliceTo 2000 transcript) 5 in
  if length keywords =? 0 then ""
  else
    let meaningful :=
      take 4 (List.filter (fun k => 3 <? String.length k) keywords) in
    let words := if 0 <? length meaningful then meaningful else take 3 keywords in
    Js.join " " (List.map Js.capitalize words).

Definition mkCard (type : FlashcardType) (front back : string)
    (tags : list string) : AiProvider.AiFlashcardResult :=
  {| AiProvider.type := type; AiProvider.front := front;
     AiProvider.back := back; AiProvider.tags := tags |}.

Definition qaCard (topics : list string) (point : string)
    : AiProvider.AiFlashcardResult :=
  let tokens := split false Textrank.spaces point in
  let question :=
    if 3 <? length tokens
    then "What is the key point about: " +:+ Js.dquote +:+
         Js.join " " (take 5 tokens) +:+ "..." +:+ Js.dquote +:+ "?"
    else "Explain: " +:+ point in
  mkCard qa question point (take 3 topics).

(** The body of the cloze loop: the card a sentence gives, if any. *)
Definition clozeCard (topics : list string) (sentence : string)
    : option AiProvider.AiFlashcardResult :=
  match Textrank.extractKeywords sentence 3 with
  | [] => None
  | keyword :: _ =>
      let regex := wholeWord keyword in
      if negb (test true regex sentence) then None
      else Some (mkCard cloze (replaceAll true regex "[___]" sentence)
                   keyword (take 3 topics))
  end.

(** [keyPoints.find(kp => kp.toLowerCase().includes(topic.toLowerCase()))] *)
Definition relatedTo (keyPoints : list string) (topic : string)
    : option string :=
  List.find
    (fun kp => Js.includes (Js.toLowerCase topic) (Js.toLowerCase kp))
    keyPoints.

(** A found key point that is the empty string is falsy: no card. *)
Definition termDefCards (keyPoints : list string) (topic : string)
    : list AiProvider.AiFlashcardResult :=
  match relatedTo keyPoints topic with
  | Some related =>
      if Js.isEmpty related then []
      else [ mkCard term_def ("Define: " +:+ topic) related [topic];
             mkCard def_term related topic [topic] ]
  | None => []
  end.

Definition dueSuffix (due : option string) : string :=
  match due with
  | Some d => if Js.isEmpty d then "" else " (due: " +:+ d +:+ ")"
  | None => ""
  end.

Definition actionCard (item : ActionItem) : AiProvider.AiFlashcardResult :=
  mkCard qa ("What action item was assigned to " +:+ owner item +:+ "?")
    (task item +:+ dueSuffix (due item)) ["action-item"].

(** [c.front.toLowerCase().trim()] *)
Definition key (c : AiProvider.AiFlashcardResult) : string :=
  Js.trim (Js.toLowerCase (AiProvider.front c)).

(** [cards.filter(c => ...)] with its [seen] set. *)
Definition dedupe (cards : list AiProvider.AiFlashcardResult)
    (seen : gset string) : list AiProvider.AiFlashcardResult :=
  Js.filterUnseen key cards seen.

(** The cards pushed before the deduplication, in order. *)
Definition allCards (transcript : string)
    (summary : option AiProvider.AiSummaryResult)
    : list AiProvider.AiFlashcardResult :=
  let topics :=
    match summary with
    | Some s => AiProvider.topics s
    | None => extractTopics transcript
    end in
  let keyPoints :=
    match summary with Some s => AiProvider.keyPoints s | None => [] end in
  let highlights :=
    match summary with Some s => AiProvider.highlights s | None => [] end in
  let clozeSource := highlights ++ keyPoints in
  List.map (qaCard topics) keyPoints
  ++ omap (clozeCard topics) clozeSource
  ++ concat (List.map (termDefCards keyPoints) topics)
  ++ match summary with
     | Some s => List.map actionCard (AiProvider.actionItems s)
     | None => []
     end.

Definition generateFlashcards (transcript : string)
    (summary : option AiProvider.AiSummaryResult)
    : list AiProvider.AiFlashcardResult :=
  dedupe (allCards transcript summary) ∅.

End OfflineProvider.

(* ================================================================== *)
(** * services/nlp/flashcardGenerator.ts *)
(* ================================================================== *)

Module FlashcardGenerator.
Import Regex Models.

(** [generateId()] and [Date.now()] at the [k]-th call of [makeCard]. *)
Record Env : Type := { uuid : nat -> string; clock : nat -> Z }.

Section WithEnv.
Variable env : Env.

Definition makeCard (k : nat) (noteId : string) (type : FlashcardType)
    (front back : string) (tags : list string) : Flashcard :=
  let now := clock env k in
  {| id := uuid env k;
     noteId := noteId;
     type := type;
     front := front;
     back := back;
     tags := tags;
     difficulty := 3;
     interval := 0;
     repetitions := 0;
     easiness := 25 # 10;
     nextReviewAt := now;
     createdAt := now;
     updatedAt := now |}.

(** [/^[A-Z]/] *)
Definition startsUpper : regex := Seq Bol (Cls Js.isUpperAZ).

Definition question (point : string) : string :=
  if test false startsUpper point then
    let tokens := split false Textrank.spaces point in
    if 3 <? length tokens
    then "What is the key point about: " +:+ Js.dquote +:+
         Js.join " " (take 5 tokens) +:+ "..." +:+ Js.dquote +:+ "?"
    else "Explain: " +:+ point
  else point.

(** Each generator starts at the count [k] of the cards made so far and
    returns its cards with the new count. *)
Definition generateQACards (k : nat) (noteId : string)
    (keyPoints topics : list string) : list Flashcard * nat :=
  (imap (fun i point =>
           makeCard (k + i) noteId qa (question point) point (take 3 topics))
        keyPoints,
   k + length keyPoints).

Fixpoint clozeLoop (k : nat) (noteId : string) (sentences topics : list string)
    (cards : list Flashcard) : list Flashcard * nat :=
  match sentences with
  | [] => (cards, k)
  | sentence :: sentences' =>
      match Textrank.extractKeywords sentence 3 with
      | [] => clozeLoop k noteId sentences' topics cards
      | keyword :: _ =>
          let regex := OfflineProvider.wholeWord keyword in
          if negb (test true regex sentence)
          then clozeLoop k noteId sentences' topics cards
          else
            clozeLoop (S k) noteId sentences' topics
              (cards ++ [makeCard k noteId cloze
                           (replaceAll true regex "[___]" sentence)
                           keyword (take 3 topics)])
      end
  end.

Definition generateClozeCards (k : nat) (noteId : string)
    (sentences topics : list string) : list Flashcard * nat :=
  let '(cards, k') := clozeLoop k noteId sentences topics [] in
  (take 10 cards, k').

Fixpoint termDefLoop (k : nat) (noteId : string) (keyPoints topics : list string)
    (cards : list Flashcard) : list Flashcard * nat :=
  match topics with
  | [] => (cards, k)
  | topic :: topics' =>
      match OfflineProvider.relatedTo keyPoints topic with
      | Some related =>
          if Js.isEmpty related
          then termDefLoop k noteId keyPoints topics' cards
          else
            termDefLoop (S (S k)) noteId keyPoints topics'
              (cards ++
               [ makeCard k noteId term_def ("Define: " +:+ topic) related [topic];
                 makeCard (S k) noteId def_term related topic [topic] ])
      | None => termDefLoop k noteId keyPoints topics' cards
      end
  end.

Definition generateTermDefCards (k : nat) (noteId : string)
    (keyPoints topics : list string) : list Flashcard * nat :=
  let '(cards, k') := termDefLoop k noteId keyPoints topics [] in
  (take 10 cards, k').

Definition actionCards (k : nat) (noteId : string) (items : list ActionItem)
    : list Flashcard :=
  imap (fun i item =>
          makeCard (k + i) noteId qa
            ("What action item was assigned to " +:+ owner item +:+ "?")
            (task item +:+ OfflineProvider.dueSuffix (due item))
            ["action-item"])
       items.

(** [card.front.toLowerCase().trim()] *)
Definition key (card : Flashcard) : string :=
  Js.trim (Js.toLowerCase (front card)).

(** [allCards.filter(card => ...)] with its [seen] set. *)
Definition dedupe (cards : list Flashcard) (seen : gset string)
    : list Flashcard :=
  Js.filterUnseen key cards seen.

(** [allCards] as it stands before the deduplication. *)
Definition allCards (noteId : string) (summary : Summary)
    : list Flashcard :=
  let '(qaCards, k1) :=
    generateQACards 0 noteId (keyPoints summary) (topics summary) in
  let clozeSource := highlights summary ++ keyPoints summary in
  let '(clozeCards, k2) :=
    generateClozeCards k1 noteId clozeSource (topics summary) in
  let '(termCards, k3) :=
    generateTermDefCards k2 noteId (keyPoints summary) (topics summary) in
  qaCards ++ clozeCards ++ termCards
  ++ actionCards k3 noteId (actionItems summary).

Definition generateFlashcards (noteId : string) (summary : Summary)
    (segments : list NoteSegment) : list Flashcard :=
  dedupe (allCards noteId summary) ∅.

End WithEnv.

End FlashcardGenerator.

(* ================================================================== *)
(** * services/ai/gemini/GeminiProvider.ts *)
(* ================================================================== *)

Module GeminiProvider.
Import Models.






End GeminiProvider.

(* ================================================================== *)
(** * store/useFlashcardsStore.ts *)
(* ================================================================== *)

Module FlashcardsStore.
Import Models.

Record StudySession : Type := {
  session_noteId : option string;
  cards : list Flashcard;
  currentIndex : nat;
  showAnswer : bool
}.

Record State : Type := {
  st_cards : list Flashcard;
  dueCount : nat;
  studySession : option StudySession;
  isLoading : bool
}.

Definition setSession (session : option StudySession) (s : State) : State :=
  {| st_cards := st_cards s; dueCount := dueCount s;
     studySession := session; isLoading := isLoading s |}.


(** The repository stays outside: what a query resolves to is an
    argument of the action, and the rows it is asked to update are
    returned in the order of the calls. *)





Definition endStudy (s : State) : State := setSession None s.

End FlashcardsStore.

(* ================================================================== *)
(** * Definitions used to state the properties *)
(* ================================================================== *)

Module Props.
Import Models.

(** ** Sentiment: the contribution of a token, in the words of the
    specification.  A token is first a negation word or not; a token
    that is not one is a sentiment word when a lexicon holds it. *)

Definition isNegation (w : string) : bool :=
  Sentiment.has Sentiment.NEGATION_WORDS w.

Definition isPositive (w : string) : bool :=
  negb (isNegation w) && Sentiment.has Sentiment.POSITIVE_WORDS w.

Definition isNegative (w : string) : bool :=
  negb (isNegation w) && Sentiment.has Sentiment.NEGATIVE_WORDS w.

Definition isSentimentWord (w : string) : bool := isPositive w || isNegative w.

(** What the token [w] adds to the score when [afterNegation] tells
    whether the token just before it is a negation word. *)
Definition contribution (afterNegation : bool) (w : string) : Z :=
  if isPositive w then (if afterNegation then -1 else 1)%Z
  else if isNegative w then (if afterNegation then 1 else -1)%Z
  else 0%Z.

Fixpoint totalFrom (afterNegation : bool) (ws : list string) : Z :=
  match ws with
  | [] => 0%Z
  | w :: ws' => (contribution afterNegation w + totalFrom (isNegation w) ws')%Z
  end.

Definition countOf (ws : list string) : Z :=
  Z.of_nat (length (List.filter isSentimentWord ws)).

(** ** Summaries: the sentences that the ranker picks among the first
    [top], put back in reading order. *)
Definition ranked (sqrt : Q -> Q) (top : nat) (sentences : list string)
    : list string :=
  List.map (LocalSummarizer.at_ sentences)
    (Js.sort LocalSummarizer.ascending
       (Textrank.textRank sqrt sentences (Nat.min top (length sentences)))).

(** The list that [textRank] cuts its answer from when it has to rank:
    every sentence index, best score first. *)
Definition rankingOf (sqrt : Q -> Q) (sentences : list string) : list nat :=
  let n := length sentences in
  let freqs := List.map Textrank.wordFrequency (List.map Textrank.tokenize sentences) in
  let scores :=
    Textrank.pageRank Textrank.maxIter n (Textrank.adjacency sqrt freqs)
      (repeat (1 / inject_Z (Z.of_nat n))%Q n) in
  List.map snd (Js.sort Textrank.byScoreDesc (combine scores (seq 0 n))).






(** ** Chunking: the characters of a text that are not white space, in
    order, and the text that [chunkText] builds from a run of sentences
    (they are joined by single spaces). *)
Fixpoint nonSpace (s : string) : list ascii :=
  match s with
  | EmptyString => []
  | String c s' => if Js.isSpace c then nonSpace s' else c :: nonSpace s'
  end.

Definition content (l : list string) : list ascii :=
  concat (List.map nonSpace l).

Definition glue (group : list string) : string :=
  fold_left
    (fun current sentence =>
       current +:+ (if Js.isEmpty current then "" else " ") +:+ sentence)
    group "".

(** A separator pattern that only ever matches white space. *)
Definition spaceOnly (r : Regex.regex) : Prop :=
  forall cur cur' cap,
    Regex.matchAt false r cur = Some (cur', cap) ->
    nonSpace (Regex.rest cur) = nonSpace (Regex.rest cur').

(** What the specification asks of one chunk of [chunkText]: it is the
    trimmed text of a run of consecutive sentences, and it fits in
    [maxChars] unless the run is a single sentence longer than that. *)
Definition goodChunk (sentences : list string) (maxChars : Z)
    (chunk : string) : Prop :=
  exists before group after,
    sentences = before ++ group ++ after /\
    group <> [] /\
    chunk = Js.trim (glue group) /\
    ((Text.len chunk <= maxChars)%Z \/
     exists s, group = [s] /\ (maxChars < Text.len s)%Z).

(** ** Scheduling: the easiness factor after the floor at 1.3 and
    before the final rounding, in the words of the specification. *)
Definition flooredEasiness (card : Flashcard) (rating : Z) : Q :=
  Qmax Srs.MIN_EASINESS
    (easiness card +
     ((1 # 10) - inject_Z (5 - rating) *
                 ((8 # 100) + inject_Z (5 - rating) * (2 # 100))))%Q.

End Props.

(* ================================================================== *)
(** * Sample data for the examples *)
(* ================================================================== *)

Module Sample.
Import Models.

(** A stand-in for [Math.sqrt], exact to six decimals. *)
Definition sqrt (x : Q) : Q :=
  (inject_Z (Z.sqrt (Qfloor (x * 1000000 * 1000000))) / 1000000)%Q.

(** A stand-in for the draws of [Math.random]. *)
Definition random (k : nat) : nat := 3 * k + 1.

(** The transcript of the end-to-end scenario, and its third sentence. *)
Definition scenario : string :=
  "Revenue grew by 15% last quarter. We decided to move forward with the new platform. Alice will prepare the Q2 budget report by Friday. When will the new hire start?".

Definition aliceSentence : string :=
  "Alice will prepare the Q2 budget report by Friday.".

(** The transcript of offlineProvider.test.ts. *)
Definition testTranscript : string :=
  "Revenue grew by 15% last quarter. Customer satisfaction improved. "
  +:+ "We decided to move forward with the new platform. "
  +:+ "Alice will prepare the Q2 budget report by Friday. "
  +:+ "When will the new hire start? "
  +:+ "Engineering team should adopt the new CI pipeline.".

(** A text of 100 characters without a sentence boundary. *)
Definition x100 : string :=
  "xxxxxxxxxxxxxxxxxxxxxxxxxxxxxxxxxxxxxxxxxxxxxxxxxxxxxxxxxxxxxxxxxxxxxxxxxxxxxxxxxxxxxxxxxxxxxxxxxxxx".

(** The card and the summary that the repository's tests build. *)
Definition testCard (reps ivl : Z) (e : Q) : Flashcard :=
  {| id := "card-1"; noteId := "note-1"; type := qa;
     front := "Question?"; back := "Answer."; tags := [];
     difficulty := 3; interval := ivl; repetitions := reps; easiness := e;
     nextReviewAt := 0; createdAt := 0; updatedAt := 0 |}.

Definition testSummary : Summary :=
  {| s_id := "sum-1"; s_noteId := "note-1";
     tldr := ["Meeting discussed quarterly results and next steps."];
     keyPoints :=
       [ "Revenue grew by 15% in the last quarter.";
         "Customer satisfaction scores improved significantly.";
         "Engineering team will adopt the new CI pipeline." ];
     decisions := ["We decided to move forward with the new platform."];
     actionItems :=
       [ {| owner := "Alice"; task := "Prepare the Q2 budget report";
            due := Some "Friday" |} ];
     openQuestions := ["When will the new hire start?"];
     topics := ["Revenue"; "Engineering"; "Pipeline"];
     highlights :=
       [ "Revenue grew by 15% in the last quarter.";
         "Customer satisfaction scores improved significantly." ];
     followUps := ["What is the timeline for Pipeline?"];
     sentimentBySegment := Some [1 # 2; -1 # 10]%Q;
     s_createdAt := 0; provider := offline |}.

Definition testEnv : FlashcardGenerator.Env :=
  {| FlashcardGenerator.uuid := fun k => "test-" +:+ String (ascii_of_nat (48 + k)) "";
     FlashcardGenerator.clock := fun _ => 0%Z |}.

(** A summary whose two key points are the same sentence. *)
Definition repeated : AiProvider.AiSummaryResult :=
  {| AiProvider.tldr := [];
     AiProvider.keyPoints := ["Alpha beta."; "Alpha beta."];
     AiProvider.decisions := [];
     AiProvider.actionItems := [];
     AiProvider.openQuestions := [];
     AiProvider.topics := [];
     AiProvider.highlights := [];
     AiProvider.followUps := [];
     AiProvider.sentimentBySegment := None |}.

(** A sentence of exactly 20 characters. *)
Definition twenty : string := "Budget is now final.".


(** A card after its first successful review. *)
Definition card : Flashcard :=
  {| id := "card-1"; noteId := "note-1"; type := qa;
     front := "Question?"; back := "Answer."; tags := [];
     difficulty := 3; interval := 1; repetitions := 1; easiness := 25 # 10;
     nextReviewAt := 0; createdAt := 0; updatedAt := 0 |}.

End Sample.

(* ================================================================== *)
(** * The matcher *)
(* ================================================================== *)

Section MatcherFacts.
Import Regex.
Variable icase : bool.

(** The matcher uses its continuation only through its values. *)
Lemma starLoop_ext body
    (Hbody : forall cur cap k1 k2,
       (forall c p, k1 c p = k2 c p) -> body cur cap k1 = body cur cap k2)
    k1 k2 (Hk : forall c p, k1 c p = k2 c p) fuel : forall cur cap,
  starLoop body k1 fuel cur cap = starLoop body k2 fuel cur cap.
Proof.
  induction fuel as [|fuel IH]; intros cur cap; cbn [starLoop]; [apply Hk|].
  rewrite (Hbody cur cap _
             (fun cur' cap' =>
                if remaining cur' <? remaining cur
                then starLoop body k2 fuel cur' cap' else None)).
  - rewrite Hk. reflexivity.
  - intros c p. destruct (remaining c <? remaining cur); [apply IH | reflexivity].
Qed.

Lemma step_ext p cur cap k1 k2 :
  (forall c q, k1 c q = k2 c q) -> step p cur cap k1 = step p cur cap k2.
Proof.
  intros Hk. unfold step. destruct (rest cur); [reflexivity|].
  destruct (p a); [apply Hk | reflexivity].
Qed.

Lemma run_ext r : forall cur cap k1 k2,
  (forall c p, k1 c p = k2 c p) -> run icase r cur cap k1 = run icase r cur cap k2.
Proof.
  induction r as [| c | p | | | | p | r1 IH1 r2 IH2 | r1 IH1 r2 IH2 | r IH | r IH];
    intros cur cap k1 k2 Hk; cbn [run].
  - apply Hk.
  - apply step_ext, Hk.
  - apply step_ext, Hk.
  - apply step_ext, Hk.
  - destruct (before cur); [reflexivity | apply Hk].
  - destruct (xorb (wordBefore cur) (wordAfter cur)); [apply Hk | reflexivity].
  - destruct (before cur) as [b|]; [|reflexivity].
    destruct (p b); [apply Hk | reflexivity].
  - apply IH1. intros c p. apply IH2. exact Hk.
  - rewrite (IH1 cur cap k1 k2 Hk), (IH2 cur cap k1 k2 Hk). reflexivity.
  - apply starLoop_ext; [exact IH | exact Hk].
  - apply IH. intros c p. apply Hk.
Qed.

Lemma starLoop_none body
    (Hbody : forall cur cap k,
       (forall c p, k c p = None) -> body cur cap k = None)
    k (Hk : forall c p, k c p = None) fuel : forall cur cap,
  starLoop body k fuel cur cap = None.
Proof.
  induction fuel as [|fuel IH]; intros cur cap; cbn [starLoop]; [apply Hk|].
  rewrite Hbody; [apply Hk|].
  intros c p. destruct (remaining c <? remaining cur); [apply IH | reflexivity].
Qed.

Lemma step_none p cur cap k :
  (forall c q, k c q = None) -> step p cur cap k = None.
Proof.
  intros Hk. unfold step. destruct (rest cur); [reflexivity|].
  destruct (p a); [apply Hk | reflexivity].
Qed.

(** A match is only ever reported by the continuation. *)
Lemma run_none r : forall cur cap k,
  (forall c p, k c p = None) -> run icase r cur cap k = None.
Proof.
  induction r as [| c | p | | | | p | r1 IH1 r2 IH2 | r1 IH1 r2 IH2 | r IH | r IH];
    intros cur cap k Hk; cbn [run].
  - apply Hk.
  - apply step_none, Hk.
  - apply step_none, Hk.
  - apply step_none, Hk.
  - destruct (before cur); [reflexivity | apply Hk].
  - destruct (xorb (wordBefore cur) (wordAfter cur)); [apply Hk | reflexivity].
  - destruct (before cur) as [b|]; [|reflexivity].
    destruct (p b); [apply Hk | reflexivity].
  - apply IH1. intros c p. apply IH2. exact Hk.
  - rewrite (IH1 cur cap k Hk). apply IH2. exact Hk.
  - apply starLoop_none; [exact IH | exact Hk].
  - apply IH. intros c p. apply Hk.
Qed.

(** The fuel of the greedy loop is enough: more of it changes nothing. *)
Lemma starLoop_more_fuel r k fuel : forall cur cap,
  remaining cur <= fuel ->
  starLoop (run icase r) k (S fuel) cur cap = starLoop (run icase r) k fuel cur cap.
Proof.
  induction fuel as [|fuel IH]; intros cur cap Hfuel.
  - cbn [starLoop]. rewrite run_none; [reflexivity|].
    intros c p. replace (remaining cur) with 0 by lia. reflexivity.
  - cbn [starLoop].
    rewrite (run_ext r cur cap _
               (fun cur' cap' =>
                  if remaining cur' <? remaining cur
                  then starLoop (run icase r) k fuel cur' cap' else None));
      [reflexivity|].
    intros c p. destruct (remaining c <? remaining cur) eqn:E; [|reflexivity].
    apply Nat.ltb_lt in E.
    change (starLoop (run icase r) k (S fuel) c p = starLoop (run icase r) k fuel c p).
    apply IH. lia.
Qed.

End MatcherFacts.

(* ================================================================== *)
(** * The embedding on the inputs of the repository's tests *)
(* ================================================================== *)

Section RegexExamples.
Import Regex LocalSummarizer.

Example cue_i_will :
  exec true (nth 0 ACTION_CUES Eps) "I will send the notes by Monday" =
  Some ("I will send the notes by Monday", Some "send the notes by Monday").
Proof. vm_compute. reflexivity. Qed.

Example cue_inside_a_word :
  exec true (nth 0 ACTION_CUES Eps) "Then they  will meet us." =
  Some ("they  will meet us.", Some "meet us.").
Proof. vm_compute. reflexivity. Qed.

Example cue_action_item :
  exec true (nth 3 ACTION_CUES Eps) "Action item: book the room" =
  Some ("Action item: book the room", Some "book the room").
Proof. vm_compute. reflexivity. Qed.

Example date_with_year :
  dueOf "Send it by 12/3/2025 please" = Some "12/3/2025".
Proof. vm_compute. reflexivity. Qed.

Example date_end_of_week :
  dueOf "We ship by end of  week." = Some "end of  week".
Proof. vm_compute. reflexivity. Qed.

Example owner_we_is_the_user : ownerOf "We will ship it." "TestUser" = "TestUser".
Proof. vm_compute. reflexivity. Qed.

Example split_on_spaces : split false Textrank.spaces " a  b " = [""; "a"; "b"; ""].
Proof. vm_compute. reflexivity. Qed.

Example split_empty : split false Textrank.spaces "" = [""].
Proof. vm_compute. reflexivity. Qed.

Example split_sentences :
  split false Textrank.sentenceBreak "Hi there.  How are you? Fine" =
  ["Hi there."; "How are you?"; "Fine"].
Proof. vm_compute. reflexivity. Qed.

Example cloze_whole_word :
  replaceAll true (OfflineProvider.wholeWord "revenue") "[___]"
    "Revenue grew; revenues fell, revenue rose." =
  "[___] grew; revenues fell, [___] rose.".
Proof. vm_compute. reflexivity. Qed.

Example short_fragments_dropped :
  Textrank.splitSentences "Ok. This one is long enough. No!" =
  ["This one is long enough."].
Proof. vm_compute. reflexivity. Qed.

End RegexExamples.

Section TestSuiteExamples.
Import Models Srs Sentiment.
Local Open Scope Q_scope.

Example srs_again_resets :
  let u := computeSRS 0 (Sample.testCard 3 15 (25 # 10)) 0 in
  u_repetitions u = 0%Z /\ u_interval u = 0%Z.
Proof. vm_compute. split; reflexivity. Qed.

Example srs_first_pass :
  let u := computeSRS 0 (Sample.testCard 0 0 (25 # 10)) 3 in
  u_repetitions u = 1%Z /\ u_interval u = 1%Z.
Proof. vm_compute. split; reflexivity. Qed.

Example srs_third_pass :
  let u := computeSRS 0 (Sample.testCard 2 6 (25 # 10)) 4 in
  u_repetitions u = 3%Z /\ u_interval u = 15%Z.
Proof. vm_compute. split; reflexivity. Qed.

Example srs_easiness_floor :
  u_easiness (computeSRS 0 (Sample.testCard 0 0 (13 # 10)) 0) == 13 # 10.
Proof. vm_compute. reflexivity. Qed.

Example srs_easiness_moves :
  25 # 10 < u_easiness (computeSRS 0 (Sample.testCard 0 0 (25 # 10)) 5) /\
  u_easiness (computeSRS 0 (Sample.testCard 0 0 (25 # 10)) 1) < 25 # 10.
Proof. vm_compute. split; reflexivity. Qed.

Example srs_difficulties :
  List.map (fun r => u_difficulty (computeSRS 0 (Sample.testCard 0 0 (25 # 10)) r))
    [5; 4; 3; 2; 1; 0]%Z = [1; 2; 3; 4; 5; 5]%Z.
Proof. vm_compute. reflexivity. Qed.

Example due_cards_include_now :
  List.map id (filterDueCards
     [ Sample.testCard 0 0 (25 # 10) ] 0) = ["card-1"].
Proof. vm_compute. reflexivity. Qed.

Example sentiment_positive :
  0 < analyzeSentiment "This is great and wonderful, I love it".
Proof. vm_compute. reflexivity. Qed.

Example sentiment_negative :
  analyzeSentiment "This is terrible and awful, I hate it" < 0.
Proof. vm_compute. reflexivity. Qed.

Example sentiment_not_good : analyzeSentiment "This is not good at all" < 0.
Proof. vm_compute. reflexivity. Qed.

Example sentiment_batch :
  analyzeSentimentBatch ["This is great"; "This is bad"; "Neutral text here"]
  = [1; -1; 0].
Proof. vm_compute. reflexivity. Qed.

Example chunk_empty_text : Text.chunkText "" 100 = [""].
Proof. vm_compute. reflexivity. Qed.

Example chunk_seven_sentences :
  Text.chunkText "A. B. C. D. E. F. G." 10 = ["A. B. C."; "D. E. F."; "G."].
Proof. vm_compute. reflexivity. Qed.

Example generator_action_card :
  List.map front
    (List.filter (fun c => bool_decide ("action-item" ∈ tags c))
       (FlashcardGenerator.generateFlashcards Sample.testEnv "note-1"
          Sample.testSummary []))
  = ["What action item was assigned to Alice?"].
Proof. vm_compute. reflexivity. Qed.

Example generator_card_count :
  length (FlashcardGenerator.generateFlashcards Sample.testEnv "note-1"
            Sample.testSummary []) = 12%nat.
Proof. vm_compute. reflexivity. Qed.

End TestSuiteExamples.

(* ================================================================== *)
(** * Sentiment scoring *)
(* ================================================================== *)

Section SentimentFacts.
Import Sentiment Props.





(** One step of the loop, read through [contribution]. *)
Lemma scanWord_contribution st w :
  scanWord st w =
  Scan (score st + contribution (negated st) w)
       (wordCount st + (if isSentimentWord w then 1 else 0))
       (isNegation w).
Proof.
  unfold scanWord, contribution, isSentimentWord, isPositive, isNegative, isNegation.
  destruct (has NEGATION_WORDS w) eqn:Hn; simpl.
  - f_equal; lia.
  - destruct (has POSITIVE_WORDS w) eqn:Hp; simpl; [reflexivity|].
    destruct (has NEGATIVE_WORDS w) eqn:Hg; simpl; [reflexivity|].
    f_equal; lia.
Qed.

Lemma scanWords_from ws : forall st,
  fold_left scanWord ws st =
  Scan (score st + totalFrom (negated st) ws)
       (wordCount st + countOf ws)
       (match last ws with Some w => isNegation w | None => negated st end).
Proof.
  induction ws as [|w ws IH]; intros st.
  - destruct st; simpl. unfold countOf; simpl. f_equal; lia.
  - cbn [fold_left]. rewrite IH, scanWord_contribution. cbn [score wordCount negated].
    unfold countOf. cbn [totalFrom List.filter].
    f_equal.
    + lia.
    + destruct (isSentimentWord w); cbn [length]; lia.
    + rewrite last_cons. destruct (last ws); reflexivity.
Qed.

Lemma scanWords_total ws :
  scanWords ws =
  Scan (totalFrom false ws) (countOf ws)
       (match last ws with Some w => isNegation w | None => false end).
Proof. unfold scanWords. rewrite scanWords_from. reflexivity. Qed.

Lemma normalize_range st : (-1 <= normalize st <= 1)%Q.
Proof.
  unfold normalize. destruct (wordCount st =? 0)%Z.
  - split; discriminate.
  - split.
    + apply Q.le_max_l.
    + apply Q.max_lub; [discriminate | apply Q.le_min_l].
Qed.

End SentimentFacts.

Section SentimentClaims.
Import Sentiment Props.



Lemma negated_initially : negated (scanWords []) = false.
Proof. reflexivity. Qed.




(** C8: [analyzeSentiment] returns a value in [-1, 1] for every string;
    it returns exactly 0 when the text has no sentiment word, and so
    for the empty string; two texts that differ only in letter case
    get the same score, and so do "GREAT" and "great". *)
Theorem C8_sentiment_range_zero_case (text : string) :
  (-1 <= analyzeSentiment text <= 1)%Q /\
  (List.filter isSentimentWord (words text) = [] -> analyzeSentiment text = 0%Q) /\
  analyzeSentiment "" = 0%Q /\
  (forall text', Js.toLowerCase text = Js.toLowerCase text' ->
     analyzeSentiment text = analyzeSentiment text') /\
  analyzeSentiment "GREAT" = analyzeSentiment "great".
Proof.
  split; [apply normalize_range|].
  split.
  { intros Hnone. unfold analyzeSentiment. rewrite scanWords_total.
    unfold normalize, countOf. cbn [wordCount]. rewrite Hnone. reflexivity. }
  split; [vm_compute; reflexivity|].
  split; [|vm_compute; reflexivity].
  intros text' Hcase. unfold analyzeSentiment, words. rewrite Hcase. reflexivity.
Qed.

(** C10: the token "never" is in the negative lexicon and in the
    negation set; the negation test comes first, so "never" adds no
    score and no count of its own and only raises the flag:
    [analyzeSentiment "never"] is 0, and in "never bad" the word "bad"
    adds +1. *)
Theorem C10_never_is_only_a_negation (st : scan) :
  has NEGATIVE_WORDS "never" = true /\
  has NEGATION_WORDS "never" = true /\
  scanWord st "never" = Scan (score st) (wordCount st) true /\
  (forall ws, contribution (negated (scanWords ws)) "never" = 0%Z) /\
  analyzeSentiment "never" = 0%Q /\
  words "never bad" = ["never"; "bad"] /\
  (score (scanWords ["never"; "bad"]) - score (scanWords ["never"]) = 1)%Z /\
  (analyzeSentiment "never bad" == 1)%Q.
Proof.
  assert (Hn : has NEGATION_WORDS "never" = true) by (vm_compute; reflexivity).
  split; [vm_compute; reflexivity|].
  split; [exact Hn|].
  split; [unfold scanWord; rewrite Hn; reflexivity|].
  split.
  { intros ws. unfold contribution, isPositive, isNegative, isNegation.
    rewrite Hn. reflexivity. }
  split; [vm_compute; reflexivity|].
  split; [vm_compute; reflexivity|].
  split; vm_compute; reflexivity.
Qed.

End SentimentClaims.

(* ================================================================== *)
(** * The SM-2 scheduler *)
(* ================================================================== *)

Section SrsClaims.
Import Models Srs Props.
Local Open Scope Q_scope.

Lemma round_lower_bound (z : Z) (x : Q) : inject_Z z <= x -> (z <= round x)%Z.
Proof.
  intros Hx. unfold round.
  rewrite <- (Qfloor_Z z). apply Qfloor_resp_le.
  eapply Qle_trans; [exact Hx|].
  rewrite <- (Qplus_0_r x) at 1. apply Qplus_le_r. discriminate.
Qed.

Lemma hundredths_lower_bound (z : Z) : (130 <= z)%Z -> 13 # 10 <= inject_Z z / 100.
Proof.
  intros Hz. unfold Qle, Qdiv, Qmult, Qinv, inject_Z. simpl. lia.
Qed.

Lemma floor_is_max (e : Q) :
  (if Qlt_le_dec e MIN_EASINESS then MIN_EASINESS else e) == Qmax MIN_EASINESS e.
Proof.
  destruct (Qlt_le_dec e MIN_EASINESS) as [Hlt|Hle].
  - symmetry. apply Q.max_l. apply Qlt_le_weak. exact Hlt.
  - symmetry. apply Q.max_r. exact Hle.
Qed.

Lemma round_proper (x y : Q) : x == y -> round x = round y.
Proof. intros H. unfold round. rewrite H. reflexivity. Qed.


End SrsClaims.


(* ================================================================== *)
(** * Deduplication of flashcards *)
(* ================================================================== *)

Section FilterUnseen.
Context {A : Type} (key : A -> string).

Lemma filterUnseen_fresh cards : forall seen d,
  d ∈ Js.filterUnseen key cards seen -> key d ∉ seen.
Proof.
  induction cards as [|c cards IH]; intros seen d Hd; cbn in Hd.
  - by apply elem_of_nil in Hd.
  - case_bool_decide as Hc.
    + by apply IH.
    + apply elem_of_cons in Hd as [->|Hd]; [exact Hc|].
      apply IH in Hd. intros Hs. apply Hd. apply elem_of_union. by right.
Qed.

Lemma filterUnseen_NoDup cards : forall seen,
  NoDup (List.map key (Js.filterUnseen key cards seen)).
Proof.
  induction cards as [|c cards IH]; intros seen; cbn.
  - constructor.
  - case_bool_decide as Hc; [apply IH|].
    cbn. apply NoDup_cons. split; [|apply IH].
    intros Hin. apply list_elem_of_In, in_map_iff in Hin as (d & Hkd & Hd).
    apply list_elem_of_In, filterUnseen_fresh in Hd.
    apply Hd. apply elem_of_union. left. apply elem_of_singleton. exact Hkd.
Qed.

Lemma filterUnseen_sublist cards : forall seen,
  sublist (Js.filterUnseen key cards seen) cards.
Proof.
  induction cards as [|c cards IH]; intros seen; cbn.
  - constructor.
  - case_bool_decide; [apply sublist_cons | apply sublist_skip]; apply IH.
Qed.

Lemma filterUnseen_covers cards : forall seen c,
  c ∈ cards -> key c ∈ seen \/
  exists d, d ∈ Js.filterUnseen key cards seen /\ key d = key c.
Proof.
  induction cards as [|c0 cards IH]; intros seen c Hc.
  - by apply elem_of_nil in Hc.
  - cbn. apply elem_of_cons in Hc as [->|Hc].
    + case_bool_decide as H0; [by left|].
      right. exists c0. split; [apply elem_of_cons; by left | reflexivity].
    + case_bool_decide as H0.
      * apply IH. exact Hc.
      * destruct (IH ({[ key c0 ]} ∪ seen) c Hc) as [Hs|(d & Hd & Hk)].
        -- apply elem_of_union in Hs as [Hs|Hs]; [|by left].
           apply elem_of_singleton in Hs.
           right. exists c0. split; [apply elem_of_cons; by left | by symmetry].
        -- right. exists d. split; [apply elem_of_cons; by right | exact Hk].
Qed.

Lemma filterUnseen_first cards : forall seen d,
  d ∈ Js.filterUnseen key cards seen ->
  List.find (fun c => String.eqb (key c) (key d)) cards = Some d.
Proof.
  induction cards as [|c cards IH]; intros seen d Hd; cbn in Hd.
  - by apply elem_of_nil in Hd.
  - cbn. case_bool_decide as Hc.
    + pose proof (filterUnseen_fresh _ _ _ Hd) as Hfresh.
      destruct (String.eqb (key c) (key d)) eqn:E.
      * apply String.eqb_eq in E. congruence.
      * by eapply IH.
    + apply elem_of_cons in Hd as [->|Hd].
      * rewrite String.eqb_refl. reflexivity.
      * pose proof (filterUnseen_fresh _ _ _ Hd) as Hfresh.
        destruct (String.eqb (key c) (key d)) eqn:E.
        -- apply String.eqb_eq in E. exfalso. apply Hfresh.
           apply elem_of_union. left. by apply elem_of_singleton.
        -- by eapply IH.
Qed.

End FilterUnseen.

(** C9: whatever the summary, no two cards of the flashcard
    generator's output have the same front after lower-casing and
    trimming; the output keeps the order of generation, every front
    that was generated is still there, and the card kept for it is the
    first one generated with it.  The same holds for the offline
    provider's generator. *)
Theorem C9_flashcards_deduplicated
    (env : FlashcardGenerator.Env) (noteId : string) (summary : Models.Summary)
    (segments : list Models.NoteSegment)
    (transcript : string) (aiSummary : option AiProvider.AiSummaryResult) :
  let out := FlashcardGenerator.generateFlashcards env noteId summary segments in
  let all := FlashcardGenerator.allCards env noteId summary in
  let out' := OfflineProvider.generateFlashcards transcript aiSummary in
  let all' := OfflineProvider.allCards transcript aiSummary in
  (NoDup (List.map (fun c => Js.trim (Js.toLowerCase (Models.front c))) out) /\
   sublist out all /\
   (forall c, c ∈ all -> exists d, d ∈ out /\
      Js.trim (Js.toLowerCase (Models.front d)) =
      Js.trim (Js.toLowerCase (Models.front c))) /\
   (forall d, d ∈ out ->
      List.find (fun c => String.eqb (Js.trim (Js.toLowerCase (Models.front c)))
                                     (Js.trim (Js.toLowerCase (Models.front d))))
        all = Some d)) /\
  (NoDup (List.map (fun c => Js.trim (Js.toLowerCase (AiProvider.front c))) out') /\
   sublist out' all' /\
   (forall c, c ∈ all' -> exists d, d ∈ out' /\
      Js.trim (Js.toLowerCase (AiProvider.front d)) =
      Js.trim (Js.toLowerCase (AiProvider.front c))) /\
   (forall d, d ∈ out' ->
      List.find (fun c => String.eqb (Js.trim (Js.toLowerCase (AiProvider.front c)))
                                     (Js.trim (Js.toLowerCase (AiProvider.front d))))
        all' = Some d)).
Proof.
  intros out all out' all'. split.
  - split; [apply (filterUnseen_NoDup FlashcardGenerator.key)|].
    split; [apply filterUnseen_sublist|].
    split.
    + intros c Hc.
      destruct (filterUnseen_covers FlashcardGenerator.key all ∅ c Hc)
        as [Hs|Hd]; [by apply elem_of_empty in Hs | exact Hd].
    + intros d Hd. exact (filterUnseen_first FlashcardGenerator.key all ∅ d Hd).
  - split; [apply (filterUnseen_NoDup OfflineProvider.key)|].
    split; [apply filterUnseen_sublist|].
    split.
    + intros c Hc.
      destruct (filterUnseen_covers OfflineProvider.key all' ∅ c Hc)
        as [Hs|Hd]; [by apply elem_of_empty in Hs | exact Hd].
    + intros d Hd. exact (filterUnseen_first OfflineProvider.key all' ∅ d Hd).
Qed.

(* ================================================================== *)
(** * Sorting *)
(* ================================================================== *)

Section SortFacts.
Context {A : Type} (cmp : A -> A -> bool).

Lemma insertSorted_Permutation x l : Js.insertSorted cmp x l ≡ₚ x :: l.
Proof.
  induction l as [|y l IH]; cbn; [reflexivity|].
  destruct (cmp x y); [reflexivity|].
  rewrite IH. apply Permutation_swap.
Qed.

Lemma sort_Permutation l : Js.sort cmp l ≡ₚ l.
Proof.
  induction l as [|x l IH]; cbn; [reflexivity|].
  rewrite insertSorted_Permutation, IH. reflexivity.
Qed.

Lemma sort_elem_of x l : x ∈ Js.sort cmp l <-> x ∈ l.
Proof. rewrite sort_Permutation. reflexivity. Qed.

End SortFacts.

Lemma insertSorted_ascending x l :
  Sorted le l -> Sorted le (Js.insertSorted LocalSummarizer.ascending x l).
Proof.
  unfold LocalSummarizer.ascending.
  induction l as [|y l IH]; intros Hs; cbn.
  - repeat constructor.
  - destruct (x <=? y) eqn:E.
    + apply Nat.leb_le in E. constructor; [exact Hs | constructor; exact E].
    + apply Nat.leb_gt in E. inversion Hs as [|? ? Hs' Hhd]; subst.
      constructor; [apply IH; exact Hs'|].
      destruct l as [|z l]; cbn.
      * constructor. lia.
      * inversion Hhd; subst. destruct (x <=? z); constructor; lia.
Qed.

Lemma sort_ascending l : Sorted le (Js.sort LocalSummarizer.ascending l).
Proof.
  induction l as [|x l IH]; cbn; [constructor|].
  apply insertSorted_ascending, IH.
Qed.

(* ================================================================== *)
(** * TextRank *)
(* ================================================================== *)

Section TextRankFacts.
Import Textrank.
Variable sqrt : Q -> Q.

Lemma textRank_empty topN : textRank sqrt [] topN = [].
Proof. reflexivity. Qed.

Lemma textRank_all sentences topN :
  length sentences <= topN ->
  textRank sqrt sentences topN = seq 0 (length sentences).
Proof.
  intros Hle. unfold textRank.
  destruct (length sentences =? 0) eqn:E0.
  - apply Nat.eqb_eq in E0. rewrite E0. reflexivity.
  - apply Nat.leb_le in Hle. rewrite Hle. reflexivity.
Qed.

Lemma textRank_length sentences topN :
  length (textRank sqrt sentences topN) <= topN.
Proof.
  unfold textRank.
  destruct (length sentences =? 0) eqn:E0; [cbn; lia|].
  destruct (length sentences <=? topN) eqn:E1.
  - apply Nat.leb_le in E1. rewrite length_seq. exact E1.
  - rewrite length_map, length_take. lia.
Qed.

Lemma textRank_in_range sentences topN i :
  i ∈ textRank sqrt sentences topN -> i < length sentences.
Proof.
  unfold textRank.
  destruct (length sentences =? 0) eqn:E0; [intros H; by apply elem_of_nil in H|].
  destruct (length sentences <=? topN) eqn:E1.
  - intros H. apply list_elem_of_In, in_seq in H. lia.
  - intros H. apply list_elem_of_In, in_map_iff in H as ([s j] & Hj & Hin).
    cbn in Hj. subst j.
    apply list_elem_of_In in Hin. apply elem_of_take in Hin as (k & Hin & _).
    apply list_elem_of_lookup_2 in Hin. apply sort_elem_of in Hin.
    apply list_elem_of_In, in_combine_r, in_seq in Hin. lia.
Qed.

End TextRankFacts.

(** C6: [textRank sentences topN] returns at most [topN] indices, each
    of them below the number of sentences; when there are at most
    [topN] sentences it returns all the indices 0, 1, ... in that order. *)
Theorem C6_textRank_indices
    (sqrt : Q -> Q) (sentences : list string) (topN : nat) :
  let ranked := Textrank.textRank sqrt sentences topN in
  length ranked <= topN /\
  (forall i, i ∈ ranked -> 0 <= i < length sentences) /\
  (length sentences <= topN -> ranked = seq 0 (length sentences)).
Proof.
  intros ranked. split; [apply textRank_length|].
  split.
  - intros i Hi. split; [lia|]. eapply textRank_in_range. exact Hi.
  - apply textRank_all.
Qed.

(* ================================================================== *)
(** * Follow-up questions *)
(* ================================================================== *)

Section FollowUpFacts.
Import LocalSummarizer.

Lemma probe_scan fuel : forall idx (used : gset nat),
  idx < 8 ->
  (probe fuel idx used ∉ used \/ 8 <= size used) \/
  (forall d, d < fuel -> (idx + d) mod 8 ∈ used).
Proof.
  induction fuel as [|fuel IH]; intros idx used Hidx; [right; intros d Hd; lia|].
  cbn [probe]. change (length QUESTION_STARTERS) with 8.
  destruct (bool_decide (idx ∈ used)) eqn:Hin; cbn [andb].
  - apply bool_decide_eq_true in Hin.
    destruct (size used <? 8) eqn:Hsz.
    + assert (Hnext : (idx + 1) mod 8 < 8) by (apply Nat.mod_upper_bound; lia).
      destruct (IH ((idx + 1) mod 8) used Hnext) as [Hout|Hall]; [left; exact Hout|].
      right. intros [|d] Hd.
      * rewrite Nat.add_0_r, Nat.mod_small by exact Hidx. exact Hin.
      * specialize (Hall d ltac:(lia)).
        rewrite Nat.Div0.add_mod_idemp_l in Hall.
        replace (idx + S d) with (idx + 1 + d) by lia. exact Hall.
    + apply Nat.ltb_ge in Hsz. left. right. exact Hsz.
  - apply bool_decide_eq_false in Hin. left. left. exact Hin.
Qed.

(** The fuel of [probe] is enough: where it stops, the condition of the
    [while] loop is false. *)
Lemma probe_leaves_the_loop idx (used : gset nat) :
  idx < 8 ->
  probe (length QUESTION_STARTERS) idx used ∉ used \/ 8 <= size used.
Proof.
  intros Hidx. change (length QUESTION_STARTERS) with 8.
  destruct (probe_scan 8 idx used Hidx) as [Hout|Hall]; [exact Hout|].
  right.
  assert (Hsub : (list_to_set (seq 0 8) : gset nat) ⊆ used).
  { intros j Hj. apply elem_of_list_to_set, list_elem_of_In, in_seq in Hj.
    specialize (Hall ((j + 8 - idx) mod 8)
                  ltac:(apply Nat.mod_upper_bound; lia)).
    rewrite Nat.Div0.add_mod_idemp_r in Hall.
    replace (idx + (j + 8 - idx)) with (j + 1 * 8) in Hall by lia.
    rewrite Nat.Div0.mod_add, Nat.mod_small in Hall by lia. exact Hall. }
  apply subseteq_size in Hsub.
  rewrite size_list_to_set in Hsub by apply NoDup_seq. exact Hsub.
Qed.

End FollowUpFacts.

(* ================================================================== *)
(** * The summary assembler *)
(* ================================================================== *)

Section SummaryFields.
Import Textrank.
Variables (sqrt : Q -> Q) (random : nat -> nat).
Local Abbreviation ranked := (Props.ranked sqrt).

Lemma ranked_nil top : ranked top [] = [].
Proof. reflexivity. Qed.

Lemma extractHighlights_ranked sentences :
  LocalSummarizer.extractHighlights sqrt sentences =
  List.filter (fun s => 20 <? String.length s) (ranked 10 sentences).
Proof.
  unfold LocalSummarizer.extractHighlights, Props.ranked.
  destruct sentences; reflexivity.
Qed.

Lemma offline_fields transcript userName :
  let r := OfflineProvider.summarize sqrt random transcript userName in
  let sentences := splitSentences transcript in
  AiProvider.tldr r = ranked 5 sentences /\
  AiProvider.keyPoints r = ranked 10 sentences /\
  AiProvider.decisions r = OfflineProvider.extractDecisions sentences /\
  AiProvider.actionItems r = OfflineProvider.extractActionItems sentences userName /\
  AiProvider.openQuestions r =
    take 10 (List.filter (fun s => Js.endsWith "?" (Js.trim s)) sentences) /\
  AiProvider.topics r = OfflineProvider.extractTopics transcript /\
  AiProvider.highlights r =
    List.filter (fun s => 20 <? String.length s) (ranked 10 sentences) /\
  AiProvider.followUps r =
    OfflineProvider.generateFollowUps random (OfflineProvider.extractTopics transcript) /\
  AiProvider.sentimentBySegment r =
    Some (Sentiment.analyzeSentimentBatch
            (List.filter (fun s => negb (Js.isEmpty s))
               (Regex.split false OfflineProvider.dotSpaces transcript))).
Proof. repeat split. Qed.

Lemma local_fields newId now noteId segments userName :
  let r := LocalSummarizer.summarize sqrt random newId now noteId segments userName in
  let fullText := Js.join ". " (List.map Models.text segments) in
  let sentences := splitSentences fullText in
  Models.tldr r = ranked 5 sentences /\
  Models.keyPoints r = ranked 10 sentences /\
  Models.decisions r = LocalSummarizer.extractDecisions sentences /\
  Models.actionItems r = LocalSummarizer.extractActionItems sentences userName /\
  Models.openQuestions r = LocalSummarizer.extractOpenQuestions sentences /\
  Models.topics r = LocalSummarizer.extractTopics fullText /\
  Models.highlights r = LocalSummarizer.extractHighlights sqrt sentences /\
  Models.followUps r =
    LocalSummarizer.generateFollowUps random (LocalSummarizer.extractTopics fullText) /\
  Models.sentimentBySegment r =
    Some (Sentiment.analyzeSentimentBatch (List.map Models.text segments)).
Proof. repeat split. Qed.

End SummaryFields.

Section SummaryClaims.
Import Textrank.

(** C1 (what the code does on the scenario): the decision and the open
    question are found, but [actionItems] is empty.  No pattern of
    [ACTION_CUES] matches the sentence about Alice, since each cue with
    "will" asks for one of i, we, he, she, they, you just before it;
    the owner and due-date patterns, which are only run after a cue has
    matched, do read "Alice" and "Friday" off that sentence.  The
    transcript of the repository's own test gives no action item
    either. *)
Theorem C1_scenario_summary (sqrt : Q -> Q) (random : nat -> nat) :
  let r := OfflineProvider.summarize sqrt random Sample.scenario "TestUser" in
  AiProvider.decisions r = ["We decided to move forward with the new platform."] /\
  Regex.test true (Regex.lit "decided")
    "We decided to move forward with the new platform." = true /\
  AiProvider.openQuestions r = ["When will the new hire start?"] /\
  AiProvider.actionItems r = [] /\
  Sample.aliceSentence ∈ splitSentences Sample.scenario /\
  List.map (fun cue => Regex.exec true cue Sample.aliceSentence)
    OfflineProvider.ACTION_CUES = repeat None 8 /\
  LocalSummarizer.ownerOf Sample.aliceSentence "TestUser" = "Alice" /\
  LocalSummarizer.dueOf Sample.aliceSentence = Some "Friday" /\
  AiProvider.actionItems
    (OfflineProvider.summarize sqrt random Sample.testTranscript "TestUser") = [].
Proof.
  intros r.
  destruct (offline_fields sqrt random Sample.scenario "TestUser")
    as (_ & _ & Hd & Ha & Hq & _).
  destruct (offline_fields sqrt random Sample.testTranscript "TestUser")
    as (_ & _ & _ & Ha' & _).
  fold r in Hd, Ha, Hq.
  split; [rewrite Hd; vm_compute; reflexivity|].
  split; [vm_compute; reflexivity|].
  split; [rewrite Hq; vm_compute; reflexivity|].
  split; [rewrite Ha; vm_compute; reflexivity|].
  split.
  { replace (splitSentences Sample.scenario)
      with ["Revenue grew by 15% last quarter.";
            "We decided to move forward with the new platform.";
            Sample.aliceSentence;
            "When will the new hire start?"] by (vm_compute; reflexivity).
    do 2 apply list_elem_of_further. apply list_elem_of_here. }
  split; [vm_compute; reflexivity|].
  split; [vm_compute; reflexivity|].
  split; [vm_compute; reflexivity|].
  rewrite Ha'. vm_compute. reflexivity.
Qed.

(** C3, as the code has it: the highlights are exactly the top-ranked
    sentences that are longer than 20 characters (a sentence of exactly
    20 is removed), in ascending order of their index; the offline
    provider computes the same list from the sentences of its transcript. *)
Theorem C3_highlights_longer_than_20 (sqrt : Q -> Q) (sentences : list string) :
  let top := textRank sqrt sentences (Nat.min 10 (length sentences)) in
  let highlights := LocalSummarizer.extractHighlights sqrt sentences in
  (forall s, s ∈ highlights <->
     exists i, i ∈ top /\ LocalSummarizer.at_ sentences i = s /\
               20 < String.length s) /\
  (exists order, order ≡ₚ top /\ Sorted le order /\
     highlights =
     List.filter (fun s => 20 <? String.length s)
       (List.map (LocalSummarizer.at_ sentences) order)) /\
  (forall random transcript userName,
     AiProvider.highlights
       (OfflineProvider.summarize sqrt random transcript userName) =
     LocalSummarizer.extractHighlights sqrt (splitSentences transcript)).
Proof.
  intros top highlights. subst highlights.
  split; [|split].
  - intros s. rewrite extractHighlights_ranked. unfold Props.ranked. fold top.
    rewrite list_elem_of_In, filter_In, in_map_iff. split.
    + intros ((i & Hi & Hin) & Hlen). exists i.
      apply list_elem_of_In, sort_elem_of in Hin.
      apply Nat.ltb_lt in Hlen. auto.
    + intros (i & Hin & Hi & Hlen). split; [|by apply Nat.ltb_lt].
      exists i. split; [exact Hi|].
      apply list_elem_of_In, sort_elem_of. exact Hin.
  - exists (Js.sort LocalSummarizer.ascending top).
    split; [apply sort_Permutation|].
    split; [apply sort_ascending|].
    apply extractHighlights_ranked.
  - intros random transcript userName.
    destruct (offline_fields sqrt random transcript userName)
      as (_ & _ & _ & _ & _ & _ & Hh & _).
    rewrite Hh. symmetry. apply extractHighlights_ranked.
Qed.

(** C3, counterexample: a top-ranked sentence of exactly 20 characters
    is not among the highlights. *)
Lemma C3_twenty_characters_removed :
  0 ∈ textRank Sample.sqrt [Sample.twenty] (Nat.min 10 1) /\
  String.length (Js.trim (LocalSummarizer.at_ [Sample.twenty] 0)) = 20 /\
  LocalSummarizer.extractHighlights Sample.sqrt [Sample.twenty] = [] /\
  AiProvider.tldr
    (OfflineProvider.summarize Sample.sqrt Sample.random Sample.twenty "TestUser")
    = [Sample.twenty] /\
  AiProvider.highlights
    (OfflineProvider.summarize Sample.sqrt Sample.random Sample.twenty "TestUser")
    = [].
Proof.
  split; [vm_compute; apply list_elem_of_here|].
  split; [vm_compute; reflexivity|].
  split; [vm_compute; reflexivity|].
  split; vm_compute; reflexivity.
Qed.



End SummaryClaims.

(* ================================================================== *)
(** * Chunking *)
(* ================================================================== *)

Section StringFacts.
Import Props.

Lemma isEmpty_true s : Js.isEmpty s = true <-> s = "".
Proof. destruct s; cbn; split; congruence. Qed.

Lemma isEmpty_false s : Js.isEmpty s = false <-> s <> "".
Proof. destruct s; cbn; split; congruence. Qed.

Lemma append_nil b : "" +:+ b = b.
Proof. reflexivity. Qed.

Lemma append_cons c a b : String c a +:+ b = String c (a +:+ b).
Proof. reflexivity. Qed.

Lemma length_append a b :
  String.length (a +:+ b) = String.length a + String.length b.
Proof.
  induction a as [|c a IH]; [reflexivity|].
  rewrite append_cons. cbn. rewrite IH. reflexivity.
Qed.

Lemma len_append a b : Text.len (a +:+ b) = (Text.len a + Text.len b)%Z.
Proof. unfold Text.len. rewrite length_append. lia. Qed.

Lemma len_nonneg s : (0 <= Text.len s)%Z.
Proof. unfold Text.len. lia. Qed.

Lemma len_zero s : Text.len s = 0%Z <-> s = "".
Proof.
  unfold Text.len. destruct s; cbn; split; try congruence; try lia.
Qed.

Lemma trimStart_length s : String.length (Js.trimStart s) <= String.length s.
Proof.
  induction s as [|c s IH]; cbn; [lia|].
  destruct (Js.isSpace c); cbn; lia.
Qed.

Lemma trimEnd_length s : String.length (Js.trimEnd s) <= String.length s.
Proof.
  induction s as [|c s IH]; cbn; [lia|].
  destruct (Js.isSpace c && Js.isEmpty (Js.trimEnd s)); cbn; lia.
Qed.

Lemma len_trim s : (Text.len (Js.trim s) <= Text.len s)%Z.
Proof.
  unfold Text.len, Js.trim.
  pose proof (trimEnd_length (Js.trimStart s)).
  pose proof (trimStart_length s). lia.
Qed.

Lemma nonSpace_append a b : nonSpace (a +:+ b) = nonSpace a ++ nonSpace b.
Proof.
  induction a as [|c a IH]; [reflexivity|].
  rewrite append_cons. cbn.
  destruct (Js.isSpace c); rewrite IH; reflexivity.
Qed.

Lemma nonSpace_trimStart s : nonSpace (Js.trimStart s) = nonSpace s.
Proof.
  induction s as [|c s IH]; cbn; [reflexivity|].
  destruct (Js.isSpace c) eqn:E; [exact IH|].
  cbn. rewrite E. reflexivity.
Qed.

Lemma nonSpace_trimEnd s : nonSpace (Js.trimEnd s) = nonSpace s.
Proof.
  induction s as [|c s IH]; cbn; [reflexivity|].
  destruct (Js.isSpace c) eqn:E; cbn.
  - destruct (Js.isEmpty (Js.trimEnd s)) eqn:Et; cbn.
    + apply isEmpty_true in Et. rewrite Et in IH. exact IH.
    + rewrite E. exact IH.
  - rewrite E, IH. reflexivity.
Qed.

Lemma nonSpace_trim s : nonSpace (Js.trim s) = nonSpace s.
Proof. unfold Js.trim. rewrite nonSpace_trimEnd. apply nonSpace_trimStart. Qed.

Lemma content_app l1 l2 : content (l1 ++ l2) = content l1 ++ content l2.
Proof. unfold content. rewrite map_app, concat_app. reflexivity. Qed.

Lemma content_one s : content [s] = nonSpace s.
Proof. unfold content. cbn. apply app_nil_r. Qed.

Lemma content_cons s l : content (s :: l) = nonSpace s ++ content l.
Proof. reflexivity. Qed.

Lemma unrev_cons c piece :
  Regex.unrev (c :: piece) = Regex.unrev piece +:+ String c "".
Proof.
  unfold Regex.unrev. cbn [rev].
  induction (rev piece) as [|x l IH]; [reflexivity|].
  cbn. rewrite IH, append_cons. reflexivity.
Qed.

End StringFacts.

Section SplitFacts.
Import Props Regex.

Lemma splitFrom_content r (Hr : spaceOnly r) fuel : forall cur piece,
  content (splitFrom false fuel r cur piece) =
  nonSpace (unrev piece) ++ nonSpace (rest cur).
Proof.
  induction fuel as [|fuel IH]; intros cur piece; cbn [splitFrom].
  - rewrite content_one. apply nonSpace_append.
  - destruct cur as [bef rst]. cbn [rest]. destruct rst as [|c s'].
    + rewrite content_one. cbn. rewrite app_nil_r. reflexivity.
    + assert (Hskip :
        content (splitFrom false fuel r (Cursor (Some c) s') (c :: piece)) =
        nonSpace (unrev piece) ++ nonSpace (String c s')).
      { rewrite IH. cbn [rest]. rewrite unrev_cons, nonSpace_append.
        rewrite <- app_assoc. f_equal.
        change (String c s') with (String c "" +:+ s').
        rewrite nonSpace_append. reflexivity. }
      destruct (matchAt false r (Cursor bef (String c s'))) as [[cur' cap]|] eqn:Em;
        [|exact Hskip].
      destruct (remaining cur' <? remaining (Cursor bef (String c s'))).
      * rewrite content_cons, IH. cbn [unrev rev string_of_list_ascii nonSpace app].
        f_equal. symmetry. exact (Hr _ _ _ Em).
      * destruct piece as [|p piece]; [exact Hskip|].
        rewrite content_cons, IH. cbn [rest]. f_equal.
        change (String c s') with (String c "" +:+ s').
        rewrite nonSpace_append. reflexivity.
Qed.

Lemma split_content r (Hr : spaceOnly r) text :
  content (split false r text) = nonSpace text.
Proof.
  unfold split. destruct text as [|c s].
  - destruct (matchAt false r (atStart "")); reflexivity.
  - rewrite (splitFrom_content r Hr). reflexivity.
Qed.

Lemma starLoop_spaces fuel : forall cur cap cur' cap',
  starLoop (run false (Cls Js.isSpace))
    (fun c p => Some (c, p)) fuel cur cap = Some (cur', cap') ->
  nonSpace (rest cur) = nonSpace (rest cur').
Proof.
  induction fuel as [|fuel IH]; intros cur cap cur' cap'; cbn [starLoop].
  - intros [= <- _]. reflexivity.
  - cbn [run]. unfold step. destruct cur as [bef rst]. cbn [rest].
    destruct rst as [|x s]; [intros [= <- _]; reflexivity|].
    destruct (Js.isSpace x) eqn:Ex; [|intros [= <- _]; reflexivity].
    destruct (remaining (Cursor (Some x) s) <? remaining (Cursor bef (String x s)));
      [|intros [= <- _]; reflexivity].
    destruct (starLoop _ _ fuel (Cursor (Some x) s) cap) as [[c2 p2]|] eqn:El.
    + intros [= <- <-]. apply IH in El. cbn [rest] in El.
      cbn [nonSpace]. rewrite Ex. exact El.
    + intros [= <- _]. reflexivity.
Qed.

Lemma sentenceBreak_spaceOnly : spaceOnly Textrank.sentenceBreak.
Proof.
  intros cur cur' cap. unfold matchAt, Textrank.sentenceBreak, Plus.
  cbn [run]. destruct (before cur) as [b|]; [|discriminate].
  destruct (Textrank.isSentenceEnd b); [|discriminate].
  unfold step. destruct cur as [bef rst]. cbn [rest].
  destruct rst as [|x s]; [discriminate|].
  destruct (Js.isSpace x) eqn:Ex; [|discriminate].
  intros Hloop. apply starLoop_spaces in Hloop. cbn [rest] in Hloop.
  cbn [nonSpace]. rewrite Ex. exact Hloop.
Qed.

End SplitFacts.

Section ChunkFacts.
Import Props.

Lemma glue_snoc group s :
  glue (group ++ [s]) =
  glue group +:+ (if Js.isEmpty (glue group) then "" else " ") +:+ s.
Proof. unfold glue. rewrite fold_left_app. reflexivity. Qed.

Lemma glue_one s : glue [s] = s.
Proof. reflexivity. Qed.

Lemma chunkLoop_content maxChars sentences : forall chunks current,
  content (Text.chunkLoop maxChars sentences chunks current) =
  content chunks ++ nonSpace current ++ content sentences.
Proof.
  induction sentences as [|s sentences IH]; intros chunks current;
    cbn [Text.chunkLoop].
  - unfold content at 3. cbn. rewrite app_nil_r.
    destruct (Js.isEmpty (Js.trim current)) eqn:E.
    + apply isEmpty_true in E.
      rewrite <- (nonSpace_trim current), E. cbn. rewrite app_nil_r. reflexivity.
    + rewrite content_app, content_one, nonSpace_trim. reflexivity.
  - destruct ((Text.len current + Text.len s + 1 >? maxChars)%Z
              && (Text.len current >? 0)%Z).
    + rewrite IH, content_app, content_one, nonSpace_trim, content_cons.
      cbn [Js.isEmpty]. rewrite !append_nil, <- !app_assoc. reflexivity.
    + rewrite IH, content_cons, !nonSpace_append, <- !app_assoc.
      f_equal. f_equal.
      destruct (Js.isEmpty current); reflexivity.
Qed.

(** What the loop knows about [current]: it is the text of a run that
    ends where the loop stands, and unless it is empty it fits, or it
    is a single sentence that does not. *)
Lemma chunkLoop_good all maxChars sentences :
  forall before group chunks current,
    all = before ++ group ++ sentences ->
    current = glue group ->
    (current <> "" ->
     group <> [] /\
     ((Text.len current <= maxChars)%Z \/
      exists s, group = [s] /\ (maxChars < Text.len s)%Z)) ->
    (forall c, c ∈ chunks -> goodChunk all maxChars c) ->
    forall c, c ∈ Text.chunkLoop maxChars sentences chunks current ->
              goodChunk all maxChars c.
Proof.
  assert (Hpush : forall before group after current,
    all = before ++ group ++ after -> current = glue group ->
    (current <> "" ->
     group <> [] /\
     ((Text.len current <= maxChars)%Z \/
      exists s, group = [s] /\ (maxChars < Text.len s)%Z)) ->
    current <> "" -> goodChunk all maxChars (Js.trim current)).
  { intros before group after current Hall Hcur Hinv Hne.
    destruct (Hinv Hne) as (Hg & Hfit).
    exists before, group, after. split; [exact Hall|]. split; [exact Hg|].
    split; [rewrite Hcur; reflexivity|].
    destruct Hfit as [Hfit|Hone]; [left|right; exact Hone].
    pose proof (len_trim current). lia. }
  assert (Hfresh : forall s,
    s <> "" ->
    [s] <> [] /\
    ((Text.len s <= maxChars)%Z \/
     exists s', [s] = [s'] /\ (maxChars < Text.len s')%Z)).
  { intros s _. split; [discriminate|].
    destruct (Z_le_gt_dec (Text.len s) maxChars); [left; assumption|].
    right. exists s. split; [reflexivity | lia]. }
  induction sentences as [|s sentences IH];
    intros before group chunks current Hall Hcur Hinv Hchunks c;
    cbn [Text.chunkLoop].
  - destruct (Js.isEmpty (Js.trim current)) eqn:E; [apply Hchunks|].
    intros Hc. apply elem_of_app in Hc as [Hc|Hc]; [by apply Hchunks|].
    apply list_elem_of_singleton in Hc. subst c.
    apply (Hpush before group [] current Hall Hcur Hinv).
    intros ->. discriminate.
  - destruct ((Text.len current + Text.len s + 1 >? maxChars)%Z
              && (Text.len current >? 0)%Z) eqn:Eflush.
    + apply andb_true_iff in Eflush as (_ & Hpos). apply Z.gtb_lt in Hpos.
      assert (Hne : current <> "")
        by (intros Hnil; apply len_zero in Hnil; lia).
      cbn [Js.isEmpty]. rewrite !append_nil.
      apply (IH (before ++ group) [s]).
      * rewrite Hall, <- !app_assoc. reflexivity.
      * reflexivity.
      * apply Hfresh.
      * intros c' Hc'. apply elem_of_app in Hc' as [Hc'|Hc']; [by apply Hchunks|].
        apply list_elem_of_singleton in Hc'. subst c'.
        exact (Hpush before group (s :: sentences) current Hall Hcur Hinv Hne).
    + destruct (Js.isEmpty current) eqn:Ecur.
      * apply isEmpty_true in Ecur. subst current. rewrite Ecur, !append_nil.
        apply (IH (before ++ group) [s]).
        -- rewrite Hall, <- !app_assoc. reflexivity.
        -- reflexivity.
        -- apply Hfresh.
        -- exact Hchunks.
      * apply isEmpty_false in Ecur.
        destruct (Hinv Ecur) as (Hg & _).
        apply andb_false_iff in Eflush.
        assert (Hfit : (Text.len current + Text.len s + 1 <= maxChars)%Z).
        { destruct Eflush as [Hf|Hf].
          - rewrite Z.gtb_ltb, Z.ltb_ge in Hf. exact Hf.
          - rewrite Z.gtb_ltb, Z.ltb_ge in Hf.
            pose proof (len_nonneg current).
            assert (Text.len current = 0%Z) as Hz by lia.
            apply len_zero in Hz. contradiction. }
        apply (IH before (group ++ [s])).
        -- rewrite Hall, <- !app_assoc. reflexivity.
        -- rewrite glue_snoc, <- Hcur.
           destruct (Js.isEmpty current) eqn:E2;
             [apply isEmpty_true in E2; contradiction | reflexivity].
        -- intros _. split; [intros Hnil; by apply app_eq_nil in Hnil as [_ ?]|].
           left. rewrite !len_append. change (Text.len " ") with 1%Z. lia.
        -- exact Hchunks.
Qed.

End ChunkFacts.

(** C5: [chunkText text maxChars] is [[text]] when the text has at
    most [maxChars] characters, and so for 100 characters and
    [maxChars = 100]; otherwise every chunk is the trimmed text of a run
    of consecutive sentences, joined by single spaces, and has at most
    [maxChars] characters unless it is one sentence that is longer than
    that; in both cases the chunks hold, in order, every character of
    the text that is not white space. *)
Theorem C5_chunkText_chunks (text : string) (maxChars : Z) :
  let chunks := Text.chunkText text maxChars in
  let sentences := Regex.split false Textrank.sentenceBreak text in
  ((Text.len text <= maxChars)%Z -> chunks = [text]) /\
  ((maxChars < Text.len text)%Z ->
     forall chunk, chunk ∈ chunks ->
       Props.goodChunk sentences maxChars chunk) /\
  Props.content chunks = Props.nonSpace text /\
  Text.chunkText Sample.x100 100 = [Sample.x100].
Proof.
  intros chunks sentences. subst chunks. unfold Text.chunkText.
  split; [|split; [|split]].
  - intros Hle. apply Z.leb_le in Hle. rewrite Hle. reflexivity.
  - intros Hlt. apply Z.leb_gt in Hlt. rewrite Hlt.
    intros chunk Hin.
    apply (chunkLoop_good sentences maxChars sentences [] [] [] "");
      try reflexivity; try exact Hin.
    + intros Hne. contradiction.
    + intros c Hc. by apply elem_of_nil in Hc.
  - destruct (Text.len text <=? maxChars)%Z.
    + apply content_one.
    + rewrite chunkLoop_content. cbn [app Props.nonSpace].
      change (Props.content []) with (@nil ascii). cbn [app].
      apply split_content, sentenceBreak_spaceOnly.
  - vm_compute. reflexivity.
Qed.

(* ================================================================== *)
(** * The theorems at concrete inputs *)
(* ================================================================== *)


Lemma C5_chunkText_examples :
  ((Text.len "Hello world." <= 100)%Z /\
   Text.chunkText "Hello world." 100 = ["Hello world."]) /\
  ((10 < Text.len "A. B. C. D. E. F. G.")%Z /\
   Props.goodChunk
     (Regex.split false Textrank.sentenceBreak "A. B. C. D. E. F. G.") 10
     "A. B. C.").
Proof.
  split.
  - assert (Hle : (Text.len "Hello world." <= 100)%Z) by (vm_compute; discriminate).
    split; [exact Hle|].
    destruct (C5_chunkText_chunks "Hello world." 100) as (Hshort & _).
    exact (Hshort Hle).
  - assert (Hlt : (10 < Text.len "A. B. C. D. E. F. G.")%Z) by (vm_compute; reflexivity).
    split; [exact Hlt|].
    destruct (C5_chunkText_chunks "A. B. C. D. E. F. G." 10) as (_ & Hlong & _).
    apply (Hlong Hlt). vm_compute. apply list_elem_of_here.
Defined.

Lemma C6_textRank_two_of_five :
  2 <= 5 /\
  Textrank.textRank Sample.sqrt ["One sentence here."; "Another one there."] 5
  = [0; 1].
Proof.
  assert (Hle : 2 <= 5) by lia.
  split; [exact Hle|].
  destruct (C6_textRank_indices Sample.sqrt
              ["One sentence here."; "Another one there."] 5) as (_ & _ & Hall).
  exact (Hall Hle).
Defined.

Lemma C3_long_sentence_kept :
  Sample.aliceSentence ∈
  LocalSummarizer.extractHighlights Sample.sqrt [Sample.twenty; Sample.aliceSentence].
Proof.
  destruct (C3_highlights_longer_than_20 Sample.sqrt
              [Sample.twenty; Sample.aliceSentence]) as (Hiff & _).
  apply Hiff. exists 1.
  split; [vm_compute; apply list_elem_of_further, list_elem_of_here|].
  split; [reflexivity | vm_compute; lia].
Defined.


Lemma C8_neutral_text_scores_zero :
  List.filter Props.isSentimentWord
    (Sentiment.words "The meeting is at 3pm in the conference room") = [] /\
  Sentiment.analyzeSentiment "The meeting is at 3pm in the conference room" = 0%Q.
Proof.
  assert (Hnone : List.filter Props.isSentimentWord
            (Sentiment.words "The meeting is at 3pm in the conference room") = [])
    by (vm_compute; reflexivity).
  split; [exact Hnone|].
  destruct (C8_sentiment_range_zero_case
              "The meeting is at 3pm in the conference room") as (_ & Hzero & _).
  exact (Hzero Hnone).
Defined.

Lemma C9_repeated_key_point_kept_once :
  length (OfflineProvider.allCards "" (Some Sample.repeated)) = 4 /\
  length (OfflineProvider.generateFlashcards "" (Some Sample.repeated)) = 2 /\
  exists d, d ∈ OfflineProvider.generateFlashcards "" (Some Sample.repeated) /\
    Js.trim (Js.toLowerCase (AiProvider.front d)) = "explain: alpha beta.".
Proof.
  split; [vm_compute; reflexivity|].
  split; [vm_compute; reflexivity|].
  destruct (C9_flashcards_deduplicated
              {| FlashcardGenerator.uuid := fun _ => ""; FlashcardGenerator.clock := fun _ => 0%Z |}
              "" {| Models.s_id := ""; Models.s_noteId := ""; Models.tldr := [];
                    Models.keyPoints := []; Models.decisions := [];
                    Models.actionItems := []; Models.openQuestions := [];
                    Models.topics := []; Models.highlights := [];
                    Models.followUps := []; Models.sentimentBySegment := None;
                    Models.s_createdAt := 0; Models.provider := Models.offline |}
              [] "" (Some Sample.repeated)) as (_ & _ & _ & Hcover & _).
  destruct (Hcover (OfflineProvider.qaCard [] "Alpha beta.")) as (d & Hd & Hk).
  - vm_compute. apply list_elem_of_here.
  - exists d. split; [exact Hd|]. rewrite Hk. vm_compute. reflexivity.
Defined.

(* ================================================================== *)
(** * More on the scheduler *)
(* ================================================================== *)

Section SrsMore.
Import Models Srs Props.
Local Open Scope Q_scope.

Lemma round_half_bound (z : Z) (x : Q) :
  inject_Z z <= x + (1 # 2) -> (z <= round x)%Z.
Proof.
  intros Hx. unfold round. rewrite <- (Qfloor_Z z). apply Qfloor_resp_le. exact Hx.
Qed.


Lemma floored_ge_min card rating : 13 # 10 <= flooredEasiness card rating.
Proof. apply Q.le_max_l. Qed.

Lemma computeSRS_easiness_floor now card rating :
  13 # 10 <= u_easiness (computeSRS now card rating).
Proof.
  unfold computeSRS.
  set (e1 := if Qlt_le_dec _ _ then _ else _).
  assert (He : e1 == flooredEasiness card rating) by apply floor_is_max.
  destruct (rating <? 3)%Z; cbn [u_easiness];
    apply hundredths_lower_bound, round_lower_bound;
    rewrite He; apply (Qle_trans _ ((13 # 10) * 100)); try discriminate;
    apply Qmult_le_compat_r; try discriminate; apply floored_ge_min.
Qed.

Lemma computeSRS_interval now card rating :
  u_interval (computeSRS now card rating) =
  if (rating <? 3)%Z then 0%Z
  else if (repetitions card + 1 =? 1)%Z then 1%Z
  else if (repetitions card + 1 =? 2)%Z then 6%Z
  else round (inject_Z (interval card) * flooredEasiness card rating).
Proof.
  unfold computeSRS.
  set (e1 := if Qlt_le_dec _ _ then _ else _).
  assert (He : e1 == flooredEasiness card rating) by apply floor_is_max.
  destruct (rating <? 3)%Z; cbn [u_interval]; [reflexivity|].
  destruct (repetitions card + 1 =? 1)%Z; [reflexivity|].
  destruct (repetitions card + 1 =? 2)%Z; [reflexivity|].
  apply round_proper. rewrite He. reflexivity.
Qed.

Lemma computeSRS_next now card rating :
  u_nextReviewAt (computeSRS now card rating) =
  (now + u_interval (computeSRS now card rating) * 86400000)%Z.
Proof. unfold computeSRS. destruct (rating <? 3)%Z; reflexivity. Qed.

Lemma scaled_interval_lower (i : Z) (e : Q) :
  (0 <= i)%Z -> 13 # 10 <= e -> inject_Z i * (13 # 10) <= inject_Z i * e.
Proof.
  intros Hi He. rewrite !(Qmult_comm (inject_Z i)).
  apply Qmult_le_compat_r; [exact He|].
  unfold Qle, inject_Z. cbn. lia.
Qed.

(** X1: whatever the rating (also outside 0..5), a card with a
    non-negative interval and repetition count gets a difficulty in
    1..5, an easiness of at least 1.3, a non-negative interval and
    repetition count, and a next review that is not before [now]. *)
Theorem X1_computeSRS_keeps_card_invariants
    (now : Z) (card : Flashcard) (rating : Z) :
  (0 <= interval card)%Z -> (0 <= repetitions card)%Z ->
  let u := computeSRS now card rating in
  (1 <= u_difficulty u <= 5)%Z /\
  13 # 10 <= u_easiness u /\
  (0 <= u_interval u)%Z /\
  (0 <= u_repetitions u)%Z /\
  (now <= u_nextReviewAt u)%Z /\
  u_id u = id card /\ u_updatedAt u = now.
Proof.
  intros Hi Hr u.
  assert (Hint : (0 <= u_interval u)%Z).
  { subst u. rewrite computeSRS_interval.
    destruct (rating <? 3)%Z; [lia|].
    destruct (repetitions card + 1 =? 1)%Z; [lia|].
    destruct (repetitions card + 1 =? 2)%Z; [lia|].
    apply round_lower_bound.
    apply (Qle_trans _ (inject_Z (interval card) * (13 # 10))).
    - unfold Qle, inject_Z. cbn. lia.
    - apply scaled_interval_lower; [exact Hi | apply floored_ge_min]. }
  split; [subst u; unfold computeSRS; destruct (rating <? 3)%Z; cbn; lia|].
  split; [apply computeSRS_easiness_floor|].
  split; [exact Hint|].
  split; [subst u; unfold computeSRS; destruct (rating <? 3)%Z; cbn; lia|].
  split; [subst u; rewrite computeSRS_next; lia|].
  subst u; unfold computeSRS; destruct (rating <? 3)%Z; split; reflexivity.
Qed.

(** X2: a failed review (rating below 3) makes the card due at once;
    a passed review of a card that is at its first or second repetition,
    or has an interval of at least one day, puts the next review at
    least one day after [now]. *)
Theorem X2_computeSRS_next_review (now : Z) (card : Flashcard) (rating : Z) :
  let u := computeSRS now card rating in
  ((rating < 3)%Z -> u_nextReviewAt u = now) /\
  ((3 <= rating)%Z ->
     (repetitions card = 0 \/ repetitions card = 1 \/ 1 <= interval card)%Z ->
     (now + 86400000 <= u_nextReviewAt u)%Z).
Proof.
  intros u. subst u. rewrite computeSRS_next, computeSRS_interval. split.
  - intros Hlt. apply Z.ltb_lt in Hlt. rewrite Hlt. lia.
  - intros Hge Hstate. apply Z.ltb_ge in Hge. rewrite Hge.
    destruct (repetitions card + 1 =? 1)%Z eqn:E1; [lia|].
    destruct (repetitions card + 1 =? 2)%Z eqn:E2; [lia|].
    apply Z.eqb_neq in E1, E2.
    assert (Hi : (1 <= interval card)%Z) by lia.
    assert (1 <= round (inject_Z (interval card) * flooredEasiness card rating))%Z;
      [|lia].
    apply round_lower_bound.
    apply (Qle_trans _ (inject_Z (interval card) * (13 # 10))).
    + unfold Qle, inject_Z. cbn. lia.
    + apply scaled_interval_lower; [lia | apply floored_ge_min].
Qed.

(** X3: from the third successful repetition on, a passed review never
    shortens the interval of a card, and lengthens it as soon as the
    interval is two days or more. *)
Theorem X3_computeSRS_interval_grows (now : Z) (card : Flashcard) (rating : Z) :
  (3 <= rating)%Z -> (2 <= repetitions card)%Z -> (1 <= interval card)%Z ->
  let u := computeSRS now card rating in
  (interval card <= u_interval u)%Z /\
  ((2 <= interval card)%Z -> (interval card < u_interval u)%Z).
Proof.
  intros Hge Hreps Hi u. subst u. rewrite computeSRS_interval.
  apply Z.ltb_ge in Hge. rewrite Hge.
  destruct (repetitions card + 1 =? 1)%Z eqn:E1; [apply Z.eqb_eq in E1; lia|].
  destruct (repetitions card + 1 =? 2)%Z eqn:E2; [apply Z.eqb_eq in E2; lia|].
  pose proof (scaled_interval_lower (interval card) (flooredEasiness card rating)
                ltac:(lia) (floored_ge_min card rating)) as Hscaled.
  split.
  - apply round_lower_bound. eapply Qle_trans; [|exact Hscaled].
    unfold Qle, inject_Z. cbn. lia.
  - intros H2.
    assert (interval card + 1 <=
            round (inject_Z (interval card) * flooredEasiness card rating))%Z; [|lia].
    apply round_half_bound.
    apply (Qle_trans _ (inject_Z (interval card) * (13 # 10) + (1 # 2))).
    + unfold Qle, Qplus, Qmult, inject_Z. cbn. lia.
    + apply Qplus_le_l. exact Hscaled.
Qed.


Lemma filter_weaken {A : Type} (p q : A -> bool) (l : list A) :
  (forall x, p x = true -> q x = true) ->
  sublist (List.filter p l) (List.filter q l).
Proof.
  intros Hpq. induction l as [|x l IH]; cbn; [constructor|].
  destruct (p x) eqn:Ep.
  - rewrite (Hpq x Ep). apply sublist_skip, IH.
  - destruct (q x); [apply sublist_cons, IH | exact IH].
Qed.

(** X5: [filterDueCards] keeps, in their order, exactly the cards whose
    next review is at or before [now]; as time goes on the list only
    gains cards. *)
Theorem X5_filterDueCards_grows_with_time
    (cards : list Flashcard) (now later : Z) :
  (now <= later)%Z ->
  (forall c, c ∈ filterDueCards cards now <->
             c ∈ cards /\ (nextReviewAt c <= now)%Z) /\
  sublist (filterDueCards cards now) cards /\
  sublist (filterDueCards cards now) (filterDueCards cards later).
Proof.
  intros Hle. split; [|split].
  - intros c. unfold filterDueCards.
    rewrite !list_elem_of_In, filter_In, Z.leb_le. reflexivity.
  - unfold filterDueCards. induction cards as [|c cards IH]; cbn; [constructor|].
    destruct (nextReviewAt c <=? now)%Z;
      [apply sublist_skip | apply sublist_cons]; exact IH.
  - apply filter_weaken. intros c Hc. apply Z.leb_le in Hc. apply Z.leb_le. lia.
Qed.

End SrsMore.

Lemma X1_computeSRS_sample_card :
  ((0 <= Models.interval Sample.card)%Z /\ (0 <= Models.repetitions Sample.card)%Z) /\
  (1 <= Srs.u_difficulty (Srs.computeSRS 1000 Sample.card 9) <= 5)%Z.
Proof.
  assert (Hi : (0 <= Models.interval Sample.card)%Z) by (vm_compute; discriminate).
  assert (Hr : (0 <= Models.repetitions Sample.card)%Z) by (vm_compute; discriminate).
  split; [split; assumption|].
  destruct (X1_computeSRS_keeps_card_invariants 1000 Sample.card 9 Hi Hr) as (Hd & _).
  exact Hd.
Defined.

Lemma X3_computeSRS_six_days_grow :
  ((3 <= 4)%Z /\ (2 <= 2)%Z /\ (1 <= 6)%Z) /\
  (6 < Srs.u_interval (Srs.computeSRS 0 (Sample.testCard 2 6 (25 # 10)) 4))%Z.
Proof.
  assert (H1 : (3 <= 4)%Z) by lia.
  assert (H2 : (2 <= 2)%Z) by lia.
  assert (H3 : (1 <= 6)%Z) by lia.
  split; [repeat split; assumption|].
  destruct (X3_computeSRS_interval_grows 0 (Sample.testCard 2 6 (25 # 10)) 4 H1 H2 H3)
    as (_ & Hgrow).
  apply Hgrow. cbn. lia.
Defined.


Lemma X5_filterDueCards_later :
  (0 <= 5)%Z /\
  sublist (Srs.filterDueCards [Sample.card] 0) (Srs.filterDueCards [Sample.card] 5).
Proof.
  assert (Hle : (0 <= 5)%Z) by lia.
  split; [exact Hle|].
  destruct (X5_filterDueCards_grows_with_time [Sample.card] 0 5 Hle) as (_ & _ & Hs).
  exact Hs.
Defined.

(* ================================================================== *)
(** * More on sorting and lists *)
(* ================================================================== *)

Section SortMore.
Context {A : Type} (cmp : A -> A -> bool).
Hypothesis cmp_total : forall a b, cmp a b = false -> cmp b a = true.

Lemma insertSorted_Sorted x l :
  Sorted (fun a b => cmp a b = true) l ->
  Sorted (fun a b => cmp a b = true) (Js.insertSorted cmp x l).
Proof.
  induction l as [|y l IH]; intros Hs; cbn.
  - repeat constructor.
  - destruct (cmp x y) eqn:E.
    + constructor; [exact Hs | constructor; exact E].
    + inversion Hs as [|? ? Hs' Hhd]; subst.
      constructor; [apply IH; exact Hs'|].
      destruct l as [|z l]; cbn.
      * constructor. apply cmp_total, E.
      * inversion Hhd; subst. destruct (cmp x z); constructor;
          [apply cmp_total, E | assumption].
Qed.

Lemma sort_Sorted l : Sorted (fun a b => cmp a b = true) (Js.sort cmp l).
Proof.
  induction l as [|x l IH]; cbn; [constructor|].
  apply insertSorted_Sorted, IH.
Qed.

End SortMore.

Section ListMore.

Lemma sublist_map {A B : Type} (f : A -> B) (l1 l2 : list A) :
  sublist l1 l2 -> sublist (List.map f l1) (List.map f l2).
Proof.
  induction 1; cbn; [constructor | apply sublist_skip | apply sublist_cons];
    assumption.
Qed.

Lemma map_take {A B : Type} (f : A -> B) (n : nat) (l : list A) :
  List.map f (take n l) = take n (List.map f l).
Proof.
  revert l. induction n as [|n IH]; intros [|x l]; cbn; try reflexivity.
  rewrite IH. reflexivity.
Qed.

Lemma map_snd_combine {A B : Type} (l1 : list A) (l2 : list B) :
  length l1 = length l2 -> List.map snd (combine l1 l2) = l2.
Proof.
  revert l2. induction l1 as [|x l1 IH]; intros [|y l2] Hlen; cbn in *;
    try reflexivity; try discriminate.
  rewrite IH by lia. reflexivity.
Qed.

Lemma map_at_seq (s : list string) :
  List.map (LocalSummarizer.at_ s) (seq 0 (length s)) = s.
Proof.
  unfold LocalSummarizer.at_.
  induction s as [|x s IH]; cbn [length seq List.map nth]; [reflexivity|].
  f_equal. rewrite <- seq_shift, map_map. cbn [nth]. exact IH.
Qed.

(** Of two strictly increasing lists, one whose elements all occur in
    the other is a subsequence of it. *)
Lemma increasing_sublist (l2 : list nat) : forall l1,
  StronglySorted lt l1 -> StronglySorted lt l2 ->
  (forall x, x ∈ l1 -> x ∈ l2) -> sublist l1 l2.
Proof.
  induction l2 as [|y l2 IH]; intros l1 H1 H2 Hin.
  - destruct l1 as [|x l1]; [constructor|].
    specialize (Hin x ltac:(apply list_elem_of_here)). by apply elem_of_nil in Hin.
  - destruct l1 as [|x l1]; [apply sublist_nil_l|].
    apply StronglySorted_inv in H1 as [H1 Hx].
    apply StronglySorted_inv in H2 as [H2 Hy].
    rewrite Forall_forall in Hx, Hy.
    assert (Hxin : x ∈ y :: l2) by (apply Hin, list_elem_of_here).
    apply elem_of_cons in Hxin as [->|Hxin].
    + apply sublist_skip, IH; [exact H1 | exact H2|].
      intros z Hz.
      assert (Hz' : z ∈ y :: l2) by (apply Hin, list_elem_of_further, Hz).
      apply elem_of_cons in Hz' as [->|Hz']; [|exact Hz'].
      apply Hx in Hz. lia.
    + apply sublist_cons, IH; [constructor; [exact H1 | apply Forall_forall; exact Hx]
                              | exact H2 |].
      intros z Hz.
      assert (Hz' : z ∈ y :: l2) by (apply Hin, Hz).
      apply elem_of_cons in Hz' as [->|Hz']; [|exact Hz'].
      apply Hy in Hxin.
      apply elem_of_cons in Hz as [->|Hz]; [lia|].
      apply Hx in Hz. lia.
Qed.

Lemma seq_increasing a n : StronglySorted lt (seq a n).
Proof.
  revert a. induction n as [|n IH]; intros a; cbn; constructor; [apply IH|].
  apply Forall_forall. intros x Hx. apply list_elem_of_In, in_seq in Hx. lia.
Qed.

Lemma sorted_nodup_increasing (l : list nat) :
  Sorted le l -> NoDup l -> StronglySorted lt l.
Proof.
  intros Hs Hnd. apply Sorted_StronglySorted in Hs; [|intros x y z; lia].
  induction Hs as [|x l Hs IH Hall]; [constructor|].
  apply NoDup_cons in Hnd as [Hx Hnd].
  constructor; [apply IH, Hnd|].
  rewrite Forall_forall in *. intros y Hy.
  specialize (Hall y Hy).
  assert (x <> y) by (intros ->; apply Hx, Hy). lia.
Qed.

Lemma sort_ascending_increasing (l : list nat) :
  NoDup l -> StronglySorted lt (Js.sort LocalSummarizer.ascending l).
Proof.
  intros Hnd. apply sorted_nodup_increasing; [apply sort_ascending|].
  rewrite sort_Permutation. exact Hnd.
Qed.

End ListMore.

(* ================================================================== *)
(** * More on TextRank *)
(* ================================================================== *)

Section TextRankMore.
Import Textrank.
Variable sqrt : Q -> Q.

Lemma pageRankRound_length n matrix scores :
  length (fst (pageRankRound n matrix scores)) = n.
Proof. unfold pageRankRound. cbn [fst]. rewrite length_map, length_seq. reflexivity. Qed.

Lemma pageRank_length iters : forall n matrix scores,
  length scores = n -> length (pageRank iters n matrix scores) = n.
Proof.
  induction iters as [|iters IH]; intros n matrix scores Hlen; cbn [pageRank];
    [exact Hlen|].
  pose proof (pageRankRound_length n matrix scores) as Hround.
  destruct (pageRankRound n matrix scores) as [newScores delta]. cbn [fst] in Hround.
  destruct (Qlt_le_dec delta threshold); [exact Hround | apply IH, Hround].
Qed.

Local Abbreviation rankingOf := (Props.rankingOf sqrt).

Lemma textRank_ranking sentences topN :
  topN < length sentences ->
  textRank sqrt sentences topN = take topN (rankingOf sentences).
Proof.
  intros Hlt. unfold textRank, Props.rankingOf.
  destruct (length sentences =? 0) eqn:E0; [apply Nat.eqb_eq in E0; lia|].
  destruct (length sentences <=? topN) eqn:E1; [apply Nat.leb_le in E1; lia|].
  apply map_take.
Qed.

Lemma rankingOf_Permutation sentences :
  rankingOf sentences ≡ₚ seq 0 (length sentences).
Proof.
  unfold Props.rankingOf.
  rewrite (sort_Permutation byScoreDesc).
  rewrite map_snd_combine; [reflexivity|].
  rewrite length_seq. apply pageRank_length, repeat_length.
Qed.

Lemma textRank_NoDup sentences topN : NoDup (textRank sqrt sentences topN).
Proof.
  destruct (le_lt_dec (length sentences) topN) as [Hle|Hlt].
  - rewrite (textRank_all sqrt sentences topN Hle). apply NoDup_seq.
  - rewrite (textRank_ranking sentences topN Hlt).
    apply (sublist_NoDup _ (rankingOf sentences)); [|apply sublist_take].
    rewrite rankingOf_Permutation. apply NoDup_seq.
Qed.

Lemma textRank_exact_length sentences topN :
  length (textRank sqrt sentences topN) = Nat.min topN (length sentences).
Proof.
  destruct (le_lt_dec (length sentences) topN) as [Hle|Hlt].
  - rewrite (textRank_all sqrt sentences topN Hle), length_seq. lia.
  - rewrite (textRank_ranking sentences topN Hlt), length_take.
    rewrite (Permutation_length (rankingOf_Permutation sentences)), length_seq.
    reflexivity.
Qed.

(** Asking for more sentences never loses one that a smaller request
    returned. *)
Lemma textRank_monotone sentences a b i :
  a <= b -> i ∈ textRank sqrt sentences a -> i ∈ textRank sqrt sentences b.
Proof.
  intros Hab Hi.
  destruct (le_lt_dec (length sentences) b) as [Hle|Hlt].
  - rewrite (textRank_all sqrt sentences b Hle).
    apply textRank_in_range in Hi. apply list_elem_of_In, in_seq. lia.
  - rewrite (textRank_ranking sentences a ltac:(lia)) in Hi.
    rewrite (textRank_ranking sentences b Hlt).
    apply elem_of_take in Hi as (k & Hk & Hka).
    apply elem_of_take. exists k. split; [exact Hk | lia].
Qed.

End TextRankMore.

(** X6: [textRank sentences topN] returns exactly [min topN n] indices,
    [n] being the number of sentences, and never the same index twice;
    a sentence returned for some [topN] is also returned for every
    larger one. *)
Theorem X6_textRank_distinct_indices
    (sqrt : Q -> Q) (sentences : list string) (topN : nat) :
  length (Textrank.textRank sqrt sentences topN) = Nat.min topN (length sentences) /\
  NoDup (Textrank.textRank sqrt sentences topN) /\
  (forall more i, topN <= more ->
     i ∈ Textrank.textRank sqrt sentences topN ->
     i ∈ Textrank.textRank sqrt sentences more).
Proof.
  split; [apply textRank_exact_length|].
  split; [apply textRank_NoDup|].
  intros more i Hle Hi. eapply textRank_monotone; eassumption.
Qed.

(* ================================================================== *)
(** * Sentences, word counts and keywords *)
(* ================================================================== *)

Section TrimFacts.
Import Props.

Lemma trimEnd_idempotent s : Js.trimEnd (Js.trimEnd s) = Js.trimEnd s.
Proof.
  induction s as [|c s IH]; [reflexivity|].
  cbn [Js.trimEnd].
  destruct (Js.isSpace c && Js.isEmpty (Js.trimEnd s)) eqn:E; [reflexivity|].
  cbn [Js.trimEnd]. rewrite IH, E. reflexivity.
Qed.

Lemma trimStart_fixed s :
  match s with String c _ => Js.isSpace c = false | EmptyString => True end ->
  Js.trimStart s = s.
Proof. destruct s as [|c s]; [reflexivity|]. cbn. intros ->. reflexivity. Qed.

Lemma trimStart_clean s :
  match Js.trimStart s with String c _ => Js.isSpace c = false | EmptyString => True end.
Proof.
  induction s as [|c s IH]; cbn; [exact I|].
  destruct (Js.isSpace c) eqn:E; [exact IH | exact E].
Qed.

Lemma trimEnd_clean s :
  match s with String c _ => Js.isSpace c = false | EmptyString => True end ->
  match Js.trimEnd s with String c _ => Js.isSpace c = false | EmptyString => True end.
Proof.
  destruct s as [|c s]; [intros _; exact I|].
  intros Hc. cbn [Js.trimEnd]. rewrite Hc. cbn. exact Hc.
Qed.

Lemma trim_idempotent s : Js.trim (Js.trim s) = Js.trim s.
Proof.
  unfold Js.trim.
  rewrite (trimStart_fixed (Js.trimEnd (Js.trimStart s))).
  - apply trimEnd_idempotent.
  - apply trimEnd_clean, trimStart_clean.
Qed.

Lemma trim_blank s : nonSpace s = [] -> Js.trim s = "".
Proof.
  intros Hs. unfold Js.trim.
  assert (Hstart : Js.trimStart s = "").
  { induction s as [|c s IH]; [reflexivity|].
    cbn in *. destruct (Js.isSpace c); [apply IH, Hs | discriminate]. }
  rewrite Hstart. reflexivity.
Qed.

Lemma content_blank l : content l = [] -> forall s, s ∈ l -> nonSpace s = [].
Proof.
  induction l as [|x l IH]; intros Hc s Hs; [by apply elem_of_nil in Hs|].
  rewrite content_cons in Hc. apply app_eq_nil in Hc as [Hx Hl].
  apply elem_of_cons in Hs as [->|Hs]; [exact Hx | by apply IH].
Qed.

Lemma content_filter_trim (p : string -> bool) l :
  sublist (content (List.filter p (List.map Js.trim l))) (content l).
Proof.
  induction l as [|x l IH]; cbn [List.map List.filter]; [constructor|].
  rewrite (content_cons x). destruct (p (Js.trim x)).
  - rewrite content_cons, nonSpace_trim. apply sublist_app; [reflexivity | exact IH].
  - apply sublist_inserts_l, IH.
Qed.

End TrimFacts.

(** X7: every sentence that [splitSentences] returns is trimmed and has
    more than 10 characters; the sentences hold, in their order, only
    characters of the text; a text without a visible character (the
    empty string among them) has no sentence. *)
Theorem X7_splitSentences_sentences (text : string) :
  (forall s, s ∈ Textrank.splitSentences text ->
     Js.trim s = s /\ 10 < String.length s) /\
  sublist (Props.content (Textrank.splitSentences text)) (Props.nonSpace text) /\
  (Props.nonSpace text = [] -> Textrank.splitSentences text = []).
Proof.
  unfold Textrank.splitSentences. split; [|split].
  - intros s Hs. apply list_elem_of_In, filter_In in Hs as (Hin & Hlen).
    apply in_map_iff in Hin as (piece & <- & _).
    split; [apply trim_idempotent | by apply Nat.ltb_lt].
  - rewrite <- (split_content _ sentenceBreak_spaceOnly text).
    apply content_filter_trim.
  - intros Hblank.
    pose proof (split_content _ sentenceBreak_spaceOnly text) as Hc.
    rewrite Hblank in Hc.
    induction (Regex.split false Textrank.sentenceBreak text) as [|x l IH];
      [reflexivity|].
    cbn [List.map List.filter].
    rewrite (trim_blank x)
      by (apply (content_blank _ Hc), list_elem_of_here).
    cbn. apply IH. rewrite content_cons in Hc.
    apply app_eq_nil in Hc as [_ Hl]. exact Hl.
Qed.

Section FrequencyFacts.
Import Textrank.

Lemma mapGet_mapSet_eq k v m : mapGet k (mapSet k v m) = Some v.
Proof.
  induction m as [|[k' v'] m IH]; cbn.
  - rewrite String.eqb_refl. reflexivity.
  - destruct (String.eqb k' k) eqn:E; cbn; rewrite E; [reflexivity | exact IH].
Qed.

Lemma mapGet_mapSet_ne k t v m : k <> t -> mapGet t (mapSet k v m) = mapGet t m.
Proof.
  intros Hne. induction m as [|[k' v'] m IH]; cbn.
  - apply String.eqb_neq in Hne. rewrite Hne. reflexivity.
  - destruct (String.eqb k' k) eqn:E; cbn.
    + apply String.eqb_eq in E. subst k'.
      apply String.eqb_neq in Hne. rewrite Hne. reflexivity.
    + destruct (String.eqb k' t); [reflexivity | exact IH].
Qed.

Lemma keys_mapSet k v m t :
  t ∈ List.map fst (mapSet k v m) <-> t = k \/ t ∈ List.map fst m.
Proof.
  induction m as [|[k' v'] m IH]; cbn.
  - rewrite list_elem_of_singleton. split; [auto|].
    intros [->|H]; [reflexivity | by apply elem_of_nil in H].
  - destruct (String.eqb k' k) eqn:E; cbn.
    + apply String.eqb_eq in E. subst k'. rewrite elem_of_cons. tauto.
    + rewrite !elem_of_cons, IH. tauto.
Qed.

Lemma keys_mapSet_NoDup k v m :
  NoDup (List.map fst m) -> NoDup (List.map fst (mapSet k v m)).
Proof.
  induction m as [|[k' v'] m IH]; cbn; intros Hnd.
  - apply NoDup_singleton.
  - apply NoDup_cons in Hnd as [Hk' Hnd].
    destruct (String.eqb k' k) eqn:E; cbn.
    + apply NoDup_cons. split; assumption.
    + apply NoDup_cons. split; [|apply IH, Hnd].
      rewrite keys_mapSet. intros [->|Hin]; [|contradiction].
      rewrite String.eqb_refl in E. discriminate.
Qed.

Lemma mapGet_Some_key k v m : mapGet k m = Some v -> (k, v) ∈ m.
Proof.
  induction m as [|[k' v'] m IH]; cbn; [discriminate|].
  destruct (String.eqb k' k) eqn:E.
  - apply String.eqb_eq in E. intros [= ->]. subst. apply list_elem_of_here.
  - intros H. apply list_elem_of_further, IH, H.
Qed.

Lemma entry_mapGet k v m :
  NoDup (List.map fst m) -> (k, v) ∈ m -> mapGet k m = Some v.
Proof.
  induction m as [|[k' v'] m IH]; cbn; intros Hnd Hin;
    [by apply elem_of_nil in Hin|].
  apply NoDup_cons in Hnd as [Hk' Hnd].
  apply elem_of_cons in Hin as [[= -> ->]|Hin].
  - rewrite String.eqb_refl. reflexivity.
  - destruct (String.eqb k' k) eqn:E; [|by apply IH].
    apply String.eqb_eq in E. subst k'. exfalso. apply Hk'.
    apply list_elem_of_In, in_map_iff. exists (k, v).
    split; [reflexivity | by apply list_elem_of_In].
Qed.

(** The number of times [t] occurs in [tokens]. *)
Local Abbreviation occurrences := (count_occ string_dec).

Lemma wordFrequency_from tokens t : forall m,
  mapGet t
    (fold_left (fun freq t => mapSet t (default 0 (mapGet t freq) + 1) freq) tokens m)
  = if occurrences tokens t =? 0 then mapGet t m
    else Some (default 0 (mapGet t m) + occurrences tokens t).
Proof.
  induction tokens as [|x tokens IH]; intros m; [reflexivity|].
  cbn [fold_left count_occ]. rewrite IH.
  destruct (string_dec x t) as [->|Hne].
  - rewrite mapGet_mapSet_eq. cbn [default].
    destruct (occurrences tokens t =? 0) eqn:E.
    + apply Nat.eqb_eq in E. rewrite E. cbn. f_equal; lia.
    + cbn. f_equal; lia.
  - rewrite (mapGet_mapSet_ne x t _ m Hne). reflexivity.
Qed.

Lemma wordFrequency_lookup tokens t :
  mapGet t (wordFrequency tokens) =
  if occurrences tokens t =? 0 then None else Some (occurrences tokens t).
Proof. unfold wordFrequency. rewrite wordFrequency_from. reflexivity. Qed.

Lemma wordFrequency_NoDup tokens : NoDup (List.map fst (wordFrequency tokens)).
Proof.
  unfold wordFrequency.
  assert (H : forall m, NoDup (List.map fst m) ->
    NoDup (List.map fst
      (fold_left (fun freq t => mapSet t (default 0 (mapGet t freq) + 1) freq)
         tokens m))).
  { induction tokens as [|x tokens IH]; intros m Hm; [exact Hm|].
    cbn [fold_left]. apply IH, keys_mapSet_NoDup, Hm. }
  apply H. constructor.
Qed.

Lemma wordFrequency_entry tokens k v :
  (k, v) ∈ wordFrequency tokens <-> v = occurrences tokens k /\ 0 < v.
Proof.
  split.
  - intros Hin. apply (entry_mapGet _ _ _ (wordFrequency_NoDup tokens)) in Hin.
    rewrite wordFrequency_lookup in Hin.
    destruct (occurrences tokens k =? 0) eqn:E; [discriminate|].
    apply Nat.eqb_neq in E. injection Hin as <-. split; [reflexivity | lia].
  - intros [-> Hpos]. apply mapGet_Some_key. rewrite wordFrequency_lookup.
    destruct (occurrences tokens k =? 0) eqn:E; [apply Nat.eqb_eq in E; lia|].
    reflexivity.
Qed.

End FrequencyFacts.

(** X8: in the map that [wordFrequency] builds, looking a word up gives
    the number of times it occurs among the tokens, and nothing for a
    word that does not occur; no word is entered twice. *)
Theorem X8_wordFrequency_counts (tokens : list string) (t : string) :
  Textrank.mapGet t (Textrank.wordFrequency tokens) =
    (if count_occ string_dec tokens t =? 0 then None
     else Some (count_occ string_dec tokens t)) /\
  (t ∈ List.map fst (Textrank.wordFrequency tokens) <-> t ∈ tokens) /\
  NoDup (List.map fst (Textrank.wordFrequency tokens)).
Proof.
  split; [apply wordFrequency_lookup|].
  split; [|apply wordFrequency_NoDup].
  rewrite list_elem_of_In, in_map_iff. split.
  - intros ([k v] & <- & Hin). cbn.
    apply list_elem_of_In, wordFrequency_entry in Hin as [-> Hpos].
    apply list_elem_of_In. apply (count_occ_In string_dec). lia.
  - intros Hin. apply list_elem_of_In, (count_occ_In string_dec) in Hin.
    exists (t, count_occ string_dec tokens t). split; [reflexivity|].
    apply list_elem_of_In, wordFrequency_entry. split; [reflexivity | lia].
Qed.

Section KeywordFacts.
Import Textrank.

Lemma byCountDesc_total a b : byCountDesc a b = false -> byCountDesc b a = true.
Proof.
  unfold byCountDesc. intros H. apply Nat.leb_gt in H. apply Nat.leb_le. lia.
Qed.

Lemma sorted_by_count (l : list (string * nat)) :
  StronglySorted (fun a b => snd b <= snd a) (Js.sort byCountDesc l).
Proof.
  apply Sorted_StronglySorted; [intros x y z; lia|].
  pose proof (sort_Sorted byCountDesc byCountDesc_total l) as Hs.
  induction Hs as [|x l' Hs IH Hhd]; constructor; [exact IH|].
  destruct Hhd as [|y l'' Hxy]; constructor.
  unfold byCountDesc in Hxy. apply Nat.leb_le in Hxy. exact Hxy.
Qed.

Lemma StronglySorted_take_drop {A : Type} (R : A -> A -> Prop) (l : list A) n a b :
  StronglySorted R l -> a ∈ take n l -> b ∈ drop n l -> R a b.
Proof.
  revert n. induction l as [|x l IH]; intros n Hs Ha Hb.
  - rewrite take_nil in Ha. by apply elem_of_nil in Ha.
  - apply StronglySorted_inv in Hs as [Hs Hx]. rewrite Forall_forall in Hx.
    destruct n as [|n]; [by apply elem_of_nil in Ha|].
    cbn in Ha, Hb. apply elem_of_cons in Ha as [->|Ha].
    + apply Hx. eapply elem_of_sublist; [exact Hb | apply sublist_drop].
    + by apply (IH n).
Qed.

End KeywordFacts.

Lemma sorted_entry tokens k v :
  (k, v) ∈ Js.sort Textrank.byCountDesc (Textrank.wordFrequency tokens) <->
  v = count_occ string_dec tokens k /\ 0 < v.
Proof. rewrite sort_elem_of. apply wordFrequency_entry. Qed.

Lemma keyword_entry text topN k :
  k ∈ Textrank.extractKeywords text topN ->
  (k, count_occ string_dec (Textrank.tokenize text) k)
    ∈ take topN (Js.sort Textrank.byCountDesc
                   (Textrank.wordFrequency (Textrank.tokenize text))).
Proof.
  unfold Textrank.extractKeywords. intros Hk.
  apply list_elem_of_In, in_map_iff in Hk as ([k' v] & <- & Hin).
  cbn [fst]. apply list_elem_of_In in Hin.
  assert (Hin' : (k', v) ∈ Js.sort Textrank.byCountDesc
                             (Textrank.wordFrequency (Textrank.tokenize text)))
    by (eapply elem_of_sublist; [exact Hin | apply sublist_take]).
  apply sorted_entry in Hin' as [-> _]. exact Hin.
Qed.

(** The keywords are few, different, and tokens of the text. *)
Lemma extractKeywords_tokens (text : string) (topN : nat) :
  length (Textrank.extractKeywords text topN) <= topN /\
  NoDup (Textrank.extractKeywords text topN) /\
  (forall k, k ∈ Textrank.extractKeywords text topN -> k ∈ Textrank.tokenize text).
Proof.
  split; [|split].
  - unfold Textrank.extractKeywords. rewrite length_map, length_take. lia.
  - unfold Textrank.extractKeywords.
    set (freq := Textrank.wordFrequency (Textrank.tokenize text)).
    apply (sublist_NoDup _ (List.map fst (Js.sort Textrank.byCountDesc freq)));
      [|apply sublist_map, sublist_take].
    assert (Hkeys : List.map fst (Js.sort Textrank.byCountDesc freq)
                    ≡ₚ List.map fst freq)
      by (apply Permutation_map, sort_Permutation).
    rewrite Hkeys. apply wordFrequency_NoDup.
  - intros k Hk. apply keyword_entry in Hk.
    assert (Hin : (k, count_occ string_dec (Textrank.tokenize text) k)
                    ∈ Js.sort Textrank.byCountDesc
                        (Textrank.wordFrequency (Textrank.tokenize text)))
      by (eapply elem_of_sublist; [exact Hk | apply sublist_take]).
    apply sorted_entry in Hin as [_ Hpos].
    apply list_elem_of_In, (count_occ_In string_dec). exact Hpos.
Qed.

(** X9: [extractKeywords text topN] returns at most [topN] words, all
    different, each of them a token of the text; they come in order of
    falling frequency, and no token that is left out occurs more often
    than a keyword that is returned. *)
Theorem X9_extractKeywords_most_frequent (text : string) (topN : nat) :
  let tokens := Textrank.tokenize text in
  let keywords := Textrank.extractKeywords text topN in
  let count := count_occ string_dec tokens in
  length keywords <= topN /\
  NoDup keywords /\
  (forall k, k ∈ keywords -> k ∈ tokens) /\
  (forall i j ki kj, i <= j -> keywords !! i = Some ki -> keywords !! j = Some kj ->
     count kj <= count ki) /\
  (forall k t, k ∈ keywords -> t ∈ tokens -> t ∉ keywords -> count t <= count k).
Proof.
  intros tokens keywords count.
  destruct (extractKeywords_tokens text topN) as (Hlen & Hnd & Htok).
  split; [exact Hlen|]. split; [exact Hnd|]. split; [exact Htok|].
  set (sorted := Js.sort Textrank.byCountDesc (Textrank.wordFrequency tokens)).
  assert (Hsorted : StronglySorted (fun a b => snd b <= snd a) sorted)
    by apply sorted_by_count.
  split.
  - intros i j ki kj Hij Hi Hj.
    assert (Hki : (ki, count ki) ∈ take topN sorted)
      by (apply keyword_entry; eapply list_elem_of_lookup_2; exact Hi).
    assert (Hkj : (kj, count kj) ∈ take topN sorted)
      by (apply keyword_entry; eapply list_elem_of_lookup_2; exact Hj).
    subst keywords. unfold Textrank.extractKeywords in Hi, Hj.
    fold tokens in Hi, Hj. fold sorted in Hi, Hj.
    rewrite map_take in Hi, Hj.
    apply lookup_take_Some in Hi as [Hi _]. apply lookup_take_Some in Hj as [Hj _].
    change (List.map fst sorted) with (fst <$> sorted) in Hi, Hj.
    apply list_lookup_fmap_Some in Hi as ([ki' vi] & -> & Hi).
    apply list_lookup_fmap_Some in Hj as ([kj' vj] & -> & Hj).
    cbn [fst] in *.
    destruct (proj1 (sorted_entry tokens ki' vi) (list_elem_of_lookup_2 _ _ _ Hi))
      as [Hvi _].
    destruct (proj1 (sorted_entry tokens kj' vj) (list_elem_of_lookup_2 _ _ _ Hj))
      as [Hvj _].
    fold count in Hvi, Hvj. rewrite <- Hvi, <- Hvj.
    destruct (decide (i = j)) as [->|Hne];
      [rewrite Hi in Hj; injection Hj as _ <-; lia|].
    assert (Hlt : i < j) by lia.
    clear -Hsorted Hi Hj Hlt.
    revert i j Hi Hj Hlt.
    induction Hsorted as [|x l Hs IH Hx]; intros i j Hi Hj Hlt;
      [rewrite lookup_nil in Hi; discriminate|].
    destruct j as [|j]; [lia|]. cbn in Hj.
    destruct i as [|i]; cbn in Hi.
    + injection Hi as ->. rewrite Forall_forall in Hx.
      apply (Hx (kj', vj)). eapply list_elem_of_lookup_2, Hj.
    + apply (IH i j Hi Hj). lia.
  - intros k t Hk Ht Hnot. apply keyword_entry in Hk.
    assert (Hpos : 0 < count t)
      by (apply (count_occ_In string_dec), list_elem_of_In, Ht).
    assert (Hin : (t, count t) ∈ sorted)
      by (apply sorted_entry; split; [reflexivity | exact Hpos]).
    rewrite <- (take_drop topN sorted) in Hin.
    apply elem_of_app in Hin as [Hin|Hin].
    + exfalso. apply Hnot. apply list_elem_of_In, in_map_iff.
      exists (t, count t). split; [reflexivity | by apply list_elem_of_In].
    + exact (StronglySorted_take_drop _ sorted topN _ _ Hsorted Hk Hin).
Qed.

Section TokenFacts.
Import Regex.

Local Abbreviation chars := list_ascii_of_string.

Lemma chars_append a b : chars (a +:+ b) = chars a ++ chars b.
Proof.
  induction a as [|c a IH]; [reflexivity|].
  rewrite append_cons. cbn. rewrite IH. reflexivity.
Qed.

Lemma chars_unrev piece : chars (unrev piece) = rev piece.
Proof. unfold unrev. apply list_ascii_of_string_of_list_ascii. Qed.

Lemma chars_mapChars f s : chars (Js.mapChars f s) = List.map f (chars s).
Proof. induction s as [|c s IH]; cbn; [reflexivity | by rewrite IH]. Qed.

(** Replacing every character of a class by nothing filters the string. *)
Lemma replaceFrom_class p fuel : forall cur,
  remaining cur < fuel ->
  chars (replaceFrom false fuel (Cls p) "" cur) =
  List.filter (fun c => negb (p c)) (chars (rest cur)).
Proof.
  induction fuel as [|fuel IH]; intros [bef rst] Hfuel; [lia|].
  unfold remaining in *. cbn [rest] in *. cbn [replaceFrom].
  unfold matchAt. cbn [run]. unfold step. cbn [rest].
  destruct rst as [|c s]; [reflexivity|].
  cbn [String.length] in Hfuel. cbn [list_ascii_of_string List.filter].
  destruct (p c); cbn [negb].
  - unfold remaining. cbn [rest String.length].
    replace (String.length s <? S (String.length s)) with true
      by (symmetry; apply Nat.ltb_lt; lia).
    rewrite append_nil. apply IH. cbn. lia.
  - cbn [list_ascii_of_string]. f_equal. apply IH. cbn. lia.
Qed.

Lemma replaceAll_class p s :
  chars (replaceAll false (Cls p) "" s) =
  List.filter (fun c => negb (p c)) (chars s).
Proof. unfold replaceAll. apply replaceFrom_class. cbn. lia. Qed.

(** A loop over one class stops at a later position of the same text. *)
Lemma starLoop_class q fuel : forall cur cap cur' cap',
  starLoop (run false (Cls q)) (fun c p => Some (c, p)) fuel cur cap
    = Some (cur', cap') ->
  exists pre, rest cur = pre +:+ rest cur'.
Proof.
  induction fuel as [|fuel IH]; intros cur cap cur' cap'; cbn [starLoop].
  - intros [= <- _]. by exists "".
  - cbn [run]. unfold step. destruct cur as [bef rst]. cbn [rest].
    destruct rst as [|x s]; [intros [= <- _]; by exists ""|].
    destruct (q x); [|intros [= <- _]; by exists ""].
    destruct (remaining (Cursor (Some x) s) <? remaining (Cursor bef (String x s)));
      [|intros [= <- _]; by exists ""].
    destruct (starLoop _ _ fuel (Cursor (Some x) s) cap) as [[c2 p2]|] eqn:El.
    + intros [= <- <-]. apply IH in El as [pre Hpre]. cbn [rest] in Hpre.
      exists (String x pre). rewrite append_cons, <- Hpre. reflexivity.
    + intros [= <- _]. by exists "".
Qed.

Lemma starLoop_total body fuel cur cap :
  starLoop body (fun c p => Some (c, p)) fuel cur cap <> None.
Proof.
  destruct fuel as [|fuel]; cbn [starLoop]; [discriminate|].
  destruct (body cur cap _); discriminate.
Qed.

(** [/\s+/] matches exactly where a white-space character stands, and
    the match takes that character at least. *)
Lemma spaces_match cur cur' cap :
  matchAt false Textrank.spaces cur = Some (cur', cap) ->
  exists x pre, rest cur = String x (pre +:+ rest cur') /\ Js.isSpace x = true.
Proof.
  unfold matchAt, Textrank.spaces, Plus. cbn [run]. unfold step.
  destruct cur as [bef rst]. cbn [rest].
  destruct rst as [|x s]; [discriminate|].
  destruct (Js.isSpace x) eqn:Ex; [|discriminate].
  intros Hloop. apply starLoop_class in Hloop as [pre Hpre]. cbn [rest] in Hpre.
  exists x, pre. rewrite <- Hpre. split; [reflexivity | exact Ex].
Qed.

Lemma spaces_no_match bef x s :
  matchAt false Textrank.spaces (Cursor bef (String x s)) = None ->
  Js.isSpace x = false.
Proof.
  unfold matchAt, Textrank.spaces, Plus. cbn [run]. unfold step. cbn [rest].
  destruct (Js.isSpace x); [|reflexivity].
  intros Hloop. by apply starLoop_total in Hloop.
Qed.

(** The pieces of a split on white space hold characters of the text
    only, and no white space. *)
Lemma splitFrom_spaces (P : ascii -> Prop) fuel : forall cur piece,
  remaining cur <= fuel ->
  Forall P (chars (rest cur)) ->
  Forall (fun c => P c /\ Js.isSpace c = false) piece ->
  Forall (fun w => Forall (fun c => P c /\ Js.isSpace c = false) (chars w))
    (splitFrom false fuel Textrank.spaces cur piece).
Proof.
  induction fuel as [|fuel IH]; intros [bef rst] piece Hfuel Hrest Hpiece;
    unfold remaining in Hfuel; cbn [rest] in *; cbn [splitFrom rest].
  - destruct rst; [|cbn in Hfuel; lia].
    constructor; [|constructor].
    rewrite chars_append, chars_unrev. cbn. rewrite app_nil_r.
    by apply Forall_rev.
  - destruct rst as [|c s].
    { constructor; [|constructor]. rewrite chars_unrev. by apply Forall_rev. }
    cbn [String.length list_ascii_of_string] in Hfuel, Hrest.
    apply Forall_cons in Hrest as [Hc Hs].
    destruct (matchAt false Textrank.spaces (Cursor bef (String c s)))
      as [[cur' cap]|] eqn:Em.
    + apply spaces_match in Em as (x & pre & Hcur & Hx). cbn [rest] in Hcur.
      injection Hcur as <- Hs'.
      assert (Hlen : remaining cur' < S (String.length s)).
      { unfold remaining. rewrite Hs', length_append. lia. }
      unfold remaining at 2. cbn [rest String.length].
      replace (remaining cur' <? S (String.length s)) with true
        by (symmetry; apply Nat.ltb_lt; exact Hlen).
      constructor; [rewrite chars_unrev; by apply Forall_rev|].
      apply IH; [lia| |constructor].
      rewrite Hs', chars_append in Hs. by apply Forall_app in Hs as [_ Hs].
    + apply spaces_no_match in Em.
      apply IH; [unfold remaining; cbn; lia | exact Hs|].
      constructor; [split; assumption | exact Hpiece].
Qed.

Lemma split_spaces (P : ascii -> Prop) s :
  Forall P (chars s) ->
  Forall (fun w => Forall (fun c => P c /\ Js.isSpace c = false) (chars w))
    (split false Textrank.spaces s).
Proof.
  intros Hs. unfold split. destruct s as [|c s].
  - destruct (matchAt false Textrank.spaces (atStart "")); repeat constructor.
  - apply splitFrom_spaces; [unfold remaining; cbn; lia | exact Hs | constructor].
Qed.

Lemma toLowerChar_not_upper c : Js.isUpperAZ (Js.toLowerChar c) = false.
Proof.
  destruct c as [[] [] [] [] [] [] [] []]; vm_compute; reflexivity.
Qed.

Lemma lower_word c :
  Js.isUpperAZ c = false -> Js.isWord c || Js.isSpace c = true ->
  Js.isSpace c = false ->
  Js.isLowerAZ c || Js.isDigit c || (nat_of_ascii c =? 95) = true.
Proof.
  intros Hup Hw Hsp. unfold Js.isWord in Hw.
  rewrite Hup, Hsp, orb_false_r in Hw. exact Hw.
Qed.

End TokenFacts.

(** The characters of a token: lower-case letters, digits, underscore. *)
Lemma tokenize_chars (text : string) :
  Forall
    (fun w =>
       Forall
         (fun c => Js.isLowerAZ c || Js.isDigit c || (nat_of_ascii c =? 95) = true)
         (list_ascii_of_string w))
    (Textrank.tokenize text).
Proof.
  unfold Textrank.tokenize.
  set (clean := Regex.replaceAll false Textrank.notWordNotSpace ""
                  (Js.toLowerCase text)).
  assert (Hclean : Forall
            (fun c => Js.isUpperAZ c = false /\ Js.isWord c || Js.isSpace c = true)
            (list_ascii_of_string clean)).
  { subst clean. unfold Textrank.notWordNotSpace. rewrite replaceAll_class.
    unfold Js.toLowerCase. rewrite chars_mapChars.
    apply Forall_forall. intros c Hc.
    apply list_elem_of_In, filter_In in Hc as [Hc Hkeep].
    apply in_map_iff in Hc as (c0 & <- & _).
    split; [apply toLowerChar_not_upper|].
    by apply negb_true_iff, negb_false_iff in Hkeep. }
  apply (split_spaces _ clean) in Hclean.
  rewrite Forall_forall in Hclean. apply Forall_forall. intros w Hw.
  apply list_elem_of_In, filter_In in Hw as [Hw _].
  specialize (Hclean w (proj2 (list_elem_of_In _ _) Hw)).
  eapply Forall_impl; [exact Hclean|].
  intros c [[Hup Hword] Hsp]. by apply lower_word.
Qed.

Lemma tokenize_long text w :
  w ∈ Textrank.tokenize text -> 2 < String.length w.
Proof.
  unfold Textrank.tokenize. intros Hw.
  apply list_elem_of_In, filter_In in Hw as [_ Hkeep].
  apply andb_true_iff in Hkeep as [Hlen _]. by apply Nat.ltb_lt in Hlen.
Qed.

(** X10: every token that [tokenize] returns is made of the characters
    a to z, 0 to 9 and the underscore only (upper case is folded,
    punctuation and white space are gone), has at least three
    characters and is not a stop word. *)
Theorem X10_tokenize_plain_words (text : string) :
  Forall
    (fun w =>
       Forall
         (fun c => Js.isLowerAZ c || Js.isDigit c || (nat_of_ascii c =? 95) = true)
         (list_ascii_of_string w) /\
       2 < String.length w /\
       w ∉ Textrank.STOP_WORDS)
    (Textrank.tokenize text).
Proof.
  pose proof (tokenize_chars text) as Hchars. rewrite Forall_forall in Hchars.
  apply Forall_forall. intros w Hw.
  split; [apply Hchars, Hw|]. split; [eapply tokenize_long, Hw|].
  unfold Textrank.tokenize in Hw.
  apply list_elem_of_In, filter_In in Hw as [_ Hkeep].
  apply andb_true_iff in Hkeep as [_ Hstop].
  apply negb_true_iff, bool_decide_eq_false in Hstop. exact Hstop.
Qed.

(* ================================================================== *)
(** * Sentiment: the score is a plain average *)
(* ================================================================== *)

Section SentimentMore.
Import Sentiment Props.

Lemma contribution_bound neg w :
  (Z.abs (contribution neg w) <= (if isSentimentWord w then 1 else 0))%Z.
Proof.
  unfold contribution, isSentimentWord.
  destruct (isPositive w); cbn; [destruct neg; lia|].
  destruct (isNegative w); [destruct neg; lia | lia].
Qed.

Lemma totalFrom_bound ws : forall neg,
  (Z.abs (totalFrom neg ws) <= countOf ws)%Z.
Proof.
  induction ws as [|w ws IH]; intros neg; [unfold countOf; cbn; lia|].
  cbn [totalFrom]. specialize (IH (isNegation w)).
  pose proof (contribution_bound neg w) as Hc.
  unfold countOf in *. cbn [List.filter].
  destruct (isSentimentWord w); cbn [length]; lia.
Qed.

Lemma countOf_nonneg ws : (0 <= countOf ws)%Z.
Proof. unfold countOf. lia. Qed.

Lemma Qdiv_bounds (t c : Z) :
  (0 < c)%Z -> (Z.abs t <= c)%Z ->
  (-1 <= inject_Z t / inject_Z c)%Q /\ (inject_Z t / inject_Z c <= 1)%Q.
Proof.
  intros Hc Ht.
  assert (Hpos : (0 < inject_Z c)%Q)
    by (change 0%Q with (inject_Z 0); rewrite <- Zlt_Qlt; exact Hc).
  split.
  - apply Qle_shift_div_l; [exact Hpos|].
    unfold Qle, Qmult, inject_Z. cbn [Qnum Qden]. lia.
  - apply Qle_shift_div_r; [exact Hpos|].
    rewrite Qmult_1_l, <- Zle_Qle. lia.
Qed.

End SentimentMore.

(** X11: the two clamps at the end of [analyzeSentiment] never act.  The
    sum of the word scores lies between minus and plus the number of
    sentiment words counted, so for a text with a sentiment word the
    result is exactly the sum divided by that number; the batch
    function gives one such score per segment, in order. *)
Theorem X11_analyzeSentiment_is_the_average (text : string) :
  let ws := Sentiment.words text in
  (- Props.countOf ws <= Props.totalFrom false ws <= Props.countOf ws)%Z /\
  (Props.countOf ws <> 0%Z ->
   (Sentiment.analyzeSentiment text ==
    inject_Z (Props.totalFrom false ws) / inject_Z (Props.countOf ws))%Q) /\
  (forall segments i,
     Sentiment.analyzeSentimentBatch segments !! i =
     Sentiment.analyzeSentiment <$> segments !! i).
Proof.
  intros ws. pose proof (totalFrom_bound ws false) as Hb.
  pose proof (countOf_nonneg ws) as Hn.
  split; [lia|]. split.
  - intros Hne. unfold Sentiment.analyzeSentiment. fold ws.
    rewrite scanWords_total. unfold Sentiment.normalize.
    cbn [Sentiment.wordCount Sentiment.score].
    destruct (Props.countOf ws =? 0)%Z eqn:E; [apply Z.eqb_eq in E; contradiction|].
    rewrite Z.max_l by lia.
    destruct (Qdiv_bounds (Props.totalFrom false ws) (Props.countOf ws))
      as [Hlo Hhi]; [lia | exact Hb|].
    rewrite (proj2 (Q.min_r_iff _ _) Hhi).
    apply Q.max_r_iff. exact Hlo.
  - intros segments i. unfold Sentiment.analyzeSentimentBatch.
    apply list_lookup_fmap.
Qed.

(* ================================================================== *)
(** * The shape of a summary *)
(* ================================================================== *)

Section RankedFacts.
Import Textrank.
Variable sqrt : Q -> Q.
Local Abbreviation ranked := (Props.ranked sqrt).
Local Abbreviation picked top sentences :=
  (Js.sort LocalSummarizer.ascending
     (textRank sqrt sentences (Nat.min top (length sentences)))).

Lemma picked_increasing top sentences : StronglySorted lt (picked top sentences).
Proof. apply sort_ascending_increasing, textRank_NoDup. Qed.

Lemma picked_monotone a b sentences :
  a <= b -> sublist (picked a sentences) (picked b sentences).
Proof.
  intros Hab. apply increasing_sublist; try apply picked_increasing.
  intros i Hi. apply sort_elem_of. apply sort_elem_of in Hi.
  apply (textRank_monotone sqrt sentences (Nat.min a (length sentences)));
    [lia | exact Hi].
Qed.

Lemma picked_in_range top sentences :
  sublist (picked top sentences) (seq 0 (length sentences)).
Proof.
  apply increasing_sublist; [apply picked_increasing | apply seq_increasing|].
  intros i Hi. apply sort_elem_of, textRank_in_range in Hi.
  apply list_elem_of_In, in_seq. lia.
Qed.

Lemma ranked_sublist top sentences : sublist (ranked top sentences) sentences.
Proof.
  unfold Props.ranked.
  pose proof (sublist_map (LocalSummarizer.at_ sentences) _ _
                (picked_in_range top sentences)) as H.
  rewrite map_at_seq in H. exact H.
Qed.

Lemma ranked_monotone a b sentences :
  a <= b -> sublist (ranked a sentences) (ranked b sentences).
Proof. intros Hab. unfold Props.ranked. apply sublist_map, picked_monotone, Hab. Qed.

Lemma ranked_length top sentences :
  length (ranked top sentences) = Nat.min top (length sentences).
Proof.
  unfold Props.ranked.
  rewrite length_map, (Permutation_length (sort_Permutation _ _)).
  rewrite textRank_exact_length. lia.
Qed.

Lemma sublist_full {A : Type} (l1 l2 : list A) :
  sublist l1 l2 -> length l2 <= length l1 -> l1 = l2.
Proof.
  induction 1 as [|x l1 l2 Hs IH|x l1 l2 Hs IH]; cbn; intros Hlen.
  - reflexivity.
  - f_equal. apply IH. lia.
  - apply sublist_length in Hs. lia.
Qed.

Lemma ranked_short top sentences :
  length sentences <= top -> ranked top sentences = sentences.
Proof.
  intros Hle. apply sublist_full; [apply ranked_sublist|].
  rewrite ranked_length. lia.
Qed.

End RankedFacts.

(** X12: in the summary of either summarizer, the key points are
    sentences of the text in reading order, [min 10 n] of them when the
    text has [n] sentences; the TL;DR is [min 5 n] of the key points, in
    the same order; the highlights are the key points longer than 20
    characters; a text of at most five sentences has all of them as
    TL;DR and as key points. *)
Theorem X12_summary_picks_sentences_in_order
    (sqrt : Q -> Q) (random : nat -> nat) (transcript userName : string)
    (newId : string) (now : Z) (noteId : string)
    (segments : list Models.NoteSegment) :
  (let r := OfflineProvider.summarize sqrt random transcript userName in
   let sentences := Textrank.splitSentences transcript in
   sublist (AiProvider.keyPoints r) sentences /\
   sublist (AiProvider.tldr r) (AiProvider.keyPoints r) /\
   length (AiProvider.keyPoints r) = Nat.min 10 (length sentences) /\
   length (AiProvider.tldr r) = Nat.min 5 (length sentences) /\
   AiProvider.highlights r =
     List.filter (fun s => 20 <? String.length s) (AiProvider.keyPoints r) /\
   (length sentences <= 5 ->
    AiProvider.tldr r = sentences /\ AiProvider.keyPoints r = sentences)) /\
  (let r := LocalSummarizer.summarize sqrt random newId now noteId segments userName in
   let sentences :=
     Textrank.splitSentences (Js.join ". " (List.map Models.text segments)) in
   sublist (Models.keyPoints r) sentences /\
   sublist (Models.tldr r) (Models.keyPoints r) /\
   length (Models.keyPoints r) = Nat.min 10 (length sentences) /\
   length (Models.tldr r) = Nat.min 5 (length sentences) /\
   Models.highlights r =
     List.filter (fun s => 20 <? String.length s) (Models.keyPoints r) /\
   (length sentences <= 5 ->
    Models.tldr r = sentences /\ Models.keyPoints r = sentences)).
Proof.
  split.
  - intros r sentences.
    destruct (offline_fields sqrt random transcript userName)
      as (Ht & Hk & _ & _ & _ & _ & Hh & _).
    fold r in Ht, Hk, Hh. fold sentences in Ht, Hk, Hh.
    rewrite Hh, Ht, Hk.
    split; [apply ranked_sublist|].
    split; [apply ranked_monotone; lia|].
    split; [apply ranked_length|].
    split; [apply ranked_length|].
    split; [reflexivity|].
    intros Hle. split; apply ranked_short; lia.
  - intros r sentences.
    destruct (local_fields sqrt random newId now noteId segments userName)
      as (Ht & Hk & _ & _ & _ & _ & Hh & _).
    fold r in Ht, Hk, Hh. fold sentences in Ht, Hk, Hh.
    rewrite Hh, Ht, Hk, extractHighlights_ranked.
    split; [apply ranked_sublist|].
    split; [apply ranked_monotone; lia|].
    split; [apply ranked_length|].
    split; [apply ranked_length|].
    split; [reflexivity|].
    intros Hle. split; apply ranked_short; lia.
Qed.

(* ================================================================== *)
(** * Action items *)
(* ================================================================== *)

Section ActionFacts.
Import Models LocalSummarizer.

Local Abbreviation lowerTask :=
  (fun item : ActionItem => Js.toLowerCase (task item)).
Local Abbreviation wellFormed userName :=
  (fun item : ActionItem =>
     5 <= String.length (task item) /\
     Js.trim (task item) = task item /\
     (owner item = userName \/
      (Js.toLowerCase (owner item) <> "i" /\ Js.toLowerCase (owner item) <> "we"))).

Lemma ownerOf_cases sentence userName :
  ownerOf sentence userName = userName \/
  (Js.toLowerCase (ownerOf sentence userName) <> "i" /\
   Js.toLowerCase (ownerOf sentence userName) <> "we").
Proof.
  unfold ownerOf.
  destruct (Regex.exec true subjectPattern sentence) as [[whole [subject|]]|];
    [|left; reflexivity|left; reflexivity].
  cbv zeta.
  destruct (String.eqb (Js.toLowerCase subject) "i") eqn:Ei; [left; reflexivity|].
  destruct (String.eqb (Js.toLowerCase subject) "we") eqn:Ew; [left; reflexivity|].
  right. split; by apply String.eqb_neq.
Qed.

Lemma tryCues_item cues sentence userName seen item seen' :
  tryCues cues sentence userName seen = Some (item, seen') ->
  (wellFormed userName) item /\
  ((lowerTask item ∉ seen) /\
  seen' = {[ lowerTask item ]} ∪ seen).
Proof.
  induction cues as [|cue cues IH]; cbn [tryCues]; [discriminate|].
  destruct (Regex.exec true cue sentence) as [[whole group1]|]; [|exact IH].
  cbv zeta.
  set (trimmed := Js.trim (default "" group1)).
  set (t := if Js.isEmpty trimmed then Js.trim sentence else trimmed).
  destruct (String.length t <? 5) eqn:Elen; cbn [orb]; [exact IH|].
  destruct (bool_decide (Js.toLowerCase t ∈ seen)) eqn:Eseen; [exact IH|].
  intros [= <- <-]. cbn [task owner].
  apply Nat.ltb_ge in Elen. apply bool_decide_eq_false in Eseen.
  split; [|split; [exact Eseen | reflexivity]].
  split; [exact Elen|]. split; [|apply ownerOf_cases].
  subst t trimmed. destruct (Js.isEmpty _); apply trim_idempotent.
Qed.

Lemma actionLoop_items userName sentences : forall items (seen : gset string),
  (forall k, k ∈ seen <-> k ∈ List.map lowerTask items) ->
  NoDup (List.map lowerTask items) ->
  Forall (wellFormed userName) items ->
  let out := actionLoop sentences userName items seen in
  NoDup (List.map lowerTask out) /\
  Forall (wellFormed userName) out /\
  length out <= length items + length sentences.
Proof.
  induction sentences as [|s sentences IH]; intros items seen Hseen Hnd Hall;
    cbn [actionLoop].
  - cbn. split; [exact Hnd|]. split; [exact Hall | lia].
  - destruct (tryCues ACTION_CUES s userName seen) as [[item seen']|] eqn:Et.
    + apply tryCues_item in Et as (Hitem & Hnew & ->).
      destruct (IH (items ++ [item]) ({[ lowerTask item ]} ∪ seen))
        as (H1 & H2 & H3).
      * intros k. rewrite map_app, elem_of_app, elem_of_union, Hseen.
        cbn [List.map]. rewrite elem_of_singleton, list_elem_of_singleton. tauto.
      * rewrite map_app. cbn [List.map]. apply NoDup_app.
        split; [exact Hnd|]. split; [|apply NoDup_singleton].
        intros k Hk Hk'. apply list_elem_of_singleton in Hk'. subst k.
        apply Hnew, Hseen, Hk.
      * apply Forall_app. split; [exact Hall|]. constructor; [exact Hitem|constructor].
      * split; [exact H1|]. split; [exact H2|].
        rewrite length_app in H3. cbn in *. lia.
    + destruct (IH items seen Hseen Hnd Hall) as (H1 & H2 & H3).
      split; [exact H1|]. split; [exact H2|]. cbn. lia.
Qed.

End ActionFacts.

(** X13: [extractActionItems] gives at most one item per sentence; every
    task is trimmed and has at least five characters; no two tasks are
    equal up to letter case; an owner that is not the user's name is
    never "I" or "we" in any letter case.  The offline provider's copy
    is the same function. *)
Theorem X13_extractActionItems_items
    (sentences : list string) (userName : string) :
  let items := LocalSummarizer.extractActionItems sentences userName in
  length items <= length sentences /\
  NoDup (List.map (fun item => Js.toLowerCase (Models.task item)) items) /\
  Forall
    (fun item =>
       5 <= String.length (Models.task item) /\
       Js.trim (Models.task item) = Models.task item /\
       (Models.owner item = userName \/
        (Js.toLowerCase (Models.owner item) <> "i" /\
         Js.toLowerCase (Models.owner item) <> "we")))
    items /\
  OfflineProvider.extractActionItems sentences userName = items.
Proof.
  intros items. subst items. unfold LocalSummarizer.extractActionItems.
  destruct (actionLoop_items userName sentences [] ∅) as (H1 & H2 & H3).
  - intros k. cbn. rewrite elem_of_empty, elem_of_nil. tauto.
  - constructor.
  - constructor.
  - split; [cbn in H3; lia|]. split; [exact H1|]. split; [exact H2 | reflexivity].
Qed.

(* ================================================================== *)
(** * Follow-up questions *)
(* ================================================================== *)

Section FollowUpMore.
Import LocalSummarizer.

Local Abbreviation ask :=
  (fun (idx : nat) (topic : string) =>
     nth idx QUESTION_STARTERS "" +:+ " " +:+ topic +:+ "?").

Lemma probe_in_range fuel : forall idx (used : gset nat),
  idx < 8 -> probe fuel idx used < 8.
Proof.
  induction fuel as [|fuel IH]; intros idx used Hidx; cbn [probe]; [exact Hidx|].
  destruct (bool_decide (idx ∈ used) && (size used <? length QUESTION_STARTERS));
    [|exact Hidx].
  apply IH. change (length QUESTION_STARTERS) with 8.
  apply Nat.mod_upper_bound. lia.
Qed.

Lemma followUpLoop_shape random topics : forall k followUps (used : gset nat),
  size used + length topics <= 8 ->
  exists idxs,
    length idxs = length topics /\
    NoDup idxs /\
    Forall (fun i => i < 8 /\ i ∉ used) idxs /\
    followUpLoop random k topics followUps used =
      followUps ++ zip_with ask idxs topics.
Proof.
  induction topics as [|topic topics IH]; intros k followUps used Hroom.
  - exists []. cbn. rewrite app_nil_r. repeat split; constructor.
  - cbn [followUpLoop length] in *. cbv zeta.
    set (idx := probe (length QUESTION_STARTERS)
                  (random k mod length QUESTION_STARTERS) used).
    assert (Hstart : random k mod length QUESTION_STARTERS < 8)
      by (change (length QUESTION_STARTERS) with 8; apply Nat.mod_upper_bound; lia).
    assert (Hlt : idx < 8) by (apply probe_in_range, Hstart).
    assert (Hnew : idx ∉ used).
    { destruct (probe_leaves_the_loop _ used Hstart) as [H|H]; [exact H | lia]. }
    assert (Hsize : size ({[ idx ]} ∪ used) = S (size used)).
    { rewrite size_union by (apply disjoint_singleton_l; exact Hnew).
      rewrite size_singleton. reflexivity. }
    destruct (IH (S k) (followUps ++ [ask idx topic]) ({[ idx ]} ∪ used))
      as (idxs & Hlen & Hnd & Hall & Heq); [lia|].
    exists (idx :: idxs). cbn [length zip_with].
    split; [lia|]. rewrite Forall_forall in Hall.
    split; [|split].
    + apply NoDup_cons. split; [|exact Hnd].
      intros Hin. apply Hall in Hin as [_ Hin]. apply Hin.
      apply elem_of_union_l, elem_of_singleton. reflexivity.
    + constructor; [split; assumption|].
      apply Forall_forall. intros i Hi. apply Hall in Hi as [Hi8 Hi].
      split; [exact Hi8|]. intros Hu. apply Hi, elem_of_union_r, Hu.
    + rewrite Heq, <- app_assoc. reflexivity.
Qed.

End FollowUpMore.

(** X14: [generateFollowUps] asks one question for each of the first
    five topics, in their order: the question is a starter of
    [QUESTION_STARTERS], a space, the topic and a question mark, and no
    starter is used twice, whatever [Math.random] returns.  The offline
    provider's copy is the same function. *)
Theorem X14_generateFollowUps_distinct_starters
    (random : nat -> nat) (topics : list string) :
  let out := LocalSummarizer.generateFollowUps random topics in
  length out = Nat.min 5 (length topics) /\
  (exists idxs,
     length idxs = length out /\
     NoDup idxs /\
     Forall (fun i => i < length LocalSummarizer.QUESTION_STARTERS) idxs /\
     out = zip_with
             (fun idx topic =>
                nth idx LocalSummarizer.QUESTION_STARTERS "" +:+ " " +:+ topic +:+ "?")
             idxs (take 5 topics)) /\
  OfflineProvider.generateFollowUps random topics = out.
Proof.
  intros out. subst out. unfold LocalSummarizer.generateFollowUps.
  destruct (followUpLoop_shape random (take 5 topics) 0 [] ∅)
    as (idxs & Hlen & Hnd & Hall & Heq).
  { rewrite size_empty, length_take. lia. }
  rewrite Heq. cbn [app].
  assert (Hzip : length (zip_with
            (fun idx topic =>
               nth idx LocalSummarizer.QUESTION_STARTERS "" +:+ " " +:+ topic +:+ "?")
            idxs (take 5 topics)) = Nat.min 5 (length topics)).
  { rewrite length_zip_with, Hlen, length_take. lia. }
  rewrite take_ge by (rewrite Hzip; lia).
  split; [exact Hzip|]. split.
  - exists idxs. split; [rewrite Hzip, Hlen, length_take; reflexivity|].
    split; [exact Hnd|]. split; [|reflexivity].
    eapply Forall_impl; [exact Hall|]. intros i [Hi _]. exact Hi.
  - unfold OfflineProvider.generateFollowUps. rewrite Heq. cbn [app].
    apply take_ge. rewrite Hzip. lia.
Qed.

(* ================================================================== *)
(** * Topics *)
(* ================================================================== *)

Section TopicFacts.

Local Abbreviation plain :=
  (fun c => Js.isLowerAZ c || Js.isDigit c || (nat_of_ascii c =? 95) = true).

Lemma plain_lower_upper c : plain c -> Js.toLowerChar (Js.toUpperChar c) = c.
Proof.
  destruct c as [[] [] [] [] [] [] [] []]; vm_compute; intros H;
    first [reflexivity | discriminate H].
Qed.

Lemma plain_lower c : plain c -> Js.toLowerChar c = c.
Proof.
  destruct c as [[] [] [] [] [] [] [] []]; vm_compute; intros H;
    first [reflexivity | discriminate H].
Qed.

Lemma toUpperChar_idempotent c :
  Js.toUpperChar (Js.toUpperChar c) = Js.toUpperChar c.
Proof. destruct c as [[] [] [] [] [] [] [] []]; vm_compute; reflexivity. Qed.

Lemma toLowerCase_plain w :
  Forall plain (list_ascii_of_string w) -> Js.toLowerCase w = w.
Proof.
  unfold Js.toLowerCase. induction w as [|c w IH]; cbn; [reflexivity|].
  intros H. apply Forall_cons in H as [Hc Hw].
  rewrite (plain_lower c Hc), IH by exact Hw. reflexivity.
Qed.

Lemma toLowerCase_capitalize w :
  Forall plain (list_ascii_of_string w) ->
  Js.toLowerCase (Js.capitalize w) = w.
Proof.
  destruct w as [|c w]; [reflexivity|]. cbn [list_ascii_of_string Js.capitalize].
  intros H. apply Forall_cons in H as [Hc Hw].
  unfold Js.toLowerCase. cbn [Js.mapChars].
  rewrite (plain_lower_upper c Hc).
  fold (Js.toLowerCase w). rewrite toLowerCase_plain by exact Hw. reflexivity.
Qed.

Lemma capitalize_idempotent w : Js.capitalize (Js.capitalize w) = Js.capitalize w.
Proof. destruct w as [|c w]; cbn; [|rewrite toUpperChar_idempotent]; reflexivity. Qed.

Lemma capitalize_length w : String.length (Js.capitalize w) = String.length w.
Proof. destruct w; reflexivity. Qed.

Lemma filter_sublist {A : Type} (p : A -> bool) (l : list A) :
  sublist (List.filter p l) l.
Proof.
  induction l as [|x l IH]; cbn [List.filter]; [constructor|].
  destruct (p x); [apply sublist_skip | apply sublist_cons]; exact IH.
Qed.

End TopicFacts.

(** X15: [extractTopics] returns at most ten topics, all different; each
    has more than three characters and is a token of the text with its
    first letter in upper case (lower-casing the topic gives the token
    back).  The offline provider's copy is the same function. *)
Theorem X15_extractTopics_capitalised_tokens (text : string) :
  let topics := LocalSummarizer.extractTopics text in
  length topics <= 10 /\
  NoDup topics /\
  Forall
    (fun t =>
       3 < String.length t /\
       Js.toLowerCase t ∈ Textrank.tokenize text /\
       Js.capitalize (Js.toLowerCase t) = t)
    topics /\
  OfflineProvider.extractTopics text = topics.
Proof.
  intros topics. subst topics.
  unfold LocalSummarizer.extractTopics, OfflineProvider.extractTopics. cbv zeta.
  destruct (extractKeywords_tokens text 20) as (_ & Hnd & Htok).
  set (keywords := Textrank.extractKeywords text 20) in *.
  set (long := List.filter (fun kw => 3 <? String.length kw) keywords).
  assert (Hsub : sublist (take 10 long) keywords).
  { etransitivity; [apply sublist_take | apply filter_sublist]. }
  assert (Hplain : forall k, k ∈ take 10 long ->
            Forall (fun c => Js.isLowerAZ c || Js.isDigit c || (nat_of_ascii c =? 95) = true)
              (list_ascii_of_string k) /\
            k ∈ Textrank.tokenize text /\ 3 < String.length k).
  { intros k Hk.
    assert (Hkw : k ∈ keywords) by (eapply elem_of_sublist; eassumption).
    pose proof (Htok k Hkw) as Ht.
    pose proof (tokenize_chars text) as Hall. rewrite Forall_forall in Hall.
    split; [apply (Hall k Ht)|]. split; [exact Ht|].
    assert (Hl : k ∈ long) by (eapply elem_of_sublist; [exact Hk | apply sublist_take]).
    subst long. apply list_elem_of_In, filter_In in Hl as [_ Hl].
    by apply Nat.ltb_lt in Hl. }
  split; [rewrite length_map, length_take; lia|].
  split.
  { apply (NoDup_fmap_2_strong Js.capitalize).
    - intros x y Hx Hy Heq.
      rewrite <- (toLowerCase_capitalize x), <- (toLowerCase_capitalize y), Heq;
        [reflexivity | apply Hplain, Hy | apply Hplain, Hx].
    - eapply sublist_NoDup; [exact Hnd | exact Hsub]. }
  split; [|reflexivity].
  apply Forall_forall. intros t Ht.
  apply list_elem_of_In, in_map_iff in Ht as (k & <- & Hk).
  apply list_elem_of_In, Hplain in Hk as (Hp & Ht & Hlen).
  rewrite capitalize_length, toLowerCase_capitalize by exact Hp.
  split; [exact Hlen|]. split; [exact Ht | reflexivity].
Qed.

(* ================================================================== *)
(** * The two summarizers side by side *)
(* ================================================================== *)

Section SummaryMore.

Lemma splitSentences_trimmed text s :
  s ∈ Textrank.splitSentences text -> Js.trim s = s.
Proof.
  unfold Textrank.splitSentences. intros Hs.
  apply list_elem_of_In, filter_In in Hs as (Hin & _).
  apply in_map_iff in Hin as (piece & <- & _). apply trim_idempotent.
Qed.

Lemma map_fixed {A : Type} (f : A -> A) (l : list A) :
  (forall x, x ∈ l -> f x = x) -> List.map f l = l.
Proof.
  induction l as [|x l IH]; intros H; cbn; [reflexivity|].
  rewrite (H x) by apply list_elem_of_here.
  rewrite IH; [reflexivity|]. intros y Hy. apply H, list_elem_of_further, Hy.
Qed.

(** On trimmed sentences the two [extractDecisions] agree: the [trim]
    of the local one changes nothing. *)
Lemma extractDecisions_agree sentences :
  (forall s, s ∈ sentences -> Js.trim s = s) ->
  LocalSummarizer.extractDecisions sentences =
  OfflineProvider.extractDecisions sentences.
Proof.
  intros Htrim.
  unfold LocalSummarizer.extractDecisions, OfflineProvider.extractDecisions.
  f_equal. apply map_fixed. intros s Hs. apply Htrim.
  eapply elem_of_sublist; [exact Hs | apply filter_sublist].
Qed.

Lemma analyzeSentiment_range text :
  (-1 <= Sentiment.analyzeSentiment text <= 1)%Q.
Proof. apply normalize_range. Qed.

End SummaryMore.

(** X16: the summarizer of the note screen and the offline provider
    agree.  For any segments, the local summary of the segments and the
    offline summary of their texts joined by ". " have the same
    TL;DR, key points, decisions, action items, open questions, topics,
    highlights and follow-ups, when both draw the same random numbers. *)
Theorem X16_summarizers_agree
    (sqrt : Q -> Q) (random : nat -> nat) (newId : string) (now : Z)
    (noteId : string) (segments : list Models.NoteSegment) (userName : string) :
  let l := LocalSummarizer.summarize sqrt random newId now noteId segments userName in
  let o := OfflineProvider.summarize sqrt random
             (Js.join ". " (List.map Models.text segments)) userName in
  Models.tldr l = AiProvider.tldr o /\
  Models.keyPoints l = AiProvider.keyPoints o /\
  Models.decisions l = AiProvider.decisions o /\
  Models.actionItems l = AiProvider.actionItems o /\
  Models.openQuestions l = AiProvider.openQuestions o /\
  Models.topics l = AiProvider.topics o /\
  Models.highlights l = AiProvider.highlights o /\
  Models.followUps l = AiProvider.followUps o.
Proof.
  intros l o.
  destruct (local_fields sqrt random newId now noteId segments userName)
    as (L1 & L2 & L3 & L4 & L5 & L6 & L7 & L8 & _).
  destruct (offline_fields sqrt random
              (Js.join ". " (List.map Models.text segments)) userName)
    as (O1 & O2 & O3 & O4 & O5 & O6 & O7 & O8 & _).
  fold l in L1, L2, L3, L4, L5, L6, L7, L8.
  fold o in O1, O2, O3, O4, O5, O6, O7, O8.
  rewrite L1, L2, L3, L4, L5, L6, L7, L8, O1, O2, O3, O4, O5, O6, O7, O8.
  split; [reflexivity|]. split; [reflexivity|].
  split; [apply extractDecisions_agree; intros s; apply splitSentences_trimmed|].
  split; [reflexivity|]. split; [reflexivity|]. split; [reflexivity|].
  split; [apply extractHighlights_ranked | reflexivity].
Qed.

(** X17: every list of a local summary is bounded.  The decisions and
    the open questions are sentences of the text in reading order, at
    most ten of each; there are at most as many action items as
    sentences, at most ten topics, and one follow-up for each of the
    first five topics; there is one sentiment score for each segment,
    and it lies in [-1, 1]. *)
Theorem X17_summary_lists_are_bounded
    (sqrt : Q -> Q) (random : nat -> nat) (newId : string) (now : Z)
    (noteId : string) (segments : list Models.NoteSegment) (userName : string) :
  let r := LocalSummarizer.summarize sqrt random newId now noteId segments userName in
  let sentences :=
    Textrank.splitSentences (Js.join ". " (List.map Models.text segments)) in
  (length (Models.decisions r) <= 10 /\ sublist (Models.decisions r) sentences) /\
  (length (Models.openQuestions r) <= 10 /\
   sublist (Models.openQuestions r) sentences) /\
  length (Models.actionItems r) <= length sentences /\
  length (Models.topics r) <= 10 /\
  length (Models.followUps r) = Nat.min 5 (length (Models.topics r)) /\
  (exists scores,
     Models.sentimentBySegment r = Some scores /\
     length scores = length segments /\
     Forall (fun q => -1 <= q <= 1)%Q scores).
Proof.
  intros r sentences.
  destruct (local_fields sqrt random newId now noteId segments userName)
    as (_ & _ & L3 & L4 & L5 & L6 & _ & L8 & L9).
  fold r in L3, L4, L5, L6, L8, L9. fold sentences in L3, L4, L5.
  rewrite L3, L4, L5, L8, L9, L6.
  split.
  { rewrite extractDecisions_agree
      by (intros s; apply splitSentences_trimmed).
    unfold OfflineProvider.extractDecisions.
    split; [rewrite length_take; lia|].
    etransitivity; [apply sublist_take | apply filter_sublist]. }
  split.
  { unfold LocalSummarizer.extractOpenQuestions.
    split; [rewrite length_take; lia|].
    etransitivity; [apply sublist_take | apply filter_sublist]. }
  split.
  { unfold LocalSummarizer.extractActionItems.
    destruct (actionLoop_items userName sentences [] ∅) as (_ & _ & H3);
      [intros k; cbn; rewrite elem_of_empty, elem_of_nil; tauto
      | constructor | constructor | cbn in H3; lia]. }
  split.
  { unfold LocalSummarizer.extractTopics.
    rewrite length_map, length_take. lia. }
  split.
  { unfold LocalSummarizer.generateFollowUps.
    set (topics := LocalSummarizer.extractTopics _).
    destruct (followUpLoop_shape random (take 5 topics) 0 [] ∅)
      as (idxs & Hlen & _ & _ & Heq);
      [rewrite size_empty, length_take; lia|].
    rewrite Heq. cbn [app].
    rewrite length_take, length_zip_with, Hlen, length_take. lia. }
  exists (Sentiment.analyzeSentimentBatch (List.map Models.text segments)).
  split; [reflexivity|].
  unfold Sentiment.analyzeSentimentBatch.
  split; [rewrite !length_map; reflexivity|].
  apply Forall_forall. intros q Hq.
  apply list_elem_of_In, in_map_iff in Hq as (t & <- & _).
  apply analyzeSentiment_range.
Qed.

(* ================================================================== *)
(** * Titles *)
(* ================================================================== *)

Section TitleFacts.

Lemma extractKeywords_none text n :
  Textrank.extractKeywords text (S n) = [] -> Textrank.tokenize text = [].
Proof.
  unfold Textrank.extractKeywords.
  generalize (Textrank.tokenize text). intros tokens Hk.
  pose proof (sort_Permutation Textrank.byCountDesc (Textrank.wordFrequency tokens))
    as Hperm.
  destruct (Js.sort Textrank.byCountDesc (Textrank.wordFrequency tokens))
    as [|e sorted]; [|discriminate].
  symmetry in Hperm. apply Permutation_nil_r in Hperm.
  destruct tokens as [|t tokens]; [reflexivity|]. exfalso.
  assert (Hin : (t, count_occ string_dec (t :: tokens) t)
                  ∈ Textrank.wordFrequency (t :: tokens)).
  { apply wordFrequency_entry. split; [reflexivity|].
    apply (count_occ_In string_dec). left. reflexivity. }
  rewrite Hperm in Hin. by apply elem_of_nil in Hin.
Qed.

Lemma join_length sep l x :
  x ∈ l -> String.length x <= String.length (Js.join sep l).
Proof.
  induction l as [|y l IH]; intros Hx; [by apply elem_of_nil in Hx|].
  cbn [Js.join]. destruct l as [|z l].
  - apply list_elem_of_singleton in Hx. subst. lia.
  - rewrite !length_append.
    apply elem_of_cons in Hx as [->|Hx]; [lia|].
    specialize (IH Hx). lia.
Qed.

Lemma sliceTo_idempotent n : forall s, Js.sliceTo n (Js.sliceTo n s) = Js.sliceTo n s.
Proof.
  induction n as [|n IH]; intros [|c s]; cbn; try reflexivity.
  rewrite IH. reflexivity.
Qed.

End TitleFacts.

(** X18: [generateTitle] reads the first 2000 characters only.  The
    title is empty exactly when they hold no token; otherwise it is made
    of one to four different keywords of theirs, each with its first
    letter in upper case, joined by single spaces; when one of the
    keywords has more than three characters, every word of the title
    has. *)
Theorem X18_generateTitle_words (transcript : string) :
  let head := Js.sliceTo 2000 transcript in
  let title := OfflineProvider.generateTitle transcript in
  (title = "" <-> Textrank.tokenize head = []) /\
  (exists words,
     title = Js.join " " (List.map Js.capitalize words) /\
     length words <= 4 /\
     NoDup words /\
     sublist words (Textrank.extractKeywords head 5) /\
     (forall w, w ∈ words -> w ∈ Textrank.tokenize head) /\
     (Textrank.tokenize head <> [] -> words <> []) /\
     ((exists k, k ∈ Textrank.extractKeywords head 5 /\ 3 < String.length k) ->
      forall w, w ∈ words -> 3 < String.length w)) /\
  OfflineProvider.generateTitle head = title.
Proof.
  intros head title. subst title. unfold OfflineProvider.generateTitle.
  fold head.
  replace (Js.sliceTo 2000 head) with head
    by (subst head; symmetry; apply sliceTo_idempotent).
  cbv zeta.
  destruct (extractKeywords_tokens head 5) as (Hlen & Hnd & Htok).
  pose proof (extractKeywords_none head 4) as Hnone.
  set (keywords := Textrank.extractKeywords head 5) in *.
  set (long := List.filter (fun k => 3 <? String.length k) keywords).
  set (words := if 0 <? length (take 4 long) then take 4 long else take 3 keywords).
  assert (Hsub : sublist words keywords).
  { subst words. destruct (0 <? length (take 4 long)).
    - etransitivity; [apply sublist_take | apply filter_sublist].
    - apply sublist_take. }
  assert (Hwords : length words <= 4).
  { subst words. destruct (0 <? length (take 4 long)); rewrite length_take; lia. }
  assert (Hsome : keywords <> [] -> words <> []).
  { subst words. destruct (0 <? length (take 4 long)) eqn:E.
    - apply Nat.ltb_lt in E. intros _ Hnil. rewrite Hnil in E. cbn in E. lia.
    - destruct keywords; [congruence | discriminate]. }
  assert (Hlong : forall w, w ∈ words -> 2 < String.length w).
  { intros w Hw. apply (tokenize_long head), Htok.
    eapply elem_of_sublist; eassumption. }
  split; [|split; [|reflexivity]].
  - destruct (length keywords =? 0) eqn:E0.
    + apply Nat.eqb_eq, length_zero_iff_nil in E0.
      split; [intros _; apply Hnone, E0 | reflexivity].
    + apply Nat.eqb_neq in E0.
      assert (Hk : keywords <> []) by (intros ->; apply E0; reflexivity).
      split.
      * intros Htitle. exfalso.
        destruct words as [|w ws] eqn:Ew; [by apply Hsome|].
        pose proof (join_length " " (List.map Js.capitalize (w :: ws))
                      (Js.capitalize w) ltac:(apply list_elem_of_here)) as Hj.
        rewrite Htitle, capitalize_length in Hj.
        specialize (Hlong w ltac:(apply list_elem_of_here)). cbn in Hj. lia.
      * intros Hempty. exfalso.
        destruct keywords as [|k ks]; [by apply Hk|].
        specialize (Htok k ltac:(apply list_elem_of_here)).
        rewrite Hempty in Htok. by apply elem_of_nil in Htok.
  - destruct (length keywords =? 0) eqn:E0.
    + apply Nat.eqb_eq, length_zero_iff_nil in E0.
      exists []. split; [reflexivity|]. split; [cbn; lia|].
      split; [constructor|]. split; [apply sublist_nil_l|].
      split; [intros w Hw; by apply elem_of_nil in Hw|].
      split; [intros Hne; exfalso; apply Hne, Hnone, E0|].
      intros _ w Hw. by apply elem_of_nil in Hw.
    + exists words. split; [reflexivity|]. split; [exact Hwords|].
      split; [eapply sublist_NoDup; eassumption|]. split; [exact Hsub|].
      split; [intros w Hw; apply Htok; eapply elem_of_sublist; eassumption|].
      split.
      * intros Hne. apply Hsome. intros Hk. rewrite Hk in E0. discriminate.
      * intros (k & Hk & Hklen) w Hw. subst words.
        assert (Hkl : k ∈ long).
        { subst long. apply list_elem_of_In, filter_In.
          split; [by apply list_elem_of_In | by apply Nat.ltb_lt]. }
        assert (Hpos : (0 <? length (take 4 long)) = true).
        { apply Nat.ltb_lt. rewrite length_take.
          assert (length long <> 0); [|lia].
          intros H0. apply length_zero_iff_nil in H0. rewrite H0 in Hkl.
          by apply elem_of_nil in Hkl. }
        rewrite Hpos in Hw.
        assert (Hwl : w ∈ long)
          by (eapply elem_of_sublist; [exact Hw | apply sublist_take]).
        subst long. apply list_elem_of_In, filter_In in Hwl as [_ Hwl].
        by apply Nat.ltb_lt in Hwl.
Qed.

(* ================================================================== *)
(** * New flashcards *)
(* ================================================================== *)

Section NewCards.
Import Models FlashcardGenerator.
Variables (env : Env) (note : string).

Local Abbreviation made :=
  (fun c : Flashcard =>
     exists k type front back tags, c = makeCard env k note type front back tags).

Lemma imap_made {A : Type} (f : nat -> A -> Flashcard) (l : list A) :
  (forall i x, made (f i x)) -> Forall made (imap f l).
Proof.
  intros Hf. apply Forall_forall. intros c Hc.
  apply elem_of_lookup_imap in Hc as (i & x & -> & _). apply Hf.
Qed.

Lemma clozeLoop_made sentences topics : forall k cards,
  Forall made cards ->
  Forall made (fst (clozeLoop env k note sentences topics cards)).
Proof.
  induction sentences as [|s sentences IH]; intros k cards Hcards;
    cbn [clozeLoop]; [exact Hcards|].
  destruct (Textrank.extractKeywords s 3) as [|keyword rest]; [by apply IH|].
  cbv zeta. destruct (negb _); [by apply IH|].
  apply IH, Forall_app. split; [exact Hcards|].
  constructor; [|constructor]. by repeat eexists.
Qed.

Lemma termDefLoop_made keyPoints topics : forall k cards,
  Forall made cards ->
  Forall made (fst (termDefLoop env k note keyPoints topics cards)).
Proof.
  induction topics as [|t topics IH]; intros k cards Hcards;
    cbn [termDefLoop]; [exact Hcards|].
  destruct (OfflineProvider.relatedTo keyPoints t) as [related|]; [|by apply IH].
  destruct (Js.isEmpty related); [by apply IH|].
  apply IH, Forall_app. split; [exact Hcards|].
  constructor; [|constructor; [|constructor]]; by repeat eexists.
Qed.

(** Every card comes from [makeCard], and the two capped generators
    give at most ten cards each. *)
Lemma allCards_made summary :
  Forall made (allCards env note summary) /\
  length (allCards env note summary) <=
    length (keyPoints summary) + 20 + length (actionItems summary).
Proof.
  unfold allCards, generateQACards, generateClozeCards, generateTermDefCards.
  pose proof (clozeLoop_made (highlights summary ++ keyPoints summary)
                (topics summary) (0 + length (keyPoints summary)) []
                ltac:(constructor)) as Hc.
  destruct (clozeLoop env _ note _ _ []) as [clozeCards k2]. cbn [fst] in Hc.
  pose proof (termDefLoop_made (keyPoints summary) (topics summary) k2 []
                ltac:(constructor)) as Ht.
  destruct (termDefLoop env k2 note _ _ []) as [termCards k3]. cbn [fst] in Ht.
  split.
  - repeat (apply Forall_app; split).
    + apply imap_made. intros i x. by repeat eexists.
    + apply Forall_take, Hc.
    + apply Forall_take, Ht.
    + apply imap_made. intros i x. by repeat eexists.
  - unfold actionCards. rewrite !length_app, !length_imap, !length_take. lia.
Qed.

Lemma generateFlashcards_made summary segments :
  Forall made (generateFlashcards env note summary segments) /\
  length (generateFlashcards env note summary segments) <=
    length (keyPoints summary) + 20 + length (actionItems summary).
Proof.
  destruct (allCards_made summary) as [Hall Hlen].
  assert (Hsub : sublist (generateFlashcards env note summary segments)
                         (allCards env note summary))
    by apply filterUnseen_sublist.
  split.
  - rewrite Forall_forall in Hall. apply Forall_forall. intros c Hc.
    apply Hall. eapply elem_of_sublist; eassumption.
  - apply sublist_length in Hsub. lia.
Qed.

End NewCards.

(** X19: every card that [generateFlashcards] returns is a new card of
    the note: difficulty 3, interval 0, no repetition, easiness 2.5, and
    due at the moment it was created.  There are at most as many cards
    as key points and action items plus twenty.  So at any time from
    their creation on, [filterDueCards] keeps all of them, and the first
    review of any of them with a rating of 3 or more schedules the next
    one a day later. *)
Theorem X19_generated_cards_are_new_and_due
    (env : FlashcardGenerator.Env) (note : string) (summary : Models.Summary)
    (segments : list Models.NoteSegment) :
  let cards := FlashcardGenerator.generateFlashcards env note summary segments in
  Forall
    (fun c =>
       Models.noteId c = note /\
       Models.difficulty c = 3%Z /\
       Models.interval c = 0%Z /\
       Models.repetitions c = 0%Z /\
       Models.easiness c = (25 # 10)%Q /\
       Models.nextReviewAt c = Models.createdAt c /\
       Models.updatedAt c = Models.createdAt c)
    cards /\
  length cards <=
    length (Models.keyPoints summary) + 20 + length (Models.actionItems summary) /\
  (forall now,
     (forall k, (FlashcardGenerator.clock env k <= now)%Z) ->
     Srs.filterDueCards cards now = cards) /\
  (forall c now rating,
     c ∈ cards -> (3 <= rating)%Z ->
     Srs.u_interval (Srs.computeSRS now c rating) = 1%Z /\
     Srs.u_repetitions (Srs.computeSRS now c rating) = 1%Z /\
     Srs.u_nextReviewAt (Srs.computeSRS now c rating) = (now + 86400000)%Z).
Proof.
  intros cards.
  destruct (generateFlashcards_made env note summary segments) as [Hmade Hlen].
  fold cards in Hmade, Hlen. rewrite Forall_forall in Hmade.
  split; [|split; [exact Hlen|split]].
  - apply Forall_forall. intros c Hc.
    destruct (Hmade c Hc) as (k & ty & f & b & tg & ->).
    cbn. repeat split.
  - intros now Hclock. unfold Srs.filterDueCards.
    clearbody cards. induction cards as [|c cards IH]; [reflexivity|].
    cbn [List.filter].
    destruct (Hmade c ltac:(apply list_elem_of_here)) as (k & ty & f & b & tg & Hc).
    assert (Hdue : (Models.nextReviewAt c <=? now)%Z = true).
    { apply Z.leb_le. rewrite Hc. cbn. apply Hclock. }
    rewrite Hdue. f_equal. apply IH.
    + intros x Hx. apply Hmade, list_elem_of_further, Hx.
    + cbn in Hlen. lia.
  - intros c now rating Hc Hr.
    destruct (Hmade c Hc) as (k & ty & f & b & tg & ->).
    unfold Srs.computeSRS.
    replace (rating <? 3)%Z with false by (symmetry; apply Z.ltb_ge; lia).
    cbn. repeat split.
Qed.

(* ================================================================== *)
(** * The offline provider's flashcards *)
(* ================================================================== *)

Section OfflineCards.
Import OfflineProvider.

Lemma elem_of_concat {A : Type} (x : A) (ls : list (list A)) :
  x ∈ concat ls <-> exists l, x ∈ l /\ l ∈ ls.
Proof.
  rewrite list_elem_of_In, in_concat. split.
  - intros (l & Hl & Hx). exists l. split; by apply list_elem_of_In.
  - intros (l & Hx & Hl). exists l. split; by apply list_elem_of_In.
Qed.

Lemma omap_length {A B : Type} (f : A -> option B) (l : list A) :
  length (omap f l) <= length l.
Proof.
  induction l as [|x l IH]; cbn; [lia|]. destruct (f x); cbn; lia.
Qed.

Lemma termDefCards_length keyPoints topics :
  length (concat (List.map (termDefCards keyPoints) topics)) <= 2 * length topics.
Proof.
  induction topics as [|t topics IH]; cbn [List.map concat length]; [lia|].
  rewrite length_app. unfold termDefCards at 1.
  destruct (relatedTo keyPoints t) as [related|]; [|cbn; lia].
  destruct (Js.isEmpty related); cbn; lia.
Qed.

Lemma termDefCards_none topics :
  concat (List.map (termDefCards []) topics) = [].
Proof. induction topics as [|t topics IH]; cbn; [reflexivity | exact IH]. Qed.

Lemma omap_Forall {A B : Type} (P : B -> Prop) (f : A -> option B) (l : list A) :
  (forall x y, f x = Some y -> P y) -> Forall P (omap f l).
Proof.
  intros Hf. induction l as [|x l IH]; cbn; [constructor|].
  destruct (f x) eqn:E; [constructor; [by eapply Hf | exact IH] | exact IH].
Qed.

Lemma allCards_tags transcript summary :
  Forall (fun c => length (AiProvider.tags c) <= 3) (allCards transcript summary).
Proof.
  unfold allCards. repeat (apply Forall_app; split).
  - apply Forall_forall. intros c Hc.
    apply list_elem_of_In, in_map_iff in Hc as (p & <- & _).
    cbn. rewrite length_take. lia.
  - apply omap_Forall. intros s c. unfold clozeCard.
    destruct (Textrank.extractKeywords s 3) as [|k ks]; [discriminate|].
    cbv zeta. destruct (negb _); [discriminate|].
    intros [= <-]. cbn. rewrite length_take. lia.
  - apply Forall_forall. intros c Hc.
    apply elem_of_concat in Hc as (l & Hc & Hl).
    apply list_elem_of_In, in_map_iff in Hl as (t & <- & _).
    unfold termDefCards in Hc.
    destruct (relatedTo _ t) as [related|]; [|by apply elem_of_nil in Hc].
    destruct (Js.isEmpty related); [by apply elem_of_nil in Hc|].
    apply elem_of_cons in Hc as [->|Hc]; [cbn; lia|].
    apply list_elem_of_singleton in Hc. subst c. cbn. lia.
  - destruct summary as [s|]; [|constructor].
    apply Forall_forall. intros c Hc.
    apply list_elem_of_In, in_map_iff in Hc as (item & <- & _). cbn. lia.
Qed.

End OfflineCards.

(** X20: without a summary the offline provider makes no flashcard,
    whatever the transcript: every kind of card is drawn from the
    summary's key points, highlights or action items.  With a summary it
    makes at most one Q&A card and one cloze card per key point, one
    cloze card per highlight, two cards per topic and one per action
    item, and no card carries more than three tags. *)
Theorem X20_offline_flashcards_need_a_summary
    (transcript : string) (summary : AiProvider.AiSummaryResult) :
  OfflineProvider.generateFlashcards transcript None = [] /\
  length (OfflineProvider.generateFlashcards transcript (Some summary)) <=
    2 * length (AiProvider.keyPoints summary)
    + length (AiProvider.highlights summary)
    + 2 * length (AiProvider.topics summary)
    + length (AiProvider.actionItems summary) /\
  Forall (fun c => length (AiProvider.tags c) <= 3)
    (OfflineProvider.generateFlashcards transcript (Some summary)).
Proof.
  split; [|split].
  - unfold OfflineProvider.generateFlashcards, OfflineProvider.allCards.
    cbn [List.map app omap]. rewrite termDefCards_none. reflexivity.
  - assert (Hsub : sublist
              (OfflineProvider.generateFlashcards transcript (Some summary))
              (OfflineProvider.allCards transcript (Some summary)))
      by apply filterUnseen_sublist.
    apply sublist_length in Hsub.
    unfold OfflineProvider.allCards in Hsub.
    rewrite !length_app, !length_map in Hsub.
    pose proof (omap_length (OfflineProvider.clozeCard (AiProvider.topics summary))
                  (AiProvider.highlights summary ++ AiProvider.keyPoints summary)) as Hc.
    rewrite length_app in Hc.
    pose proof (termDefCards_length (AiProvider.keyPoints summary)
                  (AiProvider.topics summary)) as Ht.
    lia.
  - pose proof (allCards_tags transcript (Some summary)) as Hall.
    rewrite Forall_forall in Hall. apply Forall_forall. intros c Hc.
    apply Hall. eapply elem_of_sublist; [exact Hc | apply filterUnseen_sublist].
Qed.

(* ================================================================== *)
(** * Merging the summaries of a long transcript *)
(* ================================================================== *)

Section MergeFacts.
Import GeminiProvider.






End MergeFacts.


(* ================================================================== *)
(** * Study sessions *)
(* ================================================================== *)

Section StudyFacts.
Import Models FlashcardsStore Props.

Local Abbreviation update :=
  (fun (c : Flashcard) (e : Z * Z) => Srs.computeSRS (fst e) c (snd e)).




End StudyFacts.


(* ================================================================== *)
(** * More on chunking *)
(* ================================================================== *)

Section ChunkMore.
Import Props Regex.

Local Abbreviation visible := (fun s : string => nonSpace s <> []).

(** The invariant of [splitFrom] on sentence breaks: the character
    before the cursor is the last one of the piece being built, and
    when that piece is still empty it is white space, if there is one. *)
Local Abbreviation inPiece cur piece :=
  (match piece with
   | c :: _ => before cur = Some c
   | [] => match before cur with
           | Some c => Js.isSpace c = true
           | None => True
           end
   end).

Lemma sentenceEnd_visible b : Textrank.isSentenceEnd b = true -> Js.isSpace b = false.
Proof.
  destruct b as [[] [] [] [] [] [] [] []]; vm_compute; intros H;
    first [reflexivity | discriminate H].
Qed.

Lemma starLoop_before q fuel : forall cur cap cur' cap',
  starLoop (run false (Cls q)) (fun c p => Some (c, p)) fuel cur cap
    = Some (cur', cap') ->
  cur' = cur \/ exists y, before cur' = Some y /\ q y = true.
Proof.
  induction fuel as [|fuel IH]; intros cur cap cur' cap'; cbn [starLoop].
  - intros [= <- _]. left. reflexivity.
  - cbn [run]. unfold step. destruct cur as [bef rst]. cbn [rest].
    destruct rst as [|x s]; [intros [= <- _]; left; reflexivity|].
    destruct (q x) eqn:Ex; [|intros [= <- _]; left; reflexivity].
    destruct (remaining (Cursor (Some x) s) <? remaining (Cursor bef (String x s)));
      [|intros [= <- _]; left; reflexivity].
    destruct (starLoop _ _ fuel (Cursor (Some x) s) cap) as [[c2 p2]|] eqn:El.
    + intros [= <- <-]. right. apply IH in El as [->|Hy]; [|exact Hy].
      exists x. split; [reflexivity | exact Ex].
    + intros [= <- _]. left. reflexivity.
Qed.

(** A sentence break stands after a sentence end, takes at least one
    character and ends after a white-space character. *)
Lemma sentenceBreak_match cur cur' cap :
  matchAt false Textrank.sentenceBreak cur = Some (cur', cap) ->
  (exists b, before cur = Some b /\ Textrank.isSentenceEnd b = true) /\
  remaining cur' < remaining cur /\
  (exists y, before cur' = Some y /\ Js.isSpace y = true).
Proof.
  unfold matchAt, Textrank.sentenceBreak, Plus. cbn [run].
  destruct (before cur) as [b|] eqn:Eb; [|discriminate].
  destruct (Textrank.isSentenceEnd b) eqn:Eend; [|discriminate].
  unfold step. destruct cur as [bef rst]. cbn [rest].
  destruct rst as [|x s]; [discriminate|].
  destruct (Js.isSpace x) eqn:Ex; [|discriminate].
  intros Hloop. split; [exists b; split; [reflexivity | exact Eend]|].
  pose proof (starLoop_class _ _ _ _ _ _ Hloop) as [pre Hpre].
  pose proof (starLoop_before _ _ _ _ _ _ Hloop) as Hbef.
  cbn [rest] in Hpre. split.
  - unfold remaining. cbn [rest String.length]. rewrite Hpre, length_append. lia.
  - destruct Hbef as [->|Hy]; [|exact Hy].
    exists x. split; [reflexivity | exact Ex].
Qed.

Lemma unrev_visible c piece : Js.isSpace c = false -> visible (unrev (c :: piece)).
Proof.
  intros Hc. cbv beta. rewrite unrev_cons, nonSpace_append. cbn [nonSpace]. rewrite Hc.
  intros H. apply app_eq_nil in H as [_ H]. discriminate.
Qed.

(** Every piece of the split but the last one has a visible character. *)
Lemma splitFrom_pieces fuel : forall cur piece,
  inPiece cur piece ->
  exists init final,
    splitFrom false fuel Textrank.sentenceBreak cur piece = init ++ [final] /\
    Forall visible init.
Proof.
  induction fuel as [|fuel IH]; intros [bef rst] piece Hin; cbn [splitFrom rest].
  - exists [], (unrev piece +:+ rst). split; [reflexivity | constructor].
  - destruct rst as [|c s].
    { exists [], (unrev piece). split; [reflexivity | constructor]. }
    destruct (matchAt false Textrank.sentenceBreak (Cursor bef (String c s)))
      as [[cur' cap]|] eqn:Em.
    + apply sentenceBreak_match in Em as ((b & Hb & Hend) & Hlt & (y & Hy & Hsp)).
      apply Nat.ltb_lt in Hlt. rewrite Hlt.
      cbn [before] in Hb, Hin.
      assert (Hpiece : visible (unrev piece)).
      { destruct piece as [|p piece].
        - rewrite Hb in Hin. rewrite (sentenceEnd_visible b Hend) in Hin.
          discriminate.
        - rewrite Hb in Hin. injection Hin as <-.
          apply unrev_visible, sentenceEnd_visible, Hend. }
      destruct (IH cur' []) as (init & final & Heq & Hall).
      { cbn. rewrite Hy. exact Hsp. }
      exists (unrev piece :: init), final. rewrite Heq.
      split; [reflexivity | constructor; assumption].
    + apply (IH (Cursor (Some c) s) (c :: piece)). reflexivity.
Qed.

Lemma split_pieces text :
  exists init final,
    split false Textrank.sentenceBreak text = init ++ [final] /\
    Forall visible init.
Proof.
  unfold split. destruct text as [|c s].
  - exists [], "". split; [reflexivity | constructor].
  - apply splitFrom_pieces. exact I.
Qed.

Lemma visible_trim s : visible s -> Js.trim s <> "".
Proof. intros Hs Ht. apply Hs. rewrite <- nonSpace_trim, Ht. reflexivity. Qed.

Lemma empty_or_visible_append current sentence :
  (current = "" \/ visible current) -> visible sentence ->
  visible (current +:+ (if Js.isEmpty current then "" else " ") +:+ sentence).
Proof.
  intros _ Hs. cbv beta. rewrite !nonSpace_append. intros H.
  apply app_eq_nil in H as [_ H]. apply app_eq_nil in H as [_ H]. by apply Hs.
Qed.

(** The loop never pushes an empty chunk: a chunk is pushed either
    before a further sentence, and then it holds an earlier one, or at
    the end, where it is tested. *)
Lemma chunkLoop_chunks maxChars init final : forall chunks current,
  Forall visible init ->
  (current = "" \/ visible current) ->
  Forall (fun c => c <> "" /\ Js.trim c = c) chunks ->
  Forall (fun c => c <> "" /\ Js.trim c = c)
    (Text.chunkLoop maxChars (init ++ [final]) chunks current).
Proof.
  assert (Hpush : forall chunks current,
    Forall (fun c => c <> "" /\ Js.trim c = c) chunks ->
    (Text.len current >? 0)%Z = true -> (current = "" \/ visible current) ->
    Forall (fun c => c <> "" /\ Js.trim c = c) (chunks ++ [Js.trim current])).
  { intros chunks current Hchunks Hlen Hcur.
    apply Forall_app. split; [exact Hchunks|]. constructor; [|constructor].
    split; [|apply trim_idempotent].
    destruct Hcur as [->|Hv]; [discriminate Hlen | by apply visible_trim]. }
  induction init as [|s init IH]; intros chunks current Hinit Hcur Hchunks.
  - cbn [app Text.chunkLoop].
    set (step := if _ && _ then _ else _).
    assert (Hstep : Forall (fun c => c <> "" /\ Js.trim c = c) (fst step)).
    { subst step.
      destruct ((Text.len current + Text.len final + 1 >? maxChars)%Z) ; cbn [andb];
        [|exact Hchunks].
      destruct (Text.len current >? 0)%Z eqn:Hlen; cbn [fst]; [|exact Hchunks].
      by apply Hpush. }
    destruct step as [chunks1 current1]. cbn [fst] in Hstep.
    destruct (Js.isEmpty (Js.trim _)) eqn:E; [exact Hstep|].
    apply Forall_app. split; [exact Hstep|]. constructor; [|constructor].
    split; [by apply isEmpty_false in E | apply trim_idempotent].
  - apply Forall_cons in Hinit as [Hs Hinit].
    cbn [app Text.chunkLoop].
    destruct ((Text.len current + Text.len s + 1 >? maxChars)%Z
              && (Text.len current >? 0)%Z) eqn:Eb.
    + apply andb_true_iff in Eb as [_ Hlen].
      apply IH; [exact Hinit | right | by apply Hpush].
      by apply empty_or_visible_append; [left|].
    + apply IH; [exact Hinit | right | exact Hchunks].
      by apply empty_or_visible_append.
Qed.

Lemma chunkLoop_count maxChars sentences : forall chunks current,
  length (Text.chunkLoop maxChars sentences chunks current) <=
  length chunks + length sentences + (if Js.isEmpty current then 0 else 1).
Proof.
  induction sentences as [|s sentences IH]; intros chunks current;
    cbn [Text.chunkLoop].
  - destruct (Js.isEmpty (Js.trim current)) eqn:E; [lia|].
    rewrite length_app. cbn [length].
    destruct current; [discriminate E | cbn; lia].
  - destruct ((Text.len current + Text.len s + 1 >? maxChars)%Z
              && (Text.len current >? 0)%Z) eqn:Eb.
    + apply andb_true_iff in Eb as [_ Hlen].
      etransitivity; [apply IH|]. rewrite length_app. cbn [length].
      destruct current; [discriminate Hlen|]. cbn [Js.isEmpty].
      destruct (Js.isEmpty _); lia.
    + etransitivity; [apply IH|]. cbn [length].
      destruct current as [|c current]; cbn [Js.isEmpty].
      * rewrite !append_nil. destruct (Js.isEmpty s); lia.
      * rewrite append_cons. cbn [Js.isEmpty]. lia.
Qed.

End ChunkMore.

(** X23: when the text is longer than [maxChars], no chunk of
    [chunkText] is empty or has white space at either end, and there
    are at most as many chunks as sentences; there is no chunk at all
    exactly when the text has no visible character. *)
Theorem X23_chunkText_no_empty_chunk (text : string) (maxChars : Z) :
  (maxChars < Text.len text)%Z ->
  let chunks := Text.chunkText text maxChars in
  Forall (fun c => c <> "" /\ Js.trim c = c) chunks /\
  length chunks <= length (Regex.split false Textrank.sentenceBreak text) /\
  (chunks = [] <-> Props.nonSpace text = []).
Proof.
  intros Hlong chunks.
  assert (Hcontent : Props.content chunks = Props.nonSpace text).
  { subst chunks. unfold Text.chunkText.
    destruct (Text.len text <=? maxChars)%Z; [apply content_one|].
    rewrite chunkLoop_content. cbn [app Props.nonSpace].
    change (Props.content []) with (@nil ascii). cbn [app].
    apply split_content, sentenceBreak_spaceOnly. }
  assert (Hall : Forall (fun c => c <> "" /\ Js.trim c = c) chunks /\
                 length chunks <=
                   length (Regex.split false Textrank.sentenceBreak text)).
  { subst chunks. unfold Text.chunkText.
    replace (Text.len text <=? maxChars)%Z with false
      by (symmetry; apply Z.leb_gt; exact Hlong).
    split.
    - destruct (split_pieces text) as (init & final & -> & Hinit).
      apply chunkLoop_chunks; [exact Hinit | left; reflexivity | constructor].
    - etransitivity; [apply chunkLoop_count|]. cbn. lia. }
  destruct Hall as [Hall Hcount].
  split; [exact Hall|]. split; [exact Hcount|]. split.
  - intros Hnil. rewrite Hnil in Hcontent. symmetry. exact Hcontent.
  - intros Hblank. rewrite Hblank in Hcontent.
    destruct chunks as [|c chunks']; [reflexivity|]. exfalso.
    apply Forall_cons in Hall as [[Hne Htrim] _].
    apply Hne. rewrite <- Htrim. apply trim_blank.
    apply (content_blank _ Hcontent), list_elem_of_here.
Qed.

Lemma X23_chunkText_two_chunks :
  (15 < Text.len "Hello there. How are you?")%Z /\
  Text.chunkText "Hello there. How are you?" 15 = ["Hello there."; "How are you?"] /\
  Forall (fun c => c <> "" /\ Js.trim c = c)
    (Text.chunkText "Hello there. How are you?" 15).
Proof.
  split; [reflexivity|]. split; [vm_compute; reflexivity|].
  apply (X23_chunkText_no_empty_chunk "Hello there. How are you?" 15).
  reflexivity.
Defined.
